(** * The client script of the daily arXiv digest (src/script.js)

    A shallow embedding of the pure part of the page script: the string
    helpers it calls, the loosely typed values it reads from the payload and
    from local storage, the normalisation layer, the persistence adapter
    (loading and saving), the derivation engine (filters and grouping), the
    read-list controller with its click handler, the preferences form, and
    the handlers of the display mode and of the source; with the keyword
    filter of the earlier variants of the script (src/unnamed).

    Conventions of the model.
    - A JavaScript string is a [string]: a sequence of code units, here the
      code units below 256 (ASCII and Latin-1).
    - A JavaScript number is a member of an abstract type with the operations
      the script uses ([JsNumbers]); every statement holds for every model of
      the numbers.  An instance on [option Z] runs the definitions on
      integer-valued inputs.
    - A value of unknown shape (a parsed payload, a stored entry, the argument
      of [String(...)]) is a [JsValue].
    - [String(v)] and [Number(v)] throw a [TypeError] on some values; a
      function that can throw returns an [option], [None] standing for the
      error, and a call of the read-list controller ends in an [Outcome]:
      it returns or throws, with the state at that time.
    - [Date.now()] and [String.prototype.localeCompare] are inputs of the
      functions that call them. *)

From Stdlib Require Import List String Ascii ZArith Lia Bool Permutation Sorted.
From Stdlib Require DecimalString.
From stdpp Require Import base option list strings gmap.

Open Scope string_scope.

(* ===================================================================== *)
(** * Part I: the model of the script *)
(* ===================================================================== *)

(* ===================================================================== *)
(** ** String helpers *)
(* ===================================================================== *)

Module Str.

(** Code units as numbers. *)
Definition code (c : ascii) : nat := nat_of_ascii c.

(** The quotation mark, [U+0022]. *)
Definition dquote : ascii := ascii_of_nat 34.

(** [String.prototype.toLowerCase] on one code unit: the ASCII capitals and
    the Latin-1 capitals (all of [U+00C0..U+00DE] but the multiplication sign
    [U+00D7]) move 32 places up. *)
Definition lower_unit (c : ascii) : ascii :=
  let n := code c in
  if (((65 <=? n) && (n <=? 90)) ||
      ((192 <=? n) && (n <=? 222) && negb (n =? 215)))%nat
  then ascii_of_nat (n + 32) else c.

Fixpoint toLowerCase (s : string) : string :=
  match s with
  | EmptyString => EmptyString
  | String c s' => String (lower_unit c) (toLowerCase s')
  end.

(** The white space [String.prototype.trim] removes: tab, line feed, vertical
    tab, form feed, carriage return, space and the no-break space. *)
Definition is_white (c : ascii) : bool :=
  let n := code c in
  (((9 <=? n) && (n <=? 13)) || (n =? 32) || (n =? 160))%nat.

Definition is_empty (s : string) : bool :=
  match s with EmptyString => true | String _ _ => false end.

Fixpoint trimStart (s : string) : string :=
  match s with
  | EmptyString => EmptyString
  | String c s' => if is_white c then trimStart s' else s
  end.

Fixpoint trimEnd (s : string) : string :=
  match s with
  | EmptyString => EmptyString
  | String c s' =>
      let r := trimEnd s' in
      if is_white c && is_empty r then EmptyString else String c r
  end.

Definition trim (s : string) : string := trimEnd (trimStart s).

(** [s.startsWith(p)]. *)
Fixpoint startsWith (p s : string) : bool :=
  match p, s with
  | EmptyString, _ => true
  | String _ _, EmptyString => false
  | String a p', String b s' => if Ascii.eqb a b then startsWith p' s' else false
  end.

(** [s.includes(needle)]: [needle] occurs in [s] as a substring. *)
Fixpoint includes (s needle : string) : bool :=
  startsWith needle s ||
  match s with
  | EmptyString => false
  | String _ s' => includes s' needle
  end.

(** [s.replace(/c/g, r)] for a single character [c]. *)
Fixpoint replaceAll (c : ascii) (r : string) (s : string) : string :=
  match s with
  | EmptyString => EmptyString
  | String a s' =>
      if Ascii.eqb a c then r +:+ replaceAll c r s' else String a (replaceAll c r s')
  end.

(** [s.split(/[...]/)] on a class of single characters. *)
Fixpoint split (sep : ascii -> bool) (s : string) : list string :=
  match s with
  | EmptyString => [EmptyString]
  | String c s' =>
      if sep c then EmptyString :: split sep s'
      else match split sep s' with
           | h :: t => String c h :: t
           | [] => [String c EmptyString]
           end
  end.

(** [items.join(sep)]. *)
Fixpoint join (sep : string) (items : list string) : string :=
  match items with
  | [] => EmptyString
  | [x] => x
  | x :: rest => x +:+ sep +:+ join sep rest
  end.

(** Does the character [c] occur in [s]? *)
Fixpoint occurs (c : ascii) (s : string) : bool :=
  match s with
  | EmptyString => false
  | String a s' => Ascii.eqb a c || occurs c s'
  end.

End Str.

(* ===================================================================== *)
(** ** JavaScript values *)
(* ===================================================================== *)

(** The numbers of the script: what [String(n)], [Number(s)] and the
    truthiness test do is left to the model of the numbers.  [nan], [zero]
    and [one] are [NaN], [+0] and [1]; [isFalsyNumber] holds of [+0], [-0]
    and [NaN]. *)
Class JsNumbers (number : Type) := {
  nan : number;
  zero : number;
  one : number;
  numberToString : number -> string;
  stringToNumber : string -> number;
  isFalsyNumber : number -> bool;
  nan_falsy : isFalsyNumber nan = true;
  zero_falsy : isFalsyNumber zero = true;
}.

(** A value of unknown shape: what [JSON.parse] returns, plus [undefined]. *)
#[local] Set Warnings "-register-all".
Inductive JsValue (number : Type) : Type :=
| JsUndefined
| JsNull
| JsBool (b : bool)
| JsNum (n : number)
| JsStr (s : string)
| JsArr (items : list (JsValue number))
| JsObj (props : list (string * JsValue number)).

Arguments JsUndefined {number}.
Arguments JsNull {number}.
Arguments JsBool {number} b.
Arguments JsNum {number} n.
Arguments JsStr {number} s.
Arguments JsArr {number} items.
Arguments JsObj {number} props.

Module Js.
Section Values.
Context `{JsNumbers number}.

Local Abbreviation value := (JsValue number).

(** [Boolean(v)]: the falsy values are [undefined], [null], [false], [+0],
    [-0], [NaN] and the empty string. *)
Definition truthy (v : value) : bool :=
  match v with
  | JsUndefined | JsNull => false
  | JsBool b => b
  | JsNum n => negb (isFalsyNumber n)
  | JsStr s => negb (Str.is_empty s)
  | JsArr _ | JsObj _ => true
  end.

(** [a || b] and [a && b]. *)
Definition or (a b : value) : value := if truthy a then a else b.
Definition and (a b : value) : value := if truthy a then b else a.

(** The own property [key] of an object, in a list of properties (one
    entry per key). *)
Fixpoint lookup_prop (key : string) (props : list (string * value)) : option value :=
  match props with
  | [] => None
  | (k, v) :: rest => if String.eqb k key then Some v else lookup_prop key rest
  end.

(** [v.key] for a value [v] that is neither [null] nor [undefined] (on these
    the access throws, which the callers below handle themselves) and a key
    that no prototype defines: the keys the script reads ([id], [title],
    [absUrl], [url], [pdfUrl], [authors], [source], [note], [addedAt],
    [favorite_authors], [keywords]) are of that kind. *)
Definition getProp (v : value) (key : string) : value :=
  match v with
  | JsObj props => default JsUndefined (lookup_prop key props)
  | _ => JsUndefined
  end.

(** The strings of the elements of an array, when each has one. *)
Definition allSome (texts : list (option string)) : option (list string) :=
  fold_right (fun text rest =>
                match text, rest with
                | Some s, Some l => Some (s :: l)
                | _, _ => None
                end) (Some []) texts.

(** [String(v)]; [None] stands for a [TypeError].  An array prints its
    elements joined by commas, with [null] and [undefined] printed as
    nothing, and throws when an element does.  A plain object prints as
    [[object Object]] through the [toString] it inherits; an own property
    [toString] hides that method and, the values here being data, is no
    function itself, and the [valueOf] that is tried next gives no
    primitive: [String] then throws. *)
Fixpoint toString (v : value) : option string :=
  match v with
  | JsUndefined => Some "undefined"
  | JsNull => Some "null"
  | JsBool true => Some "true"
  | JsBool false => Some "false"
  | JsNum n => Some (numberToString n)
  | JsStr s => Some s
  | JsArr items =>
      option_map (Str.join ",")
        (allSome (map (fun x => match x with
                                | JsUndefined | JsNull => Some EmptyString
                                | _ => toString x
                                end) items))
  | JsObj props =>
      match lookup_prop "toString" props with
      | Some _ => None
      | None => Some "[object Object]"
      end
  end.

(** [Number(v)]; [None] stands for a [TypeError].  An object or array is
    first turned into its string: [valueOf] gives no primitive, and
    [toString] is called next. *)
Definition toNumber (v : value) : option number :=
  match v with
  | JsUndefined => Some nan
  | JsNull => Some zero
  | JsBool true => Some one
  | JsBool false => Some zero
  | JsNum n => Some n
  | JsStr s => Some (stringToNumber s)
  | JsArr _ | JsObj _ => option_map stringToNumber (toString v)
  end.

End Values.
End Js.

(* ===================================================================== *)
(** ** escapeHtml (script.js, 1017-1024) *)
(* ===================================================================== *)

Module Escape.
Section EscapeHtml.
Context `{JsNumbers number}.

(** [String(value || '')] followed by the five replacements, in the order of
    the source; [None] when [String] throws. *)
Definition escapeHtml (value : JsValue number) : option string :=
  text ← Js.toString (Js.or value (JsStr EmptyString));
  Some (Str.replaceAll "'" "&#39;"
         (Str.replaceAll Str.dquote "&quot;"
           (Str.replaceAll ">" "&gt;"
             (Str.replaceAll "<" "&lt;"
               (Str.replaceAll "&" "&amp;" text))))).

End EscapeHtml.

(** The five entities [escapeHtml] writes. *)
Definition entities : list string :=
  ["&amp;"; "&lt;"; "&gt;"; "&quot;"; "&#39;"].

(** What the five replacements make of one character. *)
Definition escapeUnit (c : ascii) : string :=
  if Ascii.eqb c "&" then "&amp;"
  else if Ascii.eqb c "<" then "&lt;"
  else if Ascii.eqb c ">" then "&gt;"
  else if Ascii.eqb c Str.dquote then "&quot;"
  else if Ascii.eqb c "'" then "&#39;"
  else String c EmptyString.

Fixpoint escapeAll (s : string) : string :=
  match s with
  | EmptyString => EmptyString
  | String c s' => escapeUnit c +:+ escapeAll s'
  end.

(** Every ampersand of [s] starts one of the entities. *)
Fixpoint ampersandsOk (s : string) : bool :=
  match s with
  | EmptyString => true
  | String c s' =>
      (if Ascii.eqb c "&" then existsb (fun e => Str.startsWith e s) entities else true)
      && ampersandsOk s'
  end.

End Escape.

(* ===================================================================== *)
(** ** A model of the numbers for running the definitions *)
(* ===================================================================== *)

(** The integers and [NaN] ([None]).  [Number(s)] reads a decimal integer
    with an optional minus sign, and the empty or blank string as [0]; the
    other numerals of JavaScript are outside this instance, which serves
    only to evaluate the definitions on concrete inputs. *)
Module IntNumbers.

Definition number : Type := option Z.

Definition toStr (n : number) : string :=
  match n with
  | Some z => DecimalString.NilZero.string_of_int (Z.to_int z)
  | None => "NaN"
  end.

Definition ofStr (s : string) : number :=
  let t := Str.trim s in
  if Str.is_empty t then Some 0%Z
  else option_map Z.of_int (DecimalString.NilZero.int_of_string t).

Definition isFalsy (n : number) : bool :=
  match n with
  | Some z => Z.eqb z 0
  | None => true
  end.

#[global] Instance numbers : JsNumbers number := {|
  nan := None;
  zero := Some 0%Z;
  one := Some 1%Z;
  numberToString := toStr;
  stringToNumber := ofStr;
  isFalsyNumber := isFalsy;
  nan_falsy := eq_refl;
  zero_falsy := eq_refl;
|}.

End IntNumbers.

(* ===================================================================== *)
(** ** Normalisation layer (script.js, 1040-1086) *)
(* ===================================================================== *)

(** The stored preferences. *)
Record Preferences := {
  favorite_authors : list string;
  keywords : list string;
}.

(** An entry of the read list. *)
Record ReadListEntry (number : Type) := {
  id : string;
  title : string;
  absUrl : string;
  pdfUrl : string;
  authors : string;
  source : string;
  note : string;
  addedAt : number;
}.

Arguments id {number} _.
Arguments title {number} _.
Arguments absUrl {number} _.
Arguments pdfUrl {number} _.
Arguments authors {number} _.
Arguments source {number} _.
Arguments note {number} _.
Arguments addedAt {number} _.

Module Normalize.

Definition DISPLAY_MODE_CLASSES : list (string * string) :=
  [("title", "display-mode-title");
   ("authors", "display-mode-authors");
   ("full", "display-mode-full")].

(** [Object.prototype.hasOwnProperty.call(obj, key)]. *)
Definition hasOwnProperty {V : Type} (obj : list (string * V)) (key : string) : bool :=
  existsb (fun kv => String.eqb kv.1 key) obj.

(** [new Set(items)] keeps the first occurrence of each string, in the order
    of insertion; [arrayFromSet] is [Array.from(new Set(items))]. *)
Fixpoint setAddAll (seen items : list string) : list string :=
  match items with
  | [] => seen
  | x :: rest => setAddAll (if bool_decide (x ∈ seen) then seen else (seen ++ [x])%list) rest
  end.

Definition arrayFromSet (items : list string) : list string := setAddAll [] items.

(** The separators of [/[\n,]/]: the line feed and the comma. *)
Definition isListSeparator (c : ascii) : bool :=
  Ascii.eqb c (ascii_of_nat 10) || Ascii.eqb c ",".

(** [.filter((item) => item)] on strings. *)
Definition nonEmpty (s : string) : bool := negb (Str.is_empty s).

Section Normalizers.
Context `{JsNumbers number}.

Local Abbreviation value := (JsValue number).
Local Abbreviation entry := (ReadListEntry number).

(** script.js, 1040-1046. *)
Definition normalizeDisplayMode (v : value) : string :=
  match v with
  | JsStr s =>
      let normalized := Str.toLowerCase (Str.trim s) in
      if hasOwnProperty DISPLAY_MODE_CLASSES normalized then normalized else "full"
  | _ => "full"
  end.

(** The inner [normalizeList] of [normalizePreferences]; [None] when
    [String(item)] throws on an element. *)
Definition normalizeList (v : value) : option (list string) :=
  match v with
  | JsArr items =>
      texts ← mapM Js.toString items;
      Some (arrayFromSet (List.filter nonEmpty (map Str.trim texts)))
  | JsStr s =>
      Some (arrayFromSet (List.filter nonEmpty (map Str.trim (Str.split isListSeparator s))))
  | _ => Some []
  end.

(** script.js, 1048-1067.  Reading a property of [null] or [undefined]
    throws a [TypeError], and so does [String] on some elements: the result
    is then [None]. *)
Definition normalizePreferences (raw : value) : option Preferences :=
  match raw with
  | JsUndefined | JsNull => None
  | _ =>
      authors ← normalizeList (Js.getProp raw "favorite_authors");
      words ← normalizeList (Js.getProp raw "keywords");
      Some {| favorite_authors := authors; keywords := words |}
  end.

(** A preferences record as a value: what [JSON.parse(JSON.stringify(prefs))]
    gives back, an object with the two arrays of strings. *)
Definition prefsValue (p : Preferences) : value :=
  JsObj [("favorite_authors", JsArr (map JsStr (favorite_authors p)));
         ("keywords", JsArr (map JsStr (keywords p)))].

(** [String(item && item.key ? item.key : '').trim()]. *)
Definition textField (item : value) (key : string) : option string :=
  text ← Js.toString
    (if Js.truthy (Js.and item (Js.getProp item key))
     then Js.getProp item key else JsStr EmptyString);
  Some (Str.trim text).

(** The callback of the [map] in [normalizeReadListItems], with the reading
    [now] of [Date.now()] at this call: [None] when [String] or [Number]
    throws, [Some None] for [null] (the entry is dropped), [Some (Some e)]
    for a record.  The record is built only when the entry is kept; [item]
    is then truthy, so that [item && item.note] is [item.note]. *)
Definition normalizeReadListItem (now : number) (item : value) : option (option entry) :=
  id ← textField item "id";
  t ← textField item "title";
  let title := if nonEmpty t then t else id in
  if negb (nonEmpty id) || negb (nonEmpty title) then Some None
  else
    let url := Js.or (Js.getProp item "absUrl") (Js.getProp item "url") in
    absText ← Js.toString (if Js.truthy (Js.and item url) then url else JsStr EmptyString);
    pdfUrl ← textField item "pdfUrl";
    authors ← textField item "authors";
    source ← textField item "source";
    added ← Js.toNumber (Js.and item (Js.getProp item "addedAt"));
    Some (Some {| id := id;
                  title := title;
                  absUrl := Str.trim absText;
                  pdfUrl := pdfUrl;
                  authors := authors;
                  source := source;
                  note := match Js.and item (Js.getProp item "note") with
                          | JsStr s => s
                          | _ => EmptyString
                          end;
                  addedAt := if isFalsyNumber added then now else added |}).

(** script.js, 1069-1086.  [now i] is what [Date.now()] returns while the
    callback runs on the element of index [i]; [None] when the callback
    throws on an element. *)
Definition normalizeReadListItems (now : nat -> number) (v : value) : option (list entry) :=
  match v with
  | JsArr items =>
      results ← mapM (fun x => x) (imap (fun i item => normalizeReadListItem (now i) item) items);
      Some (omap (fun x => x) results)
  | _ => Some []
  end.

(** A normalised entry as a value: the object the script keeps in
    [state.readList]. *)
Definition entryValue (e : entry) : value :=
  JsObj [("id", JsStr (id e)); ("title", JsStr (title e));
         ("absUrl", JsStr (absUrl e)); ("pdfUrl", JsStr (pdfUrl e));
         ("authors", JsStr (authors e)); ("source", JsStr (source e));
         ("note", JsStr (note e)); ("addedAt", JsNum (addedAt e))].

End Normalizers.
End Normalize.

(* ===================================================================== *)
(** ** Read-list controller (script.js, 132-139 and 911-962) *)
(* ===================================================================== *)

Module ReadList.
Import Normalize.

Section Controller.
Context `{JsNumbers number}.

Local Abbreviation value := (JsValue number).
Local Abbreviation entry := (ReadListEntry number).

(** The two fields of [state] the controller writes.  Saving to the storage
    and rendering follow each change and do not feed back into the state. *)
Record State := {
  readList : list entry;
  readListEditingId : string;
}.

(** How a call of the controller ends, with the state at that time: it
    returns, or a [TypeError] of [String] or [Number] leaves it. *)
Inductive Outcome : Type :=
| Returned (st : State)
| Threw (st : State).

Definition stateOf (o : Outcome) : State :=
  match o with
  | Returned st => st
  | Threw st => st
  end.

Definition sameId (a b : string) : bool := String.eqb a b.

(** script.js, 940-945: the list handed over is normalised again. *)
Definition setReadList (now : nat -> number) (nextList : list entry) (st : State)
    : Outcome :=
  match normalizeReadListItems now (JsArr (map entryValue nextList)) with
  | Some normalized =>
      Returned {| readList := normalized; readListEditingId := readListEditingId st |}
  | None => Threw st
  end.

(** script.js, 911-918.  [now1] is the clock during the normalisation of the
    new entry, [now2] the clock during [setReadList]. *)
Definition addToReadList (now1 now2 : nat -> number) (e : value) (st : State) : Outcome :=
  match normalizeReadListItems now1 (JsArr [e]) with
  | None => Threw st
  | Some [] => Returned st
  | Some (normalized :: _) =>
      let next :=
        (List.filter (fun item => negb (sameId (id item) (id normalized))) (readList st)
           ++ [normalized])%list in
      setReadList now2 next {| readList := readList st; readListEditingId := EmptyString |}
  end.

(** script.js, 920-926. *)
Definition removeFromReadList (now : nat -> number) (target : string) (st : State)
    : Outcome :=
  let next := List.filter (fun item => negb (sameId (id item) target)) (readList st) in
  let editing :=
    if sameId (readListEditingId st) target then EmptyString else readListEditingId st in
  setReadList now next {| readList := readList st; readListEditingId := editing |}.

(** [{ ...item, note: text }]. *)
Definition withNote (item : entry) (text : string) : entry :=
  {| id := id item; title := title item; absUrl := absUrl item; pdfUrl := pdfUrl item;
     authors := authors item; source := source item; note := text;
     addedAt := addedAt item |}.

(** script.js, 928-938.  [String(note || '')] is evaluated when the first
    entry with the id is met, before anything is written. *)
Definition updateReadListNote (now : nat -> number) (target : string) (text : value)
    (st : State) : Outcome :=
  let changed := existsb (fun item => sameId (id item) target) (readList st) in
  if negb changed then Returned st
  else
    match Js.toString (Js.or text (JsStr EmptyString)) with
    | None => Threw st
    | Some printed =>
        let next :=
          map (fun item => if negb (sameId (id item) target) then item
                           else withNote item printed)
              (readList st) in
        setReadList now next {| readList := readList st; readListEditingId := EmptyString |}
    end.

(** script.js, 132-139: the handler of the clear button. *)
Definition clearReadList (st : State) : State :=
  {| readList := []; readListEditingId := EmptyString |}.

(** script.js, 960-962. *)
Definition isInReadList (articleId : string) (st : State) : bool :=
  existsb (fun item => sameId (id item) articleId) (readList st).

(** The entries a normalisation returns: text fields trimmed, id and title
    not empty. *)
Definition normalEntry (e : entry) : Prop :=
  Str.trim (id e) = id e /\ id e <> EmptyString /\
  Str.trim (title e) = title e /\ title e <> EmptyString /\
  Str.trim (absUrl e) = absUrl e /\ Str.trim (pdfUrl e) = pdfUrl e /\
  Str.trim (authors e) = authors e /\ Str.trim (source e) = source e.

(** What normalising a normal entry again changes: nothing, unless its
    [addedAt] is falsy, which is then read from the clock. *)
Definition refresh (t : number) (e : entry) : entry :=
  {| id := id e; title := title e; absUrl := absUrl e; pdfUrl := pdfUrl e;
     authors := authors e; source := source e; note := note e;
     addedAt := if isFalsyNumber (addedAt e) then t else addedAt e |}.

(** Two entries that differ at most by a refreshed [addedAt]. *)
Definition sameEntry (a b : entry) : Prop :=
  id b = id a /\ title b = title a /\ absUrl b = absUrl a /\ pdfUrl b = pdfUrl a /\
  authors b = authors a /\ source b = source a /\ note b = note a /\
  (isFalsyNumber (addedAt a) = false -> addedAt b = addedAt a).

(** The states the controller leads to from [start]: after an add, a
    removal, a change of note or a clearing, whether the call returns or
    throws. *)
Inductive reachableFrom (start : State) : State -> Prop :=
| from_start : reachableFrom start start
| after_add now1 now2 e st :
    reachableFrom start st -> reachableFrom start (stateOf (addToReadList now1 now2 e st))
| after_remove now target st :
    reachableFrom start st -> reachableFrom start (stateOf (removeFromReadList now target st))
| after_note now target text st :
    reachableFrom start st -> reachableFrom start (stateOf (updateReadListNote now target text st))
| after_clear st :
    reachableFrom start st -> reachableFrom start (clearReadList st).

(** The invariant of the read list: normal entries, no id twice. *)
Definition uniqueIds (l : list entry) : Prop :=
  Forall normalEntry l /\ NoDup (map id l).

End Controller.
End ReadList.

(* ===================================================================== *)
(** ** Derivation engine: the two filters (script.js, 964-986) *)
(* ===================================================================== *)

Module Derivation.

(** An article of the payload, with the fields the derivation reads.
    [keywords] is [None] when the article has no array of keyword tags;
    [section_type] and [primary_subject] are [None] when absent. *)
Record Article := {
  arxiv_id : string;
  title : string;
  authors : list string;
  abstract : string;
  keywords : option (list string);
  section_type : option string;
  primary_subject : option string;
}.

Definition nonEmpty (s : string) : bool := negb (Str.is_empty s).

(** script.js, 964-971.  The list is [None] when the caller has none
    ([favoriteAuthors || []]). *)
Definition filterByFavoriteAuthors (articles : list Article)
    (favoriteAuthors : option (list string)) : list Article :=
  let favorites :=
    List.filter nonEmpty (map Str.toLowerCase (default [] favoriteAuthors)) in
  match favorites with
  | [] => []
  | _ :: _ =>
      List.filter
        (fun article =>
           let authorLower := map Str.toLowerCase (authors article) in
           existsb (fun fav => existsb (fun author => Str.includes author fav) authorLower)
                   favorites)
        articles
  end.

(** [array.includes(x)] on strings. *)
Definition arrayIncludes (items : list string) (x : string) : bool :=
  existsb (fun y => String.eqb y x) items.

(** script.js, 973-986. *)
Definition filterByKeywords (articles : list Article)
    (keywordList : option (list string)) : list Article :=
  let needles := List.filter nonEmpty (map Str.toLowerCase (default [] keywordList)) in
  match needles with
  | [] => []
  | _ :: _ =>
      List.filter
        (fun article =>
           let articleKeywords :=
             match keywords article with
             | Some tags => map Str.toLowerCase tags
             | None => []
             end in
           match articleKeywords with
           | _ :: _ => existsb (fun needle => arrayIncludes articleKeywords needle) needles
           | [] =>
               let fallback :=
                 Str.toLowerCase (title article +:+ " " +:+ abstract article) in
               existsb (fun needle => Str.includes fallback needle) needles
           end)
        articles
  end.

End Derivation.

(* ===================================================================== *)
(** ** Derivation engine: grouping (script.js, 875-909 and 1026-1033) *)
(* ===================================================================== *)

(** A [Map] with string keys: the entries in the order of insertion, one per
    key. *)
Module JsMap.
Section Operations.
Context {V : Type}.

Definition t : Type := list (string * V).

Fixpoint get (k : string) (m : t) : option V :=
  match m with
  | [] => None
  | (k', v) :: rest => if String.eqb k' k then Some v else get k rest
  end.

Definition has (k : string) (m : t) : bool :=
  match get k m with Some _ => true | None => false end.

(** [m.set(k, v)]: a known key keeps its place, a new key goes last. *)
Fixpoint set (k : string) (v : V) (m : t) : t :=
  match m with
  | [] => [(k, v)]
  | (k', v') :: rest =>
      if String.eqb k' k then (k', v) :: rest else (k', v') :: set k v rest
  end.

End Operations.
Arguments t V : clear implicits.
End JsMap.

Module Grouping.
Import Derivation.

Record SubjectGroup := {
  subjectId : string;
  subjectLabel : string;
  items : list Article;
}.

Record SectionGroup := {
  sectionId : string;
  sectionLabel : string;
  count : nat;
  subjects : list SubjectGroup;
}.

(** [value || fallback] on an optional string. *)
Definition orElse (value : option string) (fallback : string) : string :=
  match value with
  | Some s => if Str.is_empty s then fallback else s
  | None => fallback
  end.

Definition sectionKeyOf (article : Article) : string := orElse (section_type article) "Other".
Definition subjectKeyOf (article : Article) : string := orElse (primary_subject article) "Other".

(** The class [[a-z0-9]]. *)
Definition isSlugUnit (c : ascii) : bool :=
  let n := Str.code c in
  (((97 <=? n) && (n <=? 122)) || ((48 <=? n) && (n <=? 57)))%nat.

(** [s.replace(/[^a-z0-9]+/g, '-')]; [inRun] tells that the run of other
    characters being read has already been replaced. *)
Fixpoint hyphenate (inRun : bool) (s : string) : string :=
  match s with
  | EmptyString => EmptyString
  | String c s' =>
      if isSlugUnit c then String c (hyphenate false s')
      else if inRun then hyphenate true s'
      else String "-" (hyphenate true s')
  end.

Definition isHyphen (c : ascii) : bool := Ascii.eqb c "-".

(** [s.replace(/^-+|-+$/g, '')]. *)
Fixpoint stripStart (s : string) : string :=
  match s with
  | EmptyString => EmptyString
  | String c s' => if isHyphen c then stripStart s' else s
  end.

Fixpoint stripEnd (s : string) : string :=
  match s with
  | EmptyString => EmptyString
  | String c s' =>
      let r := stripEnd s' in
      if isHyphen c && Str.is_empty r then EmptyString else String c r
  end.

(** script.js, 1026-1033, on a string. *)
Definition slugify (text fallback : string) : string :=
  let slug := stripEnd (stripStart (hyphenate false (Str.toLowerCase (Str.trim text)))) in
  if Str.is_empty slug then fallback else slug.

(** [array.sort(compare)]: a stable sort; [compare a b <= 0] keeps [a]
    before [b]. *)
Fixpoint insertSorted {A : Type} (compare : A -> A -> Z) (x : A) (l : list A) : list A :=
  match l with
  | [] => [x]
  | y :: rest =>
      if (compare x y <=? 0)%Z then x :: l else y :: insertSorted compare x rest
  end.

Definition sort {A : Type} (compare : A -> A -> Z) (l : list A) : list A :=
  fold_right (insertSorted compare) [] l.

Definition Buckets : Type := JsMap.t (JsMap.t (list Article)).

(** The callback of [articles.forEach] (script.js, 877-888). *)
Definition addArticle (sections : Buckets) (article : Article) : Buckets :=
  let sectionKey := sectionKeyOf article in
  let subjectKey := subjectKeyOf article in
  let sections1 :=
    if JsMap.has sectionKey sections then sections
    else JsMap.set sectionKey [] sections in
  let subjectMap := default [] (JsMap.get sectionKey sections1) in
  let subjectMap1 :=
    if JsMap.has subjectKey subjectMap then subjectMap
    else JsMap.set subjectKey [] subjectMap in
  let bucket := default [] (JsMap.get subjectKey subjectMap1) in
  JsMap.set sectionKey (JsMap.set subjectKey (bucket ++ [article])%list subjectMap1) sections1.

Section Build.
(** [a.localeCompare(b)]: negative, zero or positive. *)
Variable localeCompare : string -> string -> Z.

Definition byKey {V : Type} (a b : string * V) : Z := localeCompare a.1 b.1.

(** script.js, 875-909. *)
Definition buildSectionGrouping (articles : list Article) : list SectionGroup :=
  let sections := fold_left addArticle articles [] in
  map (fun '(sectionName, subjectMap) =>
         let sectionId := "category-" +:+ slugify sectionName "section" in
         let subjects :=
           map (fun '(subjectName, items) =>
                  {| subjectId := sectionId +:+ "-" +:+ slugify subjectName "subject";
                     subjectLabel := subjectName;
                     items := items |})
               (sort byKey subjectMap) in
         {| sectionId := sectionId;
            sectionLabel := sectionName;
            count := fold_left (fun sum entry => sum + length (items entry)) subjects 0;
            subjects := subjects |})
      (sort byKey sections).

End Build.
End Grouping.

(* ===================================================================== *)
(** ** Persistence adapter (script.js, 21-44 and 1088-1139) *)
(* ===================================================================== *)

Module Persistence.
Import Normalize.

(** What [localStorage.getItem(key)] does: it throws (storage unavailable),
    returns [null] (no entry), or returns the stored string. *)
Inductive StorageRead : Type :=
| Throws
| Missing
| Stored (text : string).

Definition Storage : Type := string -> StorageRead.

Definition SOURCE_STORAGE_KEY : string := "arxivDigestSource".
Definition PREF_STORAGE_KEY : string := "arxivDigestPreferences".
Definition DISPLAY_MODE_STORAGE_KEY : string := "arxivDigestDisplayMode".
Definition READ_LIST_STORAGE_KEY : string := "arxivDigestReadList".

(** The properties every plain object inherits from [Object.prototype]: a
    lookup [obj[key]] with one of these keys finds a truthy value even when
    [obj] has no such property of its own. *)
Definition objectPrototypeKeys : list string :=
  ["constructor"; "__defineGetter__"; "__defineSetter__"; "hasOwnProperty";
   "__lookupGetter__"; "__lookupSetter__"; "isPrototypeOf"; "propertyIsEnumerable";
   "toString"; "valueOf"; "__proto__"; "toLocaleString"].

Section Load.
Context `{JsNumbers number}.

Local Abbreviation value := (JsValue number).
Local Abbreviation entry := (ReadListEntry number).

(** [JSON.parse]: [None] stands for a [SyntaxError]. *)
Variable JSON_parse : string -> option value.

(** The part of [RAW_DATA] that the start-up reads: the properties of
    [sources] in the order of [Object.keys], [default_source] (the empty
    string when absent) and [preferences]. *)
Record Payload := {
  sources : list (string * value);
  default_source : string;
  preferences : value;
}.

(** script.js, 1088-1095. *)
Definition loadStoredDisplayMode (storage : Storage) : string :=
  match storage DISPLAY_MODE_STORAGE_KEY with
  | Stored stored =>
      if nonEmpty stored then normalizeDisplayMode (number := number) (JsStr stored)
      else EmptyString
  | Missing => EmptyString
  | Throws => EmptyString
  end.

(** script.js, 33: [loadStoredDisplayMode() || 'authors']. *)
Definition initialDisplayMode (storage : Storage) : string :=
  let mode := loadStoredDisplayMode storage in
  if nonEmpty mode then mode else "authors".

(** script.js, 1103-1110.  A [TypeError] of the normalisation is caught like
    the other failures. *)
Definition loadStoredReadList (now : nat -> number) (storage : Storage) : list entry :=
  match storage READ_LIST_STORAGE_KEY with
  | Stored raw =>
      if nonEmpty raw then
        match JSON_parse raw with
        | Some parsed =>
            match normalizeReadListItems now parsed with
            | Some normalized => normalized
            | None => []
            end
        | None => []
        end
      else []
  | Missing => []
  | Throws => []
  end.

(** script.js, 1118-1124. *)
Definition loadStoredSource (storage : Storage) : string :=
  match storage SOURCE_STORAGE_KEY with
  | Stored stored => stored
  | Missing => EmptyString
  | Throws => EmptyString
  end.


(** script.js, 1132-1139, with the value [initial] of [initialPreferences].
    A [TypeError] of [normalizePreferences] inside the [try] is caught like
    the other failures. *)
Definition loadStoredPreferences (initial : Preferences) (storage : Storage)
    : option Preferences :=
  let fallback := normalizePreferences (prefsValue (number := number) initial) in
  match storage PREF_STORAGE_KEY with
  | Stored raw =>
      if nonEmpty raw then
        match JSON_parse raw with
        | Some parsed =>
            match normalizePreferences parsed with
            | Some prefs => Some prefs
            | None => fallback
            end
        | None => fallback
        end
      else fallback
  | Missing => fallback
  | Throws => fallback
  end.

(** [Boolean(RAW_DATA.sources[key])]. *)
Definition hasSource (payload : Payload) (key : string) : bool :=
  match Js.lookup_prop key (sources payload) with
  | Some v => Js.truthy v
  | None => existsb (String.eqb key) objectPrototypeKeys
  end.

(** script.js, 21-24, 29 and 40-44: the source the page starts with, or
    [None] when the payload has no source and the script returns at once. *)
Definition initialSource (payload : Payload) (storage : Storage) : option string :=
  match map fst (sources payload) with
  | [] => None
  | first :: _ =>
      let stored := loadStoredSource storage in
      Some (if hasSource payload stored then stored
            else if nonEmpty (default_source payload)
                    && hasSource payload (default_source payload)
                 then default_source payload
                 else first)
  end.

(** The failures of a load: the storage throws, has no entry, has an empty
    entry, or (for a slice stored as JSON) has text that does not parse. *)
Definition unreadable (storage : Storage) (key : string) : Prop :=
  storage key = Throws \/ storage key = Missing \/ storage key = Stored EmptyString.


End Load.
End Persistence.

(* ===================================================================== *)
(** ** View state: expansion of article cards (script.js, 582-633, 837-839,
       988-997) *)
(* ===================================================================== *)

Module ViewState.
Import Derivation.

(** [state.expandedArticles], a [Set] of article ids. *)
Definition Expanded : Type := gset string.

(** [String(article.arxiv_id || article.id || '')]; the field [arxiv_id] of
    the model stands for the id found. *)
Definition articleId (article : Article) : string := arxiv_id article.

(** script.js, 837-838: [aria-expanded] of a card as [renderArticleCard]
    writes it. *)
Definition ariaExpanded (displayMode : string) (expanded : Expanded) (article : Article)
    : bool :=
  let isUserExpanded := bool_decide (articleId article ∈ expanded) in
  String.eqb displayMode "full" || isUserExpanded.

(** script.js, 585-588: [aria-expanded] of a card as [updatePaperAria]
    writes it, from the card's attribute [data-paper-id] ([None] when the
    card has no such attribute). *)
Definition updatedAriaExpanded (displayMode : string) (expanded : Expanded)
    (attribute : option string) : bool :=
  let paperId := default EmptyString attribute in
  let isUserExpanded := nonEmpty paperId && bool_decide (paperId ∈ expanded) in
  String.eqb displayMode "full" || isUserExpanded.

(** script.js, 624-633. *)
Definition togglePaperExpansion (attribute : option string) (expanded : Expanded)
    : Expanded :=
  let paperId := default EmptyString attribute in
  if negb (nonEmpty paperId) then expanded
  else if bool_decide (paperId ∈ expanded) then expanded ∖ {[paperId]}
  else expanded ∪ {[paperId]}.

(** script.js, 988-997. *)
Definition pruneExpandedArticles (articles : list Article) (expanded : Expanded)
    : Expanded :=
  let ids : gset string := list_to_set (List.filter nonEmpty (map articleId articles)) in
  filter (fun storedId => storedId ∈ ids) expanded.

(** The expansion sets the page can hold: empty at the start (script.js,
    34), emptied by a change of source (217), and changed by toggling a card
    and by the pruning of each rendering. *)
Inductive reachable : Expanded -> Prop :=
| reach_start : reachable ∅
| reach_clear expanded : reachable expanded -> reachable ∅
| reach_toggle attribute expanded :
    reachable expanded -> reachable (togglePaperExpansion attribute expanded)
| reach_prune articles expanded :
    reachable expanded -> reachable (pruneExpandedArticles articles expanded).

End ViewState.

(* ===================================================================== *)
(** ** The preferences form (script.js, 142-155 and 999-1006) *)
(* ===================================================================== *)

Module PreferencesForm.
Import Normalize.

(** The line feed, [U+000A]. *)
Definition lineFeed : string := String (ascii_of_nat 10) EmptyString.

Section Form.
Context `{JsNumbers number}.

(** script.js, 999-1006: the texts written into the two text areas of the
    form.  (A text area gives back the text it was given as long as the text
    has no carriage return.) *)
Definition updatePreferenceInputs (prefs : Preferences) : string * string :=
  (Str.join lineFeed (favorite_authors prefs), Str.join lineFeed (keywords prefs)).

(** script.js, 145-148: the preferences read from the form on submit. *)
Definition submittedPreferences (inputs : string * string) : option Preferences :=
  normalizePreferences (number := number)
    (JsObj [("favorite_authors", JsStr inputs.1); ("keywords", JsStr inputs.2)]).

(** The strings the inner [normalizeList] cleans: the printed elements of an
    array (when they all print), or the pieces of a delimited string. *)
Definition candidates (v : JsValue number) : option (list string) :=
  match v with
  | JsArr items => mapM Js.toString items
  | JsStr s => Some (Str.split isListSeparator s)
  | _ => Some []
  end.

End Form.

(** The first occurrence of each string, in order. *)
Fixpoint firstSeen (l : list string) : list string :=
  match l with
  | [] => []
  | x :: rest => x :: List.filter (fun y => negb (String.eqb y x)) (firstSeen rest)
  end.

(** No comma, line feed or carriage return. *)
Fixpoint plainEntry (s : string) : bool :=
  match s with
  | EmptyString => true
  | String c s' =>
      negb (isListSeparator c) && negb (Ascii.eqb c (ascii_of_nat 13)) && plainEntry s'
  end.

End PreferencesForm.

(* ===================================================================== *)
(** ** The read-list buttons (script.js, 947-958) *)
(* ===================================================================== *)

Module ReadListButtons.
Import Normalize ReadList.

Section Buttons.
Context `{JsNumbers number}.

(** script.js, 947-958: whether [updateReadListButtons] marks a toggle
    button as active, from the button's attribute [data-article-id] ([None]
    when it has none). *)
Definition buttonActive (attribute : option string) (st : State (number := number))
    : bool :=
  let ids : gset string := list_to_set (map id (readList st)) in
  let articleId := default EmptyString attribute in
  nonEmpty articleId && bool_decide (articleId ∈ ids).

(** The entries whose [addedAt] is truthy: normalising them again changes
    nothing. *)
Definition settled (l : list (ReadListEntry number)) : Prop :=
  Forall normalEntry l /\ Forall (fun e => isFalsyNumber (addedAt e) = false) l.

(** The entry in note-edit mode, if any, is in the list. *)
Definition editingListed (st : State (number := number)) : Prop :=
  readListEditingId st = EmptyString \/ isInReadList (readListEditingId st) st = true.

End Buttons.
End ReadListButtons.

(* ===================================================================== *)
(** ** The clicks on the read-list controls (script.js, 635-692) *)
(* ===================================================================== *)

Module ReadListClicks.
Import Normalize ReadList.

Section Clicks.
Context `{JsNumbers number}.

Local Abbreviation value := (JsValue number).
Local Abbreviation State := (ReadList.State (number := number)).

(** What a click hits, in the order in which [handleReadListClick] looks for
    it, with what the handler reads from the page: the attribute of the
    control ([EmptyString] when absent), for a toggle the decoded title,
    links and authors of the article and the label of the current source,
    for a save the text of the note input. *)
Inductive Click : Type :=
| ToggleClick (articleId title url pdfUrl authors : string) (sourceLabel : value)
| RemoveClick (targetId : string)
| EditClick (targetId : string)
| CancelClick
| SaveClick (targetId note : string)
| OtherClick.

(** The entry a toggle hands to [addToReadList] (script.js, 647-654). *)
Definition toggledEntry (articleId title url pdfUrl authors : string) (sourceLabel : value)
    : value :=
  JsObj [("id", JsStr articleId);
         ("title", JsStr (if nonEmpty title then title else articleId));
         ("absUrl", JsStr url);
         ("pdfUrl", JsStr pdfUrl);
         ("authors", JsStr authors);
         ("source", sourceLabel)].

(** script.js, 635-692.  [now1] and [now2] are the clocks of the two
    normalisations of an addition, [now2] the clock of the other changes. *)
Definition handleReadListClick (now1 now2 : nat -> number) (click : Click) (st : State)
    : Outcome :=
  match click with
  | ToggleClick articleId title url pdfUrl authors sourceLabel =>
      if negb (nonEmpty articleId) then Returned st
      else if isInReadList articleId st then removeFromReadList now2 articleId st
      else addToReadList now1 now2
             (toggledEntry articleId title url pdfUrl authors sourceLabel) st
  | RemoveClick targetId =>
      if nonEmpty targetId then removeFromReadList now2 targetId st else Returned st
  | EditClick targetId =>
      Returned {| readList := readList st; readListEditingId := targetId |}
  | CancelClick =>
      Returned {| readList := readList st; readListEditingId := EmptyString |}
  | SaveClick targetId note =>
      if negb (nonEmpty targetId) then Returned st
      else updateReadListNote now2 targetId (JsStr note) st
  | OtherClick => Returned st
  end.

End Clicks.
End ReadListClicks.

(* ===================================================================== *)
(** ** The keyword filter of the earlier variants
       (src/unnamed/part_000, 486-493; part_001, 725-732) *)
(* ===================================================================== *)

Module EarlierVariant.
Import Derivation.

(** The keyword filter of the two earlier variants of the script: a search
    in the title and the abstract only. *)
Definition filterByKeywords (articles : list Article)
    (keywordList : option (list string)) : list Article :=
  let needles := List.filter nonEmpty (map Str.toLowerCase (default [] keywordList)) in
  match needles with
  | [] => []
  | _ :: _ =>
      List.filter
        (fun article =>
           let haystack := Str.toLowerCase (title article +:+ " " +:+ abstract article) in
           existsb (fun needle => Str.includes haystack needle) needles)
        articles
  end.

End EarlierVariant.

(* ===================================================================== *)
(** ** Saving to the storage (script.js, 1097-1145) and the handlers that
       save (212-220, 241-251) *)
(* ===================================================================== *)

Module Saving.
Import Normalize Persistence ViewState.

(** [localStorage.setItem(key, text)] inside [try { ... } catch (_) {}]:
    the store takes the entry, or the call throws and the store stays as it
    was. *)
Definition setItem (accepted : bool) (key text : string) (storage : Storage) : Storage :=
  if accepted then fun k => if String.eqb k key then Stored text else storage k
  else storage.

Section Save.
Context `{JsNumbers number}.

Local Abbreviation value := (JsValue number).
Local Abbreviation entry := (ReadListEntry number).

(** [JSON.stringify]. *)
Variable JSON_stringify : value -> string.

(** script.js, 1097-1101. *)
Definition saveDisplayMode (accepted : bool) (mode : value) (storage : Storage) : Storage :=
  setItem accepted DISPLAY_MODE_STORAGE_KEY (normalizeDisplayMode mode) storage.

(** script.js, 1112-1116; [now] is the clock during the normalisation, whose
    [TypeError] is caught like the one of [setItem]. *)
Definition saveReadList (now : nat -> number) (accepted : bool) (list : list entry)
    (storage : Storage) : Storage :=
  match normalizeReadListItems now (JsArr (map entryValue list)) with
  | Some normalized =>
      setItem accepted READ_LIST_STORAGE_KEY
        (JSON_stringify (JsArr (map entryValue normalized))) storage
  | None => storage
  end.

(** script.js, 1126-1130. *)
Definition saveSource (accepted : bool) (value : string) (storage : Storage) : Storage :=
  setItem accepted SOURCE_STORAGE_KEY value storage.

(** script.js, 1141-1145. *)
Definition savePreferences (accepted : bool) (prefs : Preferences) (storage : Storage)
    : Storage :=
  setItem accepted PREF_STORAGE_KEY (JSON_stringify (prefsValue prefs)) storage.

(** script.js, 241-251: [state.displayMode] and the store after
    [setDisplayMode(mode)]. *)
Definition setDisplayMode (accepted : bool) (mode : value) (current : string)
    (storage : Storage) : string * Storage :=
  let normalized := normalizeDisplayMode mode in
  if String.eqb normalized current then (current, storage)
  else (normalized, saveDisplayMode accepted (JsStr normalized) storage).

(** script.js, 212-220: the click handler of a source button, on
    [state.source], [state.expandedArticles] and the store. *)
Definition selectSource (accepted : bool) (payload : Payload (number := number))
    (nextSource : string) (current : string * Expanded) (storage : Storage)
    : (string * Expanded) * Storage :=
  if negb (nonEmpty nextSource) || String.eqb nextSource current.1
     || negb (hasSource payload nextSource)
  then (current, storage)
  else ((nextSource, ∅), saveSource accepted nextSource storage).

End Save.
End Saving.

(* ===================================================================== *)
(** ** The display-mode class of the page (script.js, 253-258) *)
(* ===================================================================== *)

Module DisplayClass.
Import Normalize Persistence.

(** How [applyDisplayModeClass] ends, with the classes of [document.body]
    at that time: it returns, or [classList.add] throws. *)
Inductive Outcome : Type :=
| Applied (classes : gset string)
| Raised (classes : gset string).

(** [Object.values(DISPLAY_MODE_CLASSES)]. *)
Definition modeClasses : list string := map snd DISPLAY_MODE_CLASSES.

(** script.js, 253-258.  For a key that only [Object.prototype] defines the
    lookup finds an inherited function or object; its text has a space, and
    [classList.add] throws on it, after the three classes were removed. *)
Definition applyDisplayModeClass (displayMode : string) (classList : gset string)
    : Outcome :=
  let cleared := fold_left (fun classes cls => classes ∖ {[cls]}) modeClasses classList in
  match List.find (fun kv => String.eqb kv.1 displayMode) DISPLAY_MODE_CLASSES with
  | Some (_, cls) => Applied (cleared ∪ {[cls]})
  | None =>
      if existsb (String.eqb displayMode) objectPrototypeKeys then Raised cleared
      else Applied (cleared ∪ {["display-mode-full"]})
  end.

End DisplayClass.

(* ===================================================================== *)
(** ** Sample inputs *)
(* ===================================================================== *)

Module ReadListSample.
Import ReadList.

Definition clock : nat -> IntNumbers.number := fun _ => Some 1700000000000%Z.

Definition listed : ReadListEntry IntNumbers.number :=
  {| id := "2312.0009"; title := "An older paper"; absUrl := EmptyString;
     pdfUrl := EmptyString; authors := "Ada Lovelace"; source := "cs.CV";
     note := EmptyString; addedAt := Some 1690000000000%Z |}.

Definition state : State (number := IntNumbers.number) :=
  {| readList := [listed]; readListEditingId := "2312.0009" |}.

Definition record : JsValue IntNumbers.number :=
  JsObj [("id", JsStr " 2401.0001 "); ("title", JsStr "A new paper")].

Definition normalized : ReadListEntry IntNumbers.number :=
  {| id := "2401.0001"; title := "A new paper"; absUrl := EmptyString;
     pdfUrl := EmptyString; authors := EmptyString; source := EmptyString;
     note := EmptyString; addedAt := Some 1700000000000%Z |}.

End ReadListSample.

Module SavingSample.
Import Normalize Persistence ViewState.

Local Abbreviation value := (JsValue IntNumbers.number).

(** A store without entries. *)
Definition emptyStore : Storage := fun _ => Missing.

(** A payload with two sources and no declared default. *)
Definition payload : Payload (number := IntNumbers.number) :=
  {| sources := [("cs.CV", JsObj [("label", JsStr "Vision")]); ("cs.CL", JsObj [])];
     default_source := EmptyString;
     preferences := JsUndefined |}.

Definition page : string * Expanded := ("cs.CV", {["2401.0001"]}).

Definition prefs : Preferences :=
  {| favorite_authors := ["Jitendra Malik"]; keywords := ["diffusion"; "video"] |}.

(** A table in place of [JSON.stringify] and [JSON.parse], for the two
    values of the example. *)
Definition stringify (v : value) : string :=
  match v with
  | JsArr _ => "[...]"
  | _ => "{...}"
  end.

Definition parse (raw : string) : option value :=
  if String.eqb raw "[...]" then Some (JsArr (map entryValue [ReadListSample.listed]))
  else if String.eqb raw "{...}" then Some (prefsValue prefs)
  else None.

End SavingSample.

Module GroupingSample.

(** A comparison of strings by code units. *)
Definition byCodeUnits (a b : string) : Z :=
  match String.compare a b with Lt => (-1)%Z | Eq => 0%Z | Gt => 1%Z end.

End GroupingSample.

(* ===================================================================== *)
(** * Part II: properties *)
(* ===================================================================== *)

(* ===================================================================== *)
(** ** The string helpers *)
(* ===================================================================== *)

Module StrFacts.
Import Str.

Lemma sapp_cons (c : ascii) (s t : string) : String c s +:+ t = String c (s +:+ t).
Proof. reflexivity. Qed.

Lemma sapp_nil_l (s : string) : EmptyString +:+ s = s.
Proof. reflexivity. Qed.

Lemma sapp_nil_r (s : string) : s +:+ EmptyString = s.
Proof. induction s as [|c s IH]; [reflexivity|]. rewrite sapp_cons. by f_equal. Qed.

Lemma sapp_assoc (s t u : string) : (s +:+ t) +:+ u = s +:+ (t +:+ u).
Proof.
  induction s as [|c s IH]; [reflexivity|]. rewrite !sapp_cons. by f_equal.
Qed.

Lemma is_empty_true (s : string) : is_empty s = true <-> s = EmptyString.
Proof. destruct s; simpl; split; congruence. Qed.

Lemma is_empty_false (s : string) : is_empty s = false <-> s <> EmptyString.
Proof. destruct s; simpl; split; congruence. Qed.

(** [startsWith] is the prefix relation. *)
Lemma startsWith_spec (p s : string) :
  startsWith p s = true <-> exists post, s = p +:+ post.
Proof.
  revert s. induction p as [|a p IH]; intros s; simpl.
  - split; [intros _; by exists s | done].
  - destruct s as [|b s].
    + split; [done | intros [post H]; rewrite sapp_cons in H; discriminate].
    + destruct (Ascii.eqb_spec a b) as [->|Hne].
      * rewrite IH. split; intros [post H]; exists post.
        -- rewrite sapp_cons. by f_equal.
        -- rewrite sapp_cons in H. by injection H.
      * split; [done|]. intros [post H]. rewrite sapp_cons in H.
        injection H as H1 _. congruence.
Qed.

(** [includes] is the substring relation. *)
Lemma includes_spec (s needle : string) :
  includes s needle = true <-> exists pre post, s = pre +:+ needle +:+ post.
Proof.
  induction s as [|c s IH].
  - simpl. rewrite orb_false_r, startsWith_spec. split.
    + intros [post H]. by exists EmptyString, post.
    + intros [pre [post H]]. destruct pre as [|a pre].
      * by exists post.
      * rewrite sapp_cons in H. discriminate.
  - simpl includes. rewrite orb_true_iff, startsWith_spec, IH. split.
    + intros [[post H]|[pre [post H]]].
      * by exists EmptyString, post.
      * exists (String c pre), post. rewrite sapp_cons. by f_equal.
    + intros [pre [post H]]. destruct pre as [|a pre].
      * left. by exists post.
      * right. rewrite sapp_cons in H. injection H as _ H. by exists pre, post.
Qed.

Lemma includes_empty (s : string) : includes s EmptyString = true.
Proof. destruct s; reflexivity. Qed.

Lemma toLowerCase_empty (s : string) :
  toLowerCase s = EmptyString <-> s = EmptyString.
Proof. destruct s; simpl; split; congruence. Qed.

End StrFacts.

(* ===================================================================== *)
(** ** [String] and [Number] on values *)
(* ===================================================================== *)

Module JsFacts.
Import Normalize.

Section Facts.
Context `{JsNumbers number}.

Local Abbreviation value := (JsValue number).

(** The induction on values, with the elements of an array and the
    properties of an object at hand. *)
Section Induction.
Variable P : value -> Prop.
Hypothesis P_undefined : P JsUndefined.
Hypothesis P_null : P JsNull.
Hypothesis P_bool : forall b, P (JsBool b).
Hypothesis P_num : forall n, P (JsNum n).
Hypothesis P_str : forall s, P (JsStr s).
Hypothesis P_arr : forall items, Forall P items -> P (JsArr items).
Hypothesis P_obj : forall props, Forall (fun kv => P kv.2) props -> P (JsObj props).

Fixpoint value_induction (v : value) : P v :=
  match v with
  | JsUndefined => P_undefined
  | JsNull => P_null
  | JsBool b => P_bool b
  | JsNum n => P_num n
  | JsStr s => P_str s
  | JsArr items =>
      P_arr items
        ((fix all (l : list value) : Forall P l :=
            match l with
            | [] => List.Forall_nil P
            | x :: rest => @List.Forall_cons _ P x rest (value_induction x) (all rest)
            end) items)
  | JsObj props =>
      P_obj props
        ((fix all (l : list (string * value)) : Forall (fun kv => P kv.2) l :=
            match l with
            | [] => List.Forall_nil _
            | kv :: rest => @List.Forall_cons _ (fun kv => P kv.2) kv rest (value_induction kv.2) (all rest)
            end) props)
  end.

End Induction.

(** The values on which [String] throws: an object with an own property
    [toString], and an array that holds such a value. *)
Fixpoint hidesToString (v : value) : bool :=
  match v with
  | JsObj props => hasOwnProperty props "toString"
  | JsArr items => existsb hidesToString items
  | _ => false
  end.

Lemma lookup_prop_own (key : string) (props : list (string * value)) :
  is_Some (Js.lookup_prop key props) <-> hasOwnProperty props key = true.
Proof.
  unfold hasOwnProperty. induction props as [|[k v] props IH]; simpl.
  - split; [by intros [? ?] | done].
  - destruct (String.eqb k key); simpl; [split; [done | by eexists] | exact IH].
Qed.

Lemma allSome_None (texts : list (option string)) :
  Js.allSome texts = None <-> In None texts.
Proof.
  induction texts as [|text texts IH]; simpl; [split; [done | by intros []]|].
  destruct text as [s|].
  - destruct (Js.allSome texts) as [l|].
    + split; [done|]. intros [?|Hin]; [done|]. by apply IH in Hin.
    + split; [intros _; right; by apply IH | done].
  - split; [intros _; by left | done].
Qed.

Lemma toString_throws (v : value) :
  Js.toString v = None <-> hidesToString v = true.
Proof.
  induction v as [| |[|]| | |items IH|props _] using value_induction; try done.
  - simpl. destruct (Js.allSome _) as [l|] eqn:E; simpl.
    + split; [done|]. intros Hex. exfalso.
      assert (Hin : In None (map (fun x : value =>
                       match x with
                       | JsUndefined | JsNull => Some EmptyString
                       | _ => Js.toString x
                       end) items)).
      { apply existsb_exists in Hex as [x [Hx Hh]]. apply in_map_iff. exists x.
        split; [|done]. rewrite Forall_forall in IH.
        specialize (IH x (proj2 (list_elem_of_In _ _) Hx)).
        apply IH in Hh. by destruct x. }
      apply allSome_None in Hin. congruence.
    + split; [|done]. intros _. apply allSome_None in E.
      apply in_map_iff in E as [x [Hx Hin]]. apply existsb_exists. exists x.
      split; [done|]. rewrite Forall_forall in IH.
      apply (IH x (proj2 (list_elem_of_In _ _) Hin)). by destruct x.
  - simpl. rewrite <- lookup_prop_own.
    destruct (Js.lookup_prop "toString" props); split; try done;
      try (by eexists); by intros [? ?].
Qed.

Lemma toNumber_throws (v : value) :
  Js.toNumber v = None <-> hidesToString v = true.
Proof.
  rewrite <- toString_throws.
  destruct v as [| |[|]| | | |]; try done; unfold Js.toNumber; by rewrite fmap_None.
Qed.

End Facts.
End JsFacts.

(* ===================================================================== *)
(** ** escapeHtml *)
(* ===================================================================== *)

Module EscapeFacts.
Import Str StrFacts Escape JsFacts.

Lemma replaceAll_app (c : ascii) (r s t : string) :
  replaceAll c r (s +:+ t) = replaceAll c r s +:+ replaceAll c r t.
Proof.
  induction s as [|a s IH]; [reflexivity|].
  rewrite sapp_cons. simpl. destruct (Ascii.eqb a c).
  - rewrite IH. by rewrite sapp_assoc.
  - rewrite IH. by rewrite sapp_cons.
Qed.

Lemma replaceAll_unit_ne (c a : ascii) (r : string) :
  Ascii.eqb a c = false -> replaceAll c r (String a EmptyString) = String a EmptyString.
Proof. intros E. simpl. by rewrite E. Qed.

Lemma occurs_app (c : ascii) (s t : string) :
  occurs c (s +:+ t) = occurs c s || occurs c t.
Proof.
  induction s as [|a s IH]; [reflexivity|].
  rewrite sapp_cons. simpl. rewrite IH. by rewrite orb_assoc.
Qed.

(** [occurs] is membership of the character. *)
Lemma occurs_spec (c : ascii) (s : string) :
  occurs c s = true <-> exists pre post, s = pre +:+ String c post.
Proof.
  induction s as [|a s IH]; simpl.
  - split; [done|]. intros [[|b pre] [post E]]; discriminate.
  - rewrite orb_true_iff, IH. split.
    + intros [E|[pre [post ->]]].
      * apply Ascii.eqb_eq in E as ->. by exists EmptyString, s.
      * by exists (String a pre), post.
    + intros [[|b pre] [post E]].
      * left. injection E as -> _. apply Ascii.eqb_refl.
      * right. rewrite sapp_cons in E. injection E as _ ->. by exists pre, post.
Qed.

(** The five replacements, one after the other, act on each character by
    itself. *)
Lemma replacements_by_unit (s : string) :
  replaceAll "'" "&#39;"
    (replaceAll dquote "&quot;"
      (replaceAll ">" "&gt;"
        (replaceAll "<" "&lt;"
          (replaceAll "&" "&amp;" s)))) = escapeAll s.
Proof.
  induction s as [|a s IH]; [reflexivity|].
  change (String a s) with (String a EmptyString +:+ s).
  rewrite !replaceAll_app, IH. change (escapeAll (String a EmptyString +:+ s))
    with (escapeUnit a +:+ escapeAll s).
  f_equal. unfold escapeUnit.
  destruct (Ascii.eqb a "&") eqn:E1.
  { apply Ascii.eqb_eq in E1 as ->. reflexivity. }
  rewrite (replaceAll_unit_ne "&" a) by done.
  destruct (Ascii.eqb a "<") eqn:E2.
  { apply Ascii.eqb_eq in E2 as ->. reflexivity. }
  rewrite (replaceAll_unit_ne "<" a) by done.
  destruct (Ascii.eqb a ">") eqn:E3.
  { apply Ascii.eqb_eq in E3 as ->. reflexivity. }
  rewrite (replaceAll_unit_ne ">" a) by done.
  destruct (Ascii.eqb a dquote) eqn:E4.
  { apply Ascii.eqb_eq in E4 as ->. reflexivity. }
  rewrite (replaceAll_unit_ne dquote a) by done.
  destruct (Ascii.eqb a "'") eqn:E5.
  { apply Ascii.eqb_eq in E5 as ->. reflexivity. }
  by rewrite (replaceAll_unit_ne "'" a).
Qed.

(** A character that is not itself escaped survives as it is; an escaped one
    becomes an entity, which holds none of the four delimiters. *)
Lemma escapeUnit_clean (c a : ascii) :
  In c ["<"; ">"; dquote; "'"]%char -> occurs c (escapeUnit a) = false.
Proof.
  intros Hc. unfold escapeUnit.
  destruct (Ascii.eqb a "&") eqn:E1;
    [|destruct (Ascii.eqb a "<") eqn:E2;
      [|destruct (Ascii.eqb a ">") eqn:E3;
        [|destruct (Ascii.eqb a dquote) eqn:E4;
          [|destruct (Ascii.eqb a "'") eqn:E5]]]];
    simpl in Hc; destruct Hc as [<-|[<-|[<-|[<-|[]]]]]; try reflexivity;
    simpl; rewrite orb_false_r; assumption.
Qed.

Lemma escapeAll_clean (c : ascii) (s : string) :
  In c ["<"; ">"; dquote; "'"]%char -> occurs c (escapeAll s) = false.
Proof.
  intros Hc. induction s as [|a s IH]; [reflexivity|].
  simpl. by rewrite occurs_app, escapeUnit_clean, IH.
Qed.

Lemma ampersandsOk_cons (c : ascii) (s : string) :
  ampersandsOk (String c s) =
  (if Ascii.eqb c "&" then existsb (fun e => startsWith e (String c s)) entities else true)
  && ampersandsOk s.
Proof. reflexivity. Qed.

Lemma ampersandsOk_spec (s : string) :
  ampersandsOk s = true ->
  forall pre post, s = pre +:+ String "&" post ->
    exists e rest, In e entities /\ String "&" post = e +:+ rest.
Proof.
  intros Hs pre. revert s Hs. induction pre as [|b pre IH]; intros s Hs post ->.
  - rewrite sapp_nil_l, ampersandsOk_cons, Ascii.eqb_refl in Hs.
    apply andb_true_iff in Hs as [Hs _].
    apply existsb_exists in Hs as [e [He Hp]].
    apply startsWith_spec in Hp as [rest Hp]. by exists e, rest.
  - rewrite sapp_cons, ampersandsOk_cons in Hs. apply andb_true_iff in Hs as [_ Hs].
    by apply (IH _ Hs).
Qed.

Lemma ampersandsOk_escapeAll (s : string) : ampersandsOk (escapeAll s) = true.
Proof.
  induction s as [|a s IH]; [reflexivity|].
  simpl. unfold escapeUnit.
  destruct (Ascii.eqb a "&") eqn:E1; [by rewrite !sapp_cons, sapp_nil_l; simpl; rewrite IH|].
  destruct (Ascii.eqb a "<") eqn:E2; [by rewrite !sapp_cons, sapp_nil_l; simpl; rewrite IH|].
  destruct (Ascii.eqb a ">") eqn:E3; [by rewrite !sapp_cons, sapp_nil_l; simpl; rewrite IH|].
  destruct (Ascii.eqb a dquote) eqn:E4;
    [by rewrite !sapp_cons, sapp_nil_l; simpl; rewrite IH|].
  destruct (Ascii.eqb a "'") eqn:E5; [by rewrite !sapp_cons, sapp_nil_l; simpl; rewrite IH|].
  by rewrite sapp_cons, sapp_nil_l, ampersandsOk_cons, E1, IH.
Qed.

Section Claims.
Context `{JsNumbers number}.

Lemma escapeHtml_text (v : JsValue number) :
  escapeHtml v = escapeAll <$> Js.toString (Js.or v (JsStr EmptyString)).
Proof.
  unfold escapeHtml. destruct (Js.toString (Js.or v (JsStr EmptyString))) as [text|];
    [|reflexivity].
  simpl. f_equal. apply replacements_by_unit.
Qed.

Lemma escapeHtml_falsy (v : JsValue number) :
  Js.truthy v = false -> escapeHtml v = Some EmptyString.
Proof. intros Hv. unfold escapeHtml, Js.or. by rewrite Hv. Qed.

Lemma escapeHtml_throws (v : JsValue number) :
  escapeHtml v = None <-> hidesToString v = true.
Proof.
  rewrite escapeHtml_text, fmap_None, <- toString_throws. unfold Js.or.
  destruct (Js.truthy v) eqn:E; [done|].
  destruct v as [| |[|]| | | |]; try discriminate E; done.
Qed.

(** C10, as the code has it.  [escapeHtml] throws exactly on the values on
    which [String] throws: an object with an own property [toString], and
    an array that holds such a value.  On every other value it returns a
    string with no raw less-than sign, greater-than sign, quotation mark or
    apostrophe, in which every ampersand starts one of the five entities
    [&amp;], [&lt;], [&gt;], [&quot;], [&#39;]; and a falsy input ([null],
    [undefined], the empty string, [0], [false], [NaN]) gives the empty
    string. *)
Theorem escapeHtml_safe (v : JsValue number) :
  (escapeHtml v = None <-> hidesToString v = true) /\
  (hidesToString v = false -> exists out, escapeHtml v = Some out) /\
  (forall out, escapeHtml v = Some out ->
     (forall c, In c ["<"; ">"; dquote; "'"]%char -> occurs c out = false) /\
     (forall pre post, out = pre +:+ String "&" post ->
        exists e rest, In e entities /\ String "&" post = e +:+ rest)) /\
  (Js.truthy v = false -> escapeHtml v = Some EmptyString) /\
  escapeHtml (number := number) JsNull = Some EmptyString /\
  escapeHtml (number := number) JsUndefined = Some EmptyString /\
  escapeHtml (number := number) (JsStr EmptyString) = Some EmptyString /\
  escapeHtml (JsNum zero) = Some EmptyString /\
  escapeHtml (number := number) (JsBool false) = Some EmptyString /\
  escapeHtml (JsNum nan) = Some EmptyString.
Proof.
  split; [apply escapeHtml_throws|].
  split.
  { intros Hv. destruct (escapeHtml v) as [out|] eqn:E; [by exists out|].
    apply escapeHtml_throws in E. congruence. }
  split.
  { intros out. rewrite escapeHtml_text. intros Hout.
    apply fmap_Some in Hout as (text & _ & ->). split.
    - intros c Hc. by apply escapeAll_clean.
    - apply ampersandsOk_spec, ampersandsOk_escapeAll. }
  split; [apply escapeHtml_falsy|].
  split; [reflexivity|]. split; [reflexivity|]. split; [reflexivity|].
  split; [apply escapeHtml_falsy; simpl; by rewrite zero_falsy|].
  split; [reflexivity|].
  apply escapeHtml_falsy. simpl. by rewrite nan_falsy.
Qed.

End Claims.

(** C10 as stated fails on a value with an own property [toString], as
    [JSON.parse] gives for the text of an object with that key: [String]
    throws a [TypeError] on it, and so does [escapeHtml]; the same holds of
    an array that holds such a value. *)
Lemma escapeHtml_own_toString :
  let label : JsValue IntNumbers.number := JsObj [("toString", JsNum (Some 1%Z))] in
  Js.truthy label = true /\
  escapeHtml label = None /\
  escapeHtml (JsArr [JsStr "cs.CV"; label]) = None.
Proof. repeat split. Qed.

End EscapeFacts.

(* ===================================================================== *)
(** ** Normalisation layer *)
(* ===================================================================== *)

Module NormalizeFacts.
Import Str StrFacts Normalize.

(** *** Trimming *)

Definition startsClean (s : string) : bool :=
  match s with
  | EmptyString => true
  | String c _ => negb (is_white c)
  end.

Lemma trimStart_startsClean (s : string) : startsClean (trimStart s) = true.
Proof.
  induction s as [|c s IH]; [reflexivity|].
  simpl. destruct (is_white c) eqn:E; [exact IH|]. simpl. by rewrite E.
Qed.

Lemma trimStart_fixed (s : string) : startsClean s = true -> trimStart s = s.
Proof.
  destruct s as [|c s]; [reflexivity|]. simpl. by destruct (is_white c).
Qed.

Lemma trimEnd_startsClean (s : string) :
  startsClean s = true -> startsClean (trimEnd s) = true.
Proof.
  destruct s as [|c s]; [reflexivity|]. simpl.
  destruct (is_white c) eqn:E; [discriminate|]. simpl. by rewrite E.
Qed.

Lemma trimEnd_idem (s : string) : trimEnd (trimEnd s) = trimEnd s.
Proof.
  induction s as [|c s IH]; [reflexivity|]. simpl.
  destruct (is_white c && is_empty (trimEnd s)) eqn:E; [reflexivity|].
  simpl. by rewrite IH, E.
Qed.

Lemma trim_idem (s : string) : trim (trim s) = trim s.
Proof.
  unfold trim.
  rewrite (trimStart_fixed (trimEnd (trimStart s))).
  - apply trimEnd_idem.
  - apply trimEnd_startsClean, trimStart_startsClean.
Qed.

(** *** [Array.from(new Set(...))] *)

Lemma setAddAll_elem (seen items : list string) (x : string) :
  x ∈ setAddAll seen items -> x ∈ seen \/ x ∈ items.
Proof.
  revert seen. induction items as [|y rest IH]; intros seen Hx; simpl in Hx.
  - by left.
  - apply IH in Hx as [Hx|Hx].
    + case_bool_decide; [by left|].
      apply elem_of_app in Hx as [Hx|Hx]; [by left|].
      apply list_elem_of_singleton in Hx as ->. right. by left.
    + right. by right.
Qed.

Lemma setAddAll_NoDup (seen items : list string) :
  NoDup seen -> NoDup (setAddAll seen items).
Proof.
  revert seen. induction items as [|y rest IH]; intros seen Hs; simpl; [done|].
  apply IH. case_bool_decide; [done|].
  apply NoDup_app. split; [done|]. split.
  - intros x Hx Hy. apply list_elem_of_singleton in Hy as ->. done.
  - apply NoDup_singleton.
Qed.

Lemma setAddAll_fresh (seen items : list string) :
  NoDup (seen ++ items)%list -> setAddAll seen items = (seen ++ items)%list.
Proof.
  revert seen. induction items as [|y rest IH]; intros seen Hs; simpl.
  - by rewrite app_nil_r.
  - case_bool_decide as Hy.
    + apply NoDup_app in Hs as (_ & Hd & _). exfalso. apply (Hd y Hy). by left.
    + rewrite IH; [by rewrite <- app_assoc|]. by rewrite <- app_assoc.
Qed.

Lemma arrayFromSet_NoDup (items : list string) : NoDup (arrayFromSet items).
Proof. apply setAddAll_NoDup, NoDup_nil_2. Qed.

Lemma arrayFromSet_fixed (items : list string) :
  NoDup items -> arrayFromSet items = items.
Proof. intros Hn. unfold arrayFromSet. by rewrite setAddAll_fresh. Qed.

Lemma arrayFromSet_elem (items : list string) (x : string) :
  x ∈ arrayFromSet items -> x ∈ items.
Proof.
  intros Hx. apply setAddAll_elem in Hx as [Hx|Hx]; [|done].
  by apply elem_of_nil in Hx.
Qed.

(** A list of trimmed, non-empty, pairwise different strings: the invariant
    of the two lists of the preferences. *)
Definition cleanList (l : list string) : Prop :=
  NoDup l /\ Forall (fun s => trim s = s /\ nonEmpty s = true) l.

Lemma cleaned_is_clean (l : list string) :
  cleanList (arrayFromSet (List.filter nonEmpty (map trim l))).
Proof.
  split; [apply arrayFromSet_NoDup|].
  apply Forall_forall. intros x Hx%arrayFromSet_elem.
  apply list_elem_of_In, filter_In in Hx as [Hx Hne].
  apply in_map_iff in Hx as [y [<- _]]. split; [apply trim_idem | done].
Qed.

Lemma cleanList_fixed (l : list string) :
  cleanList l -> arrayFromSet (List.filter nonEmpty (map trim l)) = l.
Proof.
  intros [Hn Hf].
  assert (E : List.filter nonEmpty (map trim l) = l).
  { clear Hn. induction Hf as [|x l [Hx Hne] _ IH]; [reflexivity|].
    simpl. rewrite Hx, Hne. by f_equal. }
  rewrite E. by apply arrayFromSet_fixed.
Qed.

End NormalizeFacts.

Module NormalizeClaims.
Import Str StrFacts Normalize NormalizeFacts Persistence JsFacts.

(** The three display modes. *)
Definition displayModes : list string := ["title"; "authors"; "full"].

Lemma hasOwnProperty_modes (n : string) :
  hasOwnProperty DISPLAY_MODE_CLASSES n = true <-> In n displayModes.
Proof.
  unfold hasOwnProperty. rewrite existsb_exists. split.
  - intros [[k v] [Hin Heq]]. apply String.eqb_eq in Heq. simpl in Heq. subst k.
    destruct Hin as [E|[E|[E|[]]]]; injection E as <- _.
    + by left.
    + right. by left.
    + right. right. by left.
  - intros [<-|[<-|[<-|[]]]].
    + exists ("title", "display-mode-title"). split; [by left | reflexivity].
    + exists ("authors", "display-mode-authors").
      split; [right; by left | reflexivity].
    + exists ("full", "display-mode-full").
      split; [right; right; by left | reflexivity].
Qed.

Section Claims.
Context `{JsNumbers number}.

(** C8.  [normalizeDisplayMode] is a total function whose result is one of
    the three modes: a value that is no string, and a string that is none of
    the modes once trimmed and lower-cased, give [full] (so does the string
    [bogus]); a string whose trimmed lower-cased form is a mode gives that
    mode. *)
Theorem normalizeDisplayMode_enumerated (v : JsValue number) :
  In (normalizeDisplayMode v) displayModes /\
  ((forall s, v <> JsStr s) -> normalizeDisplayMode v = "full") /\
  (forall s, v = JsStr s -> ~ In (toLowerCase (trim s)) displayModes ->
     normalizeDisplayMode v = "full") /\
  (forall s, v = JsStr s -> In (toLowerCase (trim s)) displayModes ->
     normalizeDisplayMode v = toLowerCase (trim s)) /\
  normalizeDisplayMode (number := number) (JsStr "bogus") = "full".
Proof.
  assert (Hfull : In "full" displayModes) by (right; right; by left).
  split; [|split; [|split; [|split]]].
  - destruct v; try exact Hfull. unfold normalizeDisplayMode.
    destruct (hasOwnProperty DISPLAY_MODE_CLASSES (toLowerCase (trim s))) eqn:E;
      [by apply hasOwnProperty_modes | exact Hfull].
  - intros Hv. destruct v; try reflexivity. exfalso. by apply (Hv s).
  - intros s -> Hn. unfold normalizeDisplayMode.
    destruct (hasOwnProperty DISPLAY_MODE_CLASSES (toLowerCase (trim s))) eqn:E;
      [|reflexivity].
    by apply hasOwnProperty_modes in E.
  - intros s -> Hi. unfold normalizeDisplayMode.
    apply hasOwnProperty_modes in Hi. by rewrite Hi.
  - reflexivity.
Qed.

(** *** Preferences *)

(** The fields on which the inner [normalizeList] returns: anything but an
    array with an element on which [String] throws. *)
Definition listReturns (v : JsValue number) : Prop :=
  match v with
  | JsArr items => Forall (fun item => hidesToString item = false) items
  | _ => True
  end.

Lemma normalizeList_clean (v : JsValue number) (l : list string) :
  normalizeList v = Some l -> cleanList l.
Proof.
  destruct v; simpl; try (intros [= <-]; split; [apply NoDup_nil_2 | apply Forall_nil_2]).
  - intros [= <-]. apply cleaned_is_clean.
  - destruct (mapM Js.toString items) as [texts|]; [|done]. simpl.
    intros [= <-]. apply cleaned_is_clean.
Qed.

Lemma normalizeList_strings (l : list string) :
  cleanList l -> normalizeList (number := number) (JsArr (map JsStr l)) = Some l.
Proof.
  intros Hl. unfold normalizeList.
  rewrite (mapM_fmap_Some Js.toString JsStr l) by done. simpl.
  by rewrite cleanList_fixed.
Qed.

Lemma normalizeList_returns (v : JsValue number) :
  is_Some (normalizeList v) <-> listReturns v.
Proof.
  destruct v; simpl; try (split; [done | by eexists]).
  split.
  - intros [l Hl]. destruct (mapM Js.toString items) as [texts|] eqn:E; [|done].
    assert (Hs : is_Some (mapM Js.toString items)) by by eexists.
    apply mapM_is_Some in Hs. eapply Forall_impl; [exact Hs|].
    intros item [text Ht]. simpl in Ht.
    destruct (hidesToString item) eqn:Eh; [|done].
    apply toString_throws in Eh. congruence.
  - intros Hall.
    assert (Hs : is_Some (mapM Js.toString items)).
    { apply mapM_is_Some. eapply Forall_impl; [exact Hall|].
      intros item Hi. simpl. destruct (Js.toString item) eqn:E; [by eexists|].
      apply toString_throws in E. congruence. }
    destruct Hs as [texts ->]. simpl. by eexists.
Qed.

Lemma normalizePreferences_defined (x : JsValue number) :
  is_Some (normalizePreferences x) <->
  x <> JsNull /\ x <> JsUndefined /\
  listReturns (Js.getProp x "favorite_authors") /\ listReturns (Js.getProp x "keywords").
Proof.
  rewrite <- !normalizeList_returns.
  assert (Hgen : x <> JsNull -> x <> JsUndefined ->
    normalizePreferences x =
      (authors ← normalizeList (Js.getProp x "favorite_authors");
       words ← normalizeList (Js.getProp x "keywords");
       Some {| favorite_authors := authors; keywords := words |})).
  { intros H1 H2. by destruct x. }
  split.
  - intros [p Hp].
    assert (H1 : x <> JsNull) by (intros ->; discriminate Hp).
    assert (H2 : x <> JsUndefined) by (intros ->; discriminate Hp).
    rewrite (Hgen H1 H2) in Hp.
    destruct (normalizeList (Js.getProp x "favorite_authors")) as [fa|]; [|done].
    destruct (normalizeList (Js.getProp x "keywords")) as [kw|]; [|done].
    repeat split; try done; by eexists.
  - intros (H1 & H2 & [fa Hfa] & [kw Hkw]). rewrite (Hgen H1 H2), Hfa, Hkw. by eexists.
Qed.

Lemma normalizePreferences_stored (p : Preferences) :
  cleanList (favorite_authors p) -> cleanList (keywords p) ->
  normalizePreferences (number := number) (prefsValue p) = Some p.
Proof.
  intros Hf Hk. destruct p as [fa kw]. unfold normalizePreferences, prefsValue.
  change (Js.getProp (JsObj ?l) "favorite_authors")
    with (JsArr (number := number) (map JsStr fa)).
  change (Js.getProp (JsObj ?l) "keywords")
    with (JsArr (number := number) (map JsStr kw)).
  simpl in Hf, Hk. by rewrite !normalizeList_strings.
Qed.

Lemma normalizePreferences_fields (v : JsValue number) (p : Preferences) :
  normalizePreferences v = Some p ->
  normalizeList (Js.getProp v "favorite_authors") = Some (favorite_authors p) /\
  normalizeList (Js.getProp v "keywords") = Some (keywords p).
Proof.
  intros Hp.
  assert (Hgen : normalizePreferences v =
      (authors ← normalizeList (Js.getProp v "favorite_authors");
       words ← normalizeList (Js.getProp v "keywords");
       Some {| favorite_authors := authors; keywords := words |})).
  { destruct v; try done; discriminate Hp. }
  rewrite Hgen in Hp.
  destruct (normalizeList (Js.getProp v "favorite_authors")) as [fa|]; [|done].
  destruct (normalizeList (Js.getProp v "keywords")) as [kw|]; [|done].
  simpl in Hp. by injection Hp as <-.
Qed.

Lemma normalizePreferences_clean (v : JsValue number) (p : Preferences) :
  normalizePreferences v = Some p ->
  cleanList (favorite_authors p) /\ cleanList (keywords p).
Proof.
  intros Hp. apply normalizePreferences_fields in Hp as [Hf Hk].
  split; eapply normalizeList_clean; eassumption.
Qed.

(** C4.  Normalising the preferences is idempotent across serialisation:
    for every input, normalising the value that the result of
    [normalizePreferences] serialises to gives that result again (the
    normalisation returns a result for every input but [null],
    [undefined] and the values with an array field on an element of which
    [String] throws; on these both sides throw); and loading a storage that
    holds the serialised result gives that result. *)
Theorem normalizePreferences_idempotent (x : JsValue number) :
  (normalizePreferences x ≫= (fun p => normalizePreferences (prefsValue p))) =
    normalizePreferences x /\
  (is_Some (normalizePreferences x) <->
     x <> JsNull /\ x <> JsUndefined /\
     listReturns (Js.getProp x "favorite_authors") /\
     listReturns (Js.getProp x "keywords")) /\
  (forall (JSON_parse : string -> option (JsValue number)) (initial p : Preferences)
          (storage : Storage) (raw : string),
     normalizePreferences x = Some p ->
     storage PREF_STORAGE_KEY = Stored raw -> raw <> EmptyString ->
     JSON_parse raw = Some (prefsValue p) ->
     loadStoredPreferences JSON_parse initial storage = Some p).
Proof.
  assert (Hfix : forall p, normalizePreferences x = Some p ->
            normalizePreferences (number := number) (prefsValue p) = Some p).
  { intros p Hp. apply normalizePreferences_clean in Hp as [Hf Hk].
    by apply normalizePreferences_stored. }
  split; [|split; [apply normalizePreferences_defined|]].
  - destruct (normalizePreferences x) as [p|] eqn:E; [|reflexivity].
    simpl. by apply Hfix.
  - intros JSON_parse initial p storage raw Hp Hs Hne Hparse.
    assert (Hn : nonEmpty raw = true) by by destruct raw.
    unfold loadStoredPreferences. by rewrite Hs, Hn, Hparse, (Hfix p Hp).
Qed.

End Claims.
End NormalizeClaims.

(* ===================================================================== *)
(** ** Read list: normalisation of the entries *)
(* ===================================================================== *)

Module ReadListNormalize.
Import Str StrFacts Normalize NormalizeFacts JsFacts.

Section Items.
Context `{JsNumbers number}.

Local Abbreviation value := (JsValue number).
Local Abbreviation entry := (ReadListEntry number).

Lemma nonEmpty_true (s : string) : nonEmpty s = true <-> s <> EmptyString.
Proof. unfold nonEmpty. destruct s; simpl; split; congruence. Qed.

Lemma nonEmpty_false (s : string) : nonEmpty s = false <-> s = EmptyString.
Proof. unfold nonEmpty. destruct s; simpl; split; congruence. Qed.

(** The usable text of a field: the empty string when the field is absent
    or falsy, and otherwise [String] of the field, trimmed ([None] when
    [String] throws). *)
Definition fieldText (field : value) : option string :=
  if Js.truthy field then trim <$> Js.toString field else Some EmptyString.

Lemma fieldText_string (s : string) : fieldText (JsStr s) = Some (trim s).
Proof. by destruct s. Qed.

Lemma fieldText_absent : fieldText JsUndefined = Some EmptyString.
Proof. reflexivity. Qed.

Lemma fieldText_throws (field : value) :
  fieldText field = None <-> hidesToString field = true.
Proof.
  unfold fieldText. rewrite <- toString_throws.
  destruct (Js.truthy field) eqn:E; [by rewrite fmap_None|].
  destruct field as [| |[|]| | | |]; try discriminate E; done.
Qed.

(** A value without properties reads every field as absent. *)
Lemma getProp_falsy (item : value) (key : string) :
  Js.truthy item = false -> Js.getProp item key = JsUndefined.
Proof. by destruct item. Qed.

(** [String(item && item.key ? item.key : '').trim()] is the usable text of
    the field [key]. *)
Lemma textField_fieldText (item : value) (key : string) :
  textField item key = fieldText (Js.getProp item key).
Proof.
  unfold textField, fieldText, Js.and. destruct (Js.truthy item) eqn:E.
  - destruct (Js.truthy (Js.getProp item key)); [|reflexivity].
    by destruct (Js.toString (Js.getProp item key)).
  - by rewrite E, (getProp_falsy _ _ E).
Qed.

(** A field the record does not have reads as the empty string. *)
Lemma textField_absent (item : value) (key : string) :
  Js.getProp item key = JsUndefined -> textField item key = Some EmptyString.
Proof. intros E. by rewrite textField_fieldText, E. Qed.

(** A record with a usable id is truthy, so the guards [item && ...] are
    transparent on it. *)
Lemma usable_field_truthy (item : value) (key s : string) :
  fieldText (Js.getProp item key) = Some s -> s <> EmptyString -> Js.truthy item = true.
Proof.
  intros Hs Hne. destruct (Js.truthy item) eqn:E; [reflexivity|].
  rewrite (getProp_falsy _ _ E) in Hs. injection Hs as <-. done.
Qed.

(** The callback, field by field. *)
Definition normalized (t : number) (item : value) : option (option entry) :=
  i ← fieldText (Js.getProp item "id");
  tt ← fieldText (Js.getProp item "title");
  if negb (nonEmpty i) then Some None
  else
    a ← fieldText (Js.or (Js.getProp item "absUrl") (Js.getProp item "url"));
    p ← fieldText (Js.getProp item "pdfUrl");
    au ← fieldText (Js.getProp item "authors");
    so ← fieldText (Js.getProp item "source");
    added ← Js.toNumber (Js.getProp item "addedAt");
    Some (Some {| id := i;
                  title := if nonEmpty tt then tt else i;
                  absUrl := a;
                  pdfUrl := p;
                  authors := au;
                  source := so;
                  note := match Js.getProp item "note" with
                          | JsStr s => s
                          | _ => EmptyString
                          end;
                  addedAt := if isFalsyNumber added then t else added |}).

Lemma normalizeReadListItem_normalized (t : number) (item : value) :
  normalizeReadListItem t item = normalized t item.
Proof.
  unfold normalizeReadListItem, normalized. rewrite !textField_fieldText.
  destruct (fieldText (Js.getProp item "id")) as [i|] eqn:Ei; [|reflexivity].
  destruct (fieldText (Js.getProp item "title")) as [tt|]; [|reflexivity].
  cbn [mbind option_bind].
  destruct (nonEmpty i) eqn:Hi; [|reflexivity].
  assert (Ht : Js.truthy item = true).
  { apply (usable_field_truthy item "id" i Ei). by apply nonEmpty_true. }
  assert (Htitle : nonEmpty (if nonEmpty tt then tt else i) = true)
    by by destruct (nonEmpty tt) eqn:E.
  rewrite Htitle. cbn [negb orb]. unfold Js.and. rewrite Ht.
  set (url := Js.or (Js.getProp item "absUrl") (Js.getProp item "url")).
  assert (Hurl : Js.toString (if Js.truthy url then url else JsStr EmptyString) ≫=
                   (fun absText => Some (trim absText)) = fieldText url).
  { unfold fieldText. destruct (Js.truthy url); [|reflexivity].
    by destruct (Js.toString url). }
  rewrite <- Hurl.
  destruct (Js.toString (if Js.truthy url then url else JsStr EmptyString)); reflexivity.
Qed.

Lemma normalizeReadListItem_dropped (t : number) (item : value) :
  normalizeReadListItem t item = Some None <->
  fieldText (Js.getProp item "id") = Some EmptyString /\
  fieldText (Js.getProp item "title") <> None.
Proof.
  rewrite normalizeReadListItem_normalized. unfold normalized.
  destruct (fieldText (Js.getProp item "id")) as [i|]; [|split; [done | by intros [? _]]].
  destruct (fieldText (Js.getProp item "title")) as [tt|];
    [|split; [done | by intros [_ ?]]].
  cbn [mbind option_bind]. destruct (nonEmpty i) eqn:Hi; cbn [negb].
  - apply nonEmpty_true in Hi. split; [|by intros [[= ?] _]].
    intros He. exfalso.
    destruct (fieldText (Js.or _ _)); [|done].
    destruct (fieldText (Js.getProp item "pdfUrl")); [|done].
    destruct (fieldText (Js.getProp item "authors")); [|done].
    destruct (fieldText (Js.getProp item "source")); [|done].
    by destruct (Js.toNumber (Js.getProp item "addedAt")).
  - apply nonEmpty_false in Hi as ->. done.
Qed.

Lemma normalizeReadListItem_kept (t : number) (item : value) (e : entry) :
  normalizeReadListItem t item = Some (Some e) ->
  Js.truthy item = true /\
  exists tt added,
    fieldText (Js.getProp item "id") = Some (id e) /\ id e <> EmptyString /\
    fieldText (Js.getProp item "title") = Some tt /\
    title e = (if nonEmpty tt then tt else id e) /\
    fieldText (Js.or (Js.getProp item "absUrl") (Js.getProp item "url")) = Some (absUrl e) /\
    fieldText (Js.getProp item "pdfUrl") = Some (pdfUrl e) /\
    fieldText (Js.getProp item "authors") = Some (authors e) /\
    fieldText (Js.getProp item "source") = Some (source e) /\
    note e = match Js.getProp item "note" with JsStr s => s | _ => EmptyString end /\
    Js.toNumber (Js.getProp item "addedAt") = Some added /\
    addedAt e = (if isFalsyNumber added then t else added).
Proof.
  rewrite normalizeReadListItem_normalized. unfold normalized.
  destruct (fieldText (Js.getProp item "id")) as [i|] eqn:Ei; [|done].
  destruct (fieldText (Js.getProp item "title")) as [tt|]; [|done].
  cbn [mbind option_bind]. destruct (nonEmpty i) eqn:Hi; cbn [negb]; [|done].
  apply nonEmpty_true in Hi.
  destruct (fieldText (Js.or _ _)) as [a|]; [|done].
  destruct (fieldText (Js.getProp item "pdfUrl")) as [p|]; [|done].
  destruct (fieldText (Js.getProp item "authors")) as [au|]; [|done].
  destruct (fieldText (Js.getProp item "source")) as [so|]; [|done].
  destruct (Js.toNumber (Js.getProp item "addedAt")) as [added|]; [|done].
  cbn [mbind option_bind]. intros [= <-]. split.
  - by apply (usable_field_truthy item "id" i Ei).
  - by exists tt, added.
Qed.

(** The callback throws exactly when [String] throws on the id or on the
    title or, the id being usable, when [String] or [Number] throws on one
    of the other fields. *)
Lemma normalizeReadListItem_throws (t : number) (item : value) :
  normalizeReadListItem t item = None <->
  hidesToString (Js.getProp item "id") = true \/
  hidesToString (Js.getProp item "title") = true \/
  (fieldText (Js.getProp item "id") <> Some EmptyString /\
   (hidesToString (Js.or (Js.getProp item "absUrl") (Js.getProp item "url")) = true \/
    hidesToString (Js.getProp item "pdfUrl") = true \/
    hidesToString (Js.getProp item "authors") = true \/
    hidesToString (Js.getProp item "source") = true \/
    hidesToString (Js.getProp item "addedAt") = true)).
Proof.
  rewrite normalizeReadListItem_normalized. unfold normalized.
  rewrite <- (toNumber_throws (Js.getProp item "addedAt")), <- !fieldText_throws.
  destruct (fieldText (Js.getProp item "id")) as [i|]; [|split; [by left | done]].
  destruct (fieldText (Js.getProp item "title")) as [tt|];
    [|split; [right; by left | done]].
  cbn [mbind option_bind]. destruct (nonEmpty i) eqn:Hi; cbn [negb].
  - apply nonEmpty_true in Hi.
    destruct (fieldText (Js.or _ _)) as [a|]; [|split; [intros _|done]; right; right;
      split; [congruence | by left]].
    destruct (fieldText (Js.getProp item "pdfUrl")) as [p|]; [|split; [intros _|done];
      right; right; split; [congruence | right; by left]].
    destruct (fieldText (Js.getProp item "authors")) as [au|]; [|split; [intros _|done];
      right; right; split; [congruence | right; right; by left]].
    destruct (fieldText (Js.getProp item "source")) as [so|]; [|split; [intros _|done];
      right; right; split; [congruence | right; right; right; by left]].
    destruct (Js.toNumber (Js.getProp item "addedAt")) as [added|];
      [|split; [intros _|done]; right; right; split; [congruence | by repeat right]].
    cbn [mbind option_bind]. split; [done|].
    intros [?|[?|[_ [?|[?|[?|[?|?]]]]]]]; done.
  - apply nonEmpty_false in Hi as ->. split; [done|].
    intros [?|[?|[? _]]]; done.
Qed.

(** The results of the callback on the elements of an array. *)
Definition visited (now : nat -> number) (items : list value) : list (option (option entry)) :=
  imap (fun i item => normalizeReadListItem (now i) item) items.

Lemma visited_cons (now : nat -> number) (item : value) (items : list value) :
  visited now (item :: items) =
  normalizeReadListItem (now 0) item :: visited (fun i => now (S i)) items.
Proof. unfold visited. by rewrite imap_cons. Qed.

Lemma normalizeReadListItems_array (now : nat -> number) (items : list value) :
  normalizeReadListItems now (JsArr items) =
  omap (fun x => x) <$> mapM (fun x => x) (visited now items).
Proof.
  unfold normalizeReadListItems, visited.
  by destruct (mapM (fun x => x) (imap _ items)).
Qed.

Lemma normalizeReadListItems_cons (now : nat -> number) (item : value) (items : list value) :
  normalizeReadListItems now (JsArr (item :: items)) =
  match normalizeReadListItem (now 0) item,
        normalizeReadListItems (fun i => now (S i)) (JsArr items) with
  | Some (Some e), Some l => Some (e :: l)
  | Some None, Some l => Some l
  | _, _ => None
  end.
Proof.
  rewrite !normalizeReadListItems_array, visited_cons. simpl.
  destruct (normalizeReadListItem (now 0) item) as [[e|]|]; simpl;
    by destruct (mapM (fun x => x) (visited (fun i => now (S i)) items)).
Qed.

(** The normalisation throws exactly when the callback throws on an
    element. *)
Lemma normalizeReadListItems_throws (now : nat -> number) (items : list value) :
  normalizeReadListItems now (JsArr items) = None <->
  exists i item, items !! i = Some item /\ normalizeReadListItem (now i) item = None.
Proof.
  revert now. induction items as [|item items IH]; intros now.
  - split; [done | by intros (i & x & Hx & _)].
  - rewrite normalizeReadListItems_cons. split.
    + destruct (normalizeReadListItem (now 0) item) as [r|] eqn:E.
      * destruct (normalizeReadListItems (fun i => now (S i)) (JsArr items)) as [l|] eqn:El.
        { by destruct r. }
        intros _. apply IH in El as (i & x & Hx & Hn). by exists (S i), x.
      * intros _. by exists 0, item.
    + intros ([|i] & x & Hx & Hn).
      * injection Hx as <-. by rewrite Hn.
      * assert (El : normalizeReadListItems (fun i => now (S i)) (JsArr items) = None).
        { apply IH. by exists i, x. }
        rewrite El. by destruct (normalizeReadListItem (now 0) item) as [[?|]|].
Qed.

(** Each entry of the result is the normal form of an element of the input,
    with the clock read while that element was visited. *)
Lemma normalizeReadListItems_elem (now : nat -> number) (items : list value)
    (l : list entry) (e : entry) :
  normalizeReadListItems now (JsArr items) = Some l ->
  e ∈ l <->
  exists i item, items !! i = Some item /\ normalizeReadListItem (now i) item = Some (Some e).
Proof.
  revert now l. induction items as [|item items IH]; intros now l.
  - intros [= <-]. split; [by intros ?%elem_of_nil | by intros (i & x & Hx & _)].
  - rewrite normalizeReadListItems_cons.
    destruct (normalizeReadListItem (now 0) item) as [r|] eqn:E; [|done].
    destruct (normalizeReadListItems (fun i => now (S i)) (JsArr items)) as [k|] eqn:Ek;
      [|by destruct r].
    specialize (IH _ k Ek).
    assert (Htail : e ∈ k <-> exists i x, (item :: items) !! S i = Some x /\
                                 normalizeReadListItem (now (S i)) x = Some (Some e))
      by exact IH.
    destruct r as [e0|]; intros [= <-].
    + rewrite elem_of_cons, Htail. split.
      * intros [->|(i & x & Hx & Hn)]; [by exists 0, item | by exists (S i), x].
      * intros ([|i] & x & Hx & Hn).
        -- injection Hx as <-. left. congruence.
        -- right. by exists i, x.
    + rewrite Htail. split.
      * intros (i & x & Hx & Hn). by exists (S i), x.
      * intros ([|i] & x & Hx & Hn).
        -- injection Hx as <-. congruence.
        -- by exists i, x.
Qed.

(** The ids of the result are the usable ids of the input, in its order. *)
Lemma normalizeReadListItems_ids (now : nat -> number) (items : list value)
    (l : list entry) :
  normalizeReadListItems now (JsArr items) = Some l ->
  exists ids, mapM (fun item => fieldText (Js.getProp item "id")) items = Some ids /\
              map id l = List.filter nonEmpty ids.
Proof.
  revert now l. induction items as [|item items IH]; intros now l.
  - intros [= <-]. by exists [].
  - rewrite normalizeReadListItems_cons.
    destruct (normalizeReadListItem (now 0) item) as [r|] eqn:E; [|done].
    destruct (normalizeReadListItems (fun i => now (S i)) (JsArr items)) as [k|] eqn:Ek;
      [|by destruct r].
    destruct (IH _ k Ek) as (ids & Hids & Hk).
    destruct r as [e0|]; intros [= <-].
    + apply normalizeReadListItem_kept in E as (_ & tt & added & Hi & Hne & _).
      exists (id e0 :: ids). split.
      * simpl. by rewrite Hi, Hids.
      * simpl. apply nonEmpty_true in Hne. rewrite Hne. simpl. by f_equal.
    + apply normalizeReadListItem_dropped in E as [Hi _].
      exists (EmptyString :: ids). split; [|done].
      simpl. by rewrite Hi, Hids.
Qed.

End Items.
End ReadListNormalize.

Module ReadListFacts.
Import Str StrFacts Normalize NormalizeFacts JsFacts ReadListNormalize ReadList.

Section Facts.
Context `{JsNumbers number}.

Local Abbreviation value := (JsValue number).
Local Abbreviation entry := (ReadListEntry number).

(** *** Normalising a normalised entry *)

Lemma trim_empty : trim EmptyString = EmptyString.
Proof. reflexivity. Qed.

Lemma normalizeReadListItem_normal (t : number) (item : value) (e : entry) :
  normalizeReadListItem t item = Some (Some e) -> normalEntry e.
Proof.
  intros He.
  apply normalizeReadListItem_kept in He
    as (_ & tt & added & Hi & Hne & Ht & Hte & Ha & Hp & Hau & Hso & _).
  assert (Hf : forall field s, fieldText field = Some s -> trim s = s).
  { intros field s. unfold fieldText. destruct (Js.truthy field).
    - intros (text & _ & ->)%fmap_Some. apply trim_idem.
    - by intros [= <-]. }
  unfold normalEntry. rewrite Hte.
  repeat split; try (eapply Hf; eassumption); try assumption.
  - destruct (nonEmpty tt); eapply Hf; eassumption.
  - destruct (nonEmpty tt) eqn:E; [by apply nonEmpty_true | done].
Qed.

Lemma normalizeReadListItems_normal (now : nat -> number) (v : value) (l : list entry) :
  normalizeReadListItems now v = Some l -> Forall normalEntry l.
Proof.
  destruct v; try (intros [= <-]; apply Forall_nil_2).
  intros Hl. apply Forall_forall. intros e He.
  apply (normalizeReadListItems_elem _ _ _ _ Hl) in He as (i & item & _ & He).
  by apply normalizeReadListItem_normal in He.
Qed.

Lemma renormalize_entry (t : number) (e : entry) :
  normalEntry e -> normalizeReadListItem t (entryValue e) = Some (Some (refresh t e)).
Proof.
  intros (Hi & Hin & Ht & Htn & Ha & Hp & Hau & Hs).
  rewrite normalizeReadListItem_normalized. unfold normalized.
  change (Js.getProp (entryValue e) "id") with (JsStr (number := number) (id e)).
  change (Js.getProp (entryValue e) "title") with (JsStr (number := number) (title e)).
  change (Js.getProp (entryValue e) "absUrl") with (JsStr (number := number) (absUrl e)).
  change (Js.getProp (entryValue e) "url") with (JsUndefined (number := number)).
  change (Js.getProp (entryValue e) "pdfUrl") with (JsStr (number := number) (pdfUrl e)).
  change (Js.getProp (entryValue e) "authors") with (JsStr (number := number) (authors e)).
  change (Js.getProp (entryValue e) "source") with (JsStr (number := number) (source e)).
  change (Js.getProp (entryValue e) "note") with (JsStr (number := number) (note e)).
  change (Js.getProp (entryValue e) "addedAt") with (JsNum (addedAt e)).
  assert (Hurl : fieldText (Js.or (JsStr (absUrl e)) JsUndefined) = Some (absUrl e)).
  { unfold Js.or. destruct (absUrl e) as [|c s] eqn:E; [reflexivity|].
    cbn [Js.truthy is_empty negb]. rewrite fieldText_string. by f_equal. }
  rewrite !fieldText_string, Hi, Ht, Hp, Hau, Hs, Hurl.
  apply nonEmpty_true in Hin, Htn. cbn [mbind option_bind]. rewrite Hin, Htn.
  reflexivity.
Qed.

Lemma renormalize_list (now : nat -> number) (l : list entry) :
  Forall normalEntry l ->
  normalizeReadListItems now (JsArr (map entryValue l)) =
  Some (imap (fun i e => refresh (now i) e) l).
Proof.
  intros Hl. revert now.
  induction Hl as [|e l He _ IH]; intros now; [reflexivity|].
  simpl map. rewrite normalizeReadListItems_cons, (renormalize_entry _ _ He), IH.
  by rewrite imap_cons.
Qed.

(** On the entries of the state the normalisation returns, whatever they
    hold: their fields are strings and a number. *)
Lemma renormalize_returns (now : nat -> number) (l : list entry) :
  is_Some (normalizeReadListItems now (JsArr (map entryValue l))).
Proof.
  destruct (normalizeReadListItems now (JsArr (map entryValue l))) eqn:E; [by eexists|].
  apply normalizeReadListItems_throws in E as (i & item & Hi & Hn). exfalso.
  apply list_lookup_fmap_Some in Hi as (e & -> & _).
  apply normalizeReadListItem_throws in Hn.
  destruct Hn as [Hn|[Hn|[_ [Hn|[Hn|[Hn|[Hn|Hn]]]]]]]; try discriminate Hn.
  revert Hn.
  change (Js.getProp (entryValue e) "absUrl") with (JsStr (number := number) (absUrl e)).
  unfold Js.or. by destruct (Js.truthy (JsStr (absUrl e))).
Qed.

Lemma refresh_same (t : number) (e : entry) : sameEntry e (refresh t e).
Proof.
  unfold sameEntry, refresh. simpl. repeat split. by intros ->.
Qed.

Lemma refresh_normal (t : number) (e : entry) : normalEntry e -> normalEntry (refresh t e).
Proof. by unfold normalEntry, refresh. Qed.

Lemma refreshed_same (now : nat -> number) (l : list entry) :
  Forall2 sameEntry l (imap (fun i e => refresh (now i) e) l).
Proof.
  revert now. induction l as [|e l IH]; intros now; [constructor|].
  rewrite imap_cons. constructor; [apply refresh_same|]. apply (IH (fun i => now (S i))).
Qed.

Lemma refreshed_ids (now : nat -> number) (l : list entry) :
  map id (imap (fun i e => refresh (now i) e) l) = map id l.
Proof.
  revert now. induction l as [|e l IH]; intros now; [reflexivity|].
  rewrite imap_cons. simpl. f_equal. apply (IH (fun i => now (S i))).
Qed.

Lemma refreshed_normal (now : nat -> number) (l : list entry) :
  Forall normalEntry l -> Forall normalEntry (imap (fun i e => refresh (now i) e) l).
Proof.
  intros Hl. revert now. induction Hl as [|e l He _ IH]; intros now; [constructor|].
  rewrite imap_cons. constructor; [by apply refresh_normal|]. apply (IH (fun i => now (S i))).
Qed.

(** [setReadList] on normal entries returns, with the entries refreshed. *)
Lemma setReadList_normal (now : nat -> number) (next : list entry) (st : State) :
  Forall normalEntry next ->
  setReadList now next st =
  Returned {| readList := imap (fun i e => refresh (now i) e) next;
              readListEditingId := readListEditingId st |}.
Proof. intros Hn. unfold setReadList. by rewrite (renormalize_list _ _ Hn). Qed.

(** [setReadList] returns on every list of entries. *)
Lemma setReadList_returns (now : nat -> number) (next : list entry) (st : State) :
  exists normalized,
    normalizeReadListItems now (JsArr (map entryValue next)) = Some normalized /\
    setReadList now next st =
    Returned {| readList := normalized; readListEditingId := readListEditingId st |}.
Proof.
  destruct (renormalize_returns now next) as [normalized Hn].
  exists normalized. split; [done|]. unfold setReadList. by rewrite Hn.
Qed.

Lemma setReadList_unique (now : nat -> number) (next : list entry) (st : State) :
  uniqueIds next -> uniqueIds (readList (stateOf (setReadList now next st))).
Proof.
  intros [Hn Hd]. rewrite (setReadList_normal _ _ _ Hn). simpl. split.
  - by apply refreshed_normal.
  - by rewrite refreshed_ids.
Qed.

End Facts.
End ReadListFacts.

Module ReadListClaims.
Import Str StrFacts Normalize NormalizeFacts JsFacts ReadListNormalize ReadList ReadListFacts.

Section Claims.
Context `{JsNumbers number}.

Local Abbreviation value := (JsValue number).
Local Abbreviation entry := (ReadListEntry number).

(** C6, as the code has it.  [normalizeReadListItems] returns the empty list
    on anything but an array.  On an array it throws when its callback
    throws on an element, and otherwise keeps, in order, the elements with a
    usable id and drops exactly the others.  The usable text of a field is
    the empty string when the field is absent or falsy and else [String] of
    the field, trimmed; [String] throws on an object with an own property
    [toString] and on an array that holds one.  The callback throws when
    [String] throws on the id or the title or, the id being usable, when
    [String] or [Number] throws on another field; it drops an element
    exactly when the usable text of its id is empty.  In a kept entry the
    id is that text; the title is the text of the title and falls back to
    the id; [absUrl] is the text of [absUrl], which first falls back to the
    [url] field of the record; [pdfUrl], [authors] and [source] are the
    texts of these fields; [note] is kept when it is a string and is empty
    otherwise; [addedAt] is [Number(item.addedAt)] unless that is [0] or
    [NaN], which covers an absent field and a numeric [0], and is then the
    clock. *)
Theorem normalizeReadListItems_contract (now : nat -> number) (v : value) :
  ((forall items, v <> JsArr items) -> normalizeReadListItems now v = Some []) /\
  (forall items, v = JsArr items ->
     (normalizeReadListItems now v = None <->
        exists i item, items !! i = Some item /\
                       normalizeReadListItem (now i) item = None) /\
     (forall l, normalizeReadListItems now v = Some l ->
        (exists ids,
           mapM (fun item => fieldText (Js.getProp item "id")) items = Some ids /\
           map id l = List.filter nonEmpty ids) /\
        (forall e, e ∈ l <->
           exists i item, items !! i = Some item /\
                          normalizeReadListItem (now i) item = Some (Some e)))) /\
  (forall s, fieldText (number := number) (JsStr s) = Some (trim s)) /\
  (forall field : value, Js.truthy field = false -> fieldText field = Some EmptyString) /\
  (forall field : value, fieldText field = None <-> hidesToString field = true) /\
  (forall t item,
     normalizeReadListItem t item = Some None <->
     fieldText (Js.getProp item "id") = Some EmptyString /\
     fieldText (Js.getProp item "title") <> None) /\
  (forall t item,
     normalizeReadListItem t item = None <->
     hidesToString (Js.getProp item "id") = true \/
     hidesToString (Js.getProp item "title") = true \/
     (fieldText (Js.getProp item "id") <> Some EmptyString /\
      (hidesToString (Js.or (Js.getProp item "absUrl") (Js.getProp item "url")) = true \/
       hidesToString (Js.getProp item "pdfUrl") = true \/
       hidesToString (Js.getProp item "authors") = true \/
       hidesToString (Js.getProp item "source") = true \/
       hidesToString (Js.getProp item "addedAt") = true))) /\
  (forall t item e, normalizeReadListItem t item = Some (Some e) ->
     fieldText (Js.getProp item "id") = Some (id e) /\
     id e <> EmptyString /\
     (forall s, Js.getProp item "id" = JsStr s -> id e = trim s) /\
     (exists tt, fieldText (Js.getProp item "title") = Some tt /\
                 title e = (if nonEmpty tt then tt else id e)) /\
     (Js.getProp item "title" = JsUndefined -> title e = id e) /\
     (exists added, Js.toNumber (Js.getProp item "addedAt") = Some added /\
                    addedAt e = (if isFalsyNumber added then t else added)) /\
     (forall n, Js.getProp item "addedAt" = JsNum n -> isFalsyNumber n = false ->
        addedAt e = n) /\
     (Js.getProp item "addedAt" = JsUndefined -> addedAt e = t) /\
     fieldText (Js.or (Js.getProp item "absUrl") (Js.getProp item "url")) =
       Some (absUrl e) /\
     (Js.getProp item "absUrl" = JsUndefined -> Js.getProp item "url" = JsUndefined ->
        absUrl e = EmptyString) /\
     fieldText (Js.getProp item "pdfUrl") = Some (pdfUrl e) /\
     fieldText (Js.getProp item "authors") = Some (authors e) /\
     fieldText (Js.getProp item "source") = Some (source e) /\
     note e = match Js.getProp item "note" with JsStr s => s | _ => EmptyString end).
Proof.
  split; [|split; [|split; [|split; [|split; [|split; [|split]]]]]].
  - intros Hv. destruct v; try reflexivity. exfalso. by apply (Hv items).
  - intros items ->. split; [apply normalizeReadListItems_throws|].
    intros l Hl. split.
    + by apply (normalizeReadListItems_ids now).
    + intros e. by apply normalizeReadListItems_elem.
  - apply fieldText_string.
  - intros field Hf. unfold fieldText. by rewrite Hf.
  - apply fieldText_throws.
  - apply normalizeReadListItem_dropped.
  - apply normalizeReadListItem_throws.
  - intros t item e He.
    apply normalizeReadListItem_kept in He
      as (_ & tt & added & Hi & Hne & Ht & Hte & Ha & Hp & Hau & Hso & Hn & Hadd & Hat).
    split; [done|]. split; [done|]. split.
    { intros s Hs. rewrite Hs, fieldText_string in Hi. by injection Hi. }
    split; [by exists tt|]. split.
    { intros Hu. rewrite Hu in Ht. injection Ht as <-. by rewrite Hte. }
    split; [by exists added|]. split.
    { intros n Hnum Hfalsy. rewrite Hnum in Hadd. injection Hadd as <-.
      by rewrite Hat, Hfalsy. }
    split.
    { intros Hu. rewrite Hu in Hadd. injection Hadd as <-. by rewrite Hat, nan_falsy. }
    split; [done|]. split.
    { intros H1 H2. rewrite H1, H2 in Ha. by injection Ha. }
    done.
Qed.

End Claims.

(** C6 as stated fails on a stored record whose [addedAt] is the number [0]
    and that has a [url] and no [absUrl]: the numeric [addedAt] is replaced
    by the clock, and [absUrl] is the [url], not the empty string.  It also
    fails on a record with a usable id whose [source] has an own property
    [toString]: the normalisation throws. *)
Lemma normalizeReadListItems_zero_addedAt :
  let item : JsValue IntNumbers.number :=
    JsObj [("id", JsStr "2401.0001"); ("url", JsStr "https://arxiv.org/abs/2401.0001");
           ("addedAt", JsNum (Some 0%Z))] in
  let odd : JsValue IntNumbers.number :=
    JsObj [("id", JsStr "2401.0002"); ("source", JsObj [("toString", JsNum (Some 1%Z))])] in
  Js.getProp item "addedAt" = JsNum (Some 0%Z) /\
  Js.getProp item "absUrl" = JsUndefined /\
  normalizeReadListItems (fun _ => Some 1700000000000%Z) (JsArr [item]) =
    Some [{| id := "2401.0001"; title := "2401.0001";
             absUrl := "https://arxiv.org/abs/2401.0001";
             pdfUrl := EmptyString; authors := EmptyString; source := EmptyString;
             note := EmptyString; addedAt := Some 1700000000000%Z |}] /\
  normalizeReadListItems (fun _ => Some 1700000000000%Z) (JsArr [item; odd]) = None.
Proof. vm_compute. repeat split. Qed.

End ReadListClaims.

(* ===================================================================== *)
(** ** Read list: the controller *)
(* ===================================================================== *)

Module ReadListInvariant.
Import Str StrFacts Normalize NormalizeFacts ReadListNormalize ReadList ReadListFacts.

Section Invariant.
Context `{JsNumbers number}.

Local Abbreviation value := (JsValue number).
Local Abbreviation entry := (ReadListEntry number).

(** The entries the filters of [addToReadList] and [removeFromReadList]
    keep. *)
Definition others (target : string) (l : list entry) : list entry :=
  List.filter (fun item => negb (sameId (id item) target)) l.

Lemma others_ids (target : string) (l : list entry) :
  Forall (fun x => id x <> target) (others target l).
Proof.
  apply Forall_forall. intros x Hx%list_elem_of_In. apply filter_In in Hx as [_ Hx].
  apply negb_true_iff, String.eqb_neq in Hx. exact Hx.
Qed.

Lemma others_normal (target : string) (l : list entry) :
  Forall normalEntry l -> Forall normalEntry (others target l).
Proof.
  rewrite !Forall_forall. intros Hl x Hx%list_elem_of_In.
  apply filter_In in Hx as [Hx _]. by apply Hl, list_elem_of_In.
Qed.

Lemma others_NoDup (target : string) (l : list entry) :
  NoDup (map id l) -> NoDup (map id (others target l)).
Proof.
  induction l as [|x l IH]; [done|]. simpl. intros Hn.
  apply NoDup_cons in Hn as [Hx Hn].
  destruct (negb (sameId (id x) target)); [|by apply IH]. simpl.
  apply NoDup_cons. split; [|by apply IH].
  intros Hin. apply Hx. apply list_elem_of_In, in_map_iff in Hin as [y [Hy Hin]].
  apply filter_In in Hin as [Hin _]. apply list_elem_of_In, in_map_iff. by exists y.
Qed.

Lemma others_unique (target : string) (l : list entry) :
  uniqueIds l -> uniqueIds (others target l).
Proof. intros [Hn Hd]. split; [by apply others_normal | by apply others_NoDup]. Qed.

(** [normalizeReadListItems([entry])]. *)
Lemma normalize_single (now : nat -> number) (e : value) :
  normalizeReadListItems now (JsArr [e]) =
  match normalizeReadListItem (now 0) e with
  | Some (Some n) => Some [n]
  | Some None => Some []
  | None => None
  end.
Proof. rewrite normalizeReadListItems_cons. by destruct (normalizeReadListItem (now 0) e) as [[?|]|]. Qed.

Lemma add_thrown (now1 now2 : nat -> number) (e : value) (st : State) :
  normalizeReadListItem (now1 0) e = None -> addToReadList now1 now2 e st = Threw st.
Proof. intros He. unfold addToReadList. by rewrite normalize_single, He. Qed.

Lemma add_rejected (now1 now2 : nat -> number) (e : value) (st : State) :
  normalizeReadListItem (now1 0) e = Some None -> addToReadList now1 now2 e st = Returned st.
Proof. intros He. unfold addToReadList. by rewrite normalize_single, He. Qed.

Lemma add_accepted (now1 now2 : nat -> number) (e : value) (n : entry) (st : State) :
  normalizeReadListItem (now1 0) e = Some (Some n) ->
  addToReadList now1 now2 e st =
  setReadList now2 (others (id n) (readList st) ++ [n])%list
    {| readList := readList st; readListEditingId := EmptyString |}.
Proof. intros He. unfold addToReadList. by rewrite normalize_single, He. Qed.

(** An accepted [add] returns, on every state. *)
Lemma add_returns (now1 now2 : nat -> number) (e : value) (n : entry) (st : State) :
  normalizeReadListItem (now1 0) e = Some (Some n) ->
  exists l,
    normalizeReadListItems now2
      (JsArr (map entryValue (others (id n) (readList st) ++ [n])%list)) = Some l /\
    addToReadList now1 now2 e st =
    Returned {| readList := l; readListEditingId := EmptyString |}.
Proof.
  intros He. rewrite (add_accepted _ _ _ _ _ He).
  apply (setReadList_returns now2 _
           {| readList := readList st; readListEditingId := EmptyString |}).
Qed.

(** An accepted [add] on a list of normal entries. *)
Lemma add_normal (now1 now2 : nat -> number) (e : value) (n : entry) (st : State) :
  Forall normalEntry (readList st) ->
  normalizeReadListItem (now1 0) e = Some (Some n) ->
  addToReadList now1 now2 e st =
  Returned {| readList := imap (fun i x => refresh (now2 i) x)
                               (others (id n) (readList st) ++ [n])%list;
              readListEditingId := EmptyString |}.
Proof.
  intros Hl He. rewrite (add_accepted _ _ _ _ _ He).
  apply (setReadList_normal now2 _
           {| readList := readList st; readListEditingId := EmptyString |}).
  apply Forall_app. split; [by apply others_normal|]. constructor; [|done].
  by apply normalizeReadListItem_normal in He.
Qed.

(** One [add] on a list of normal entries: the entries with another id
    survive in their order, and the new entry comes last. *)
Lemma add_appends (now1 now2 : nat -> number) (e : value) (n : entry) (st : State) :
  Forall normalEntry (readList st) ->
  normalizeReadListItem (now1 0) e = Some (Some n) ->
  exists rest last,
    addToReadList now1 now2 e st =
      Returned {| readList := (rest ++ [last])%list; readListEditingId := EmptyString |} /\
    sameEntry n last /\
    Forall (fun x => id x <> id n) rest /\
    Forall2 sameEntry (others (id n) (readList st)) rest.
Proof.
  intros Hl He. rewrite (add_normal _ _ _ _ _ Hl He).
  rewrite imap_app. simpl.
  eexists _, _. split; [reflexivity|]. split; [apply refresh_same|]. split.
  - pose proof (refreshed_ids now2 (others (id n) (readList st))) as Hids.
    pose proof (others_ids (id n) (readList st)) as Ho.
    apply Forall_forall. intros x Hx.
    assert (Hi : id x ∈ map id (others (id n) (readList st))).
    { rewrite <- Hids. apply list_elem_of_In, in_map, list_elem_of_In, Hx. }
    apply list_elem_of_In, in_map_iff in Hi as [y [<- Hy]].
    rewrite Forall_forall in Ho. by apply Ho, list_elem_of_In.
  - apply refreshed_same.
Qed.

Lemma add_unique (now1 now2 : nat -> number) (e : value) (st : State) :
  uniqueIds (readList st) ->
  uniqueIds (readList (stateOf (addToReadList now1 now2 e st))).
Proof.
  intros Hu. destruct (normalizeReadListItem (now1 0) e) as [[n|]|] eqn:He.
  - rewrite (add_accepted _ _ _ _ _ He).
    apply setReadList_unique.
    destruct (others_unique (id n) _ Hu) as [Hn Hd]. split.
    + apply Forall_app. split; [done|]. constructor; [|done].
      by apply normalizeReadListItem_normal in He.
    + rewrite map_app. apply NoDup_app. split; [done|]. split; [|apply NoDup_singleton].
      intros x Hx Hx'. apply list_elem_of_singleton in Hx'. subst x.
      apply list_elem_of_In, in_map_iff in Hx as [y [Hy Hin]].
      pose proof (others_ids (id n) (readList st)) as Ho. rewrite Forall_forall in Ho.
      by apply (Ho y); [apply list_elem_of_In|].
  - by rewrite add_rejected.
  - by rewrite add_thrown.
Qed.

Lemma remove_normal (now : nat -> number) (target : string) (st : State) :
  Forall normalEntry (readList st) ->
  removeFromReadList now target st =
  Returned {| readList := imap (fun i x => refresh (now i) x) (others target (readList st));
              readListEditingId :=
                if sameId (readListEditingId st) target then EmptyString
                else readListEditingId st |}.
Proof.
  intros Hl. unfold removeFromReadList. cbv zeta.
  rewrite setReadList_normal; [done | by apply others_normal].
Qed.

(** A removal returns, on every state. *)
Lemma remove_returns (now : nat -> number) (target : string) (st : State) :
  exists l,
    normalizeReadListItems now (JsArr (map entryValue (others target (readList st)))) =
      Some l /\
    removeFromReadList now target st =
    Returned {| readList := l;
                readListEditingId :=
                  if sameId (readListEditingId st) target then EmptyString
                  else readListEditingId st |}.
Proof.
  unfold removeFromReadList. cbv zeta.
  apply (setReadList_returns now (others target (readList st))
           {| readList := readList st;
              readListEditingId := if sameId (readListEditingId st) target
                                   then EmptyString else readListEditingId st |}).
Qed.

Lemma remove_unique (now : nat -> number) (target : string) (st : State) :
  uniqueIds (readList st) ->
  uniqueIds (readList (stateOf (removeFromReadList now target st))).
Proof. intros Hu. apply setReadList_unique. by apply others_unique. Qed.

Lemma withNote_ids (target text : string) (l : list entry) :
  map id (map (fun item => if negb (sameId (id item) target) then item
                           else withNote item text) l) = map id l.
Proof.
  rewrite map_map. apply map_ext. intros x. by destruct (negb (sameId (id x) target)).
Qed.

Lemma withNote_normal (target text : string) (l : list entry) :
  Forall normalEntry l ->
  Forall normalEntry (map (fun item => if negb (sameId (id item) target) then item
                                       else withNote item text) l).
Proof.
  intros Hn. apply Forall_forall. intros x Hx%list_elem_of_In.
  apply in_map_iff in Hx as [y [<- Hy]]. rewrite Forall_forall in Hn.
  specialize (Hn y (proj2 (list_elem_of_In _ _) Hy)).
  by destruct (negb (sameId (id y) target)).
Qed.

Lemma updateNote_unique (now : nat -> number) (target : string) (text : value) (st : State) :
  uniqueIds (readList st) ->
  uniqueIds (readList (stateOf (updateReadListNote now target text st))).
Proof.
  intros [Hn Hd]. unfold updateReadListNote. cbv zeta.
  destruct (negb (existsb _ (readList st))); [by split|].
  destruct (Js.toString (Js.or text (JsStr EmptyString))) as [printed|]; [|by split].
  apply setReadList_unique. split; [by apply withNote_normal | by rewrite withNote_ids].
Qed.

End Invariant.
End ReadListInvariant.

Module ReadListScenario.
Import Str StrFacts Normalize NormalizeFacts ReadListNormalize ReadList ReadListFacts.
Import ReadListInvariant Persistence.

Section Scenario.
Context `{JsNumbers number}.

Local Abbreviation value := (JsValue number).
Local Abbreviation entry := (ReadListEntry number).
Local Abbreviation State := (ReadList.State (number := number)).

(** The number of entries of [l] with the id [target]. *)
Definition countId (target : string) (l : list entry) : nat :=
  length (List.filter (fun item => sameId (id item) target) l).

Lemma countId_app (target : string) (l k : list entry) :
  countId target (l ++ k)%list = countId target l + countId target k.
Proof. unfold countId. by rewrite List.filter_app, length_app. Qed.

Lemma countId_none (target : string) (l : list entry) :
  Forall (fun x => id x <> target) l -> countId target l = 0.
Proof.
  unfold countId. induction 1 as [|x l Hx _ IH]; [reflexivity|]. simpl.
  apply String.eqb_neq in Hx. unfold sameId at 1. by rewrite Hx.
Qed.

Lemma others_all (target : string) (l : list entry) :
  Forall (fun x => id x <> target) l -> others target l = l.
Proof.
  unfold others. induction 1 as [|x l Hx _ IH]; [reflexivity|]. simpl.
  apply String.eqb_neq in Hx. unfold sameId at 1. rewrite Hx. simpl. by f_equal.
Qed.

Lemma refreshed_others (now : nat -> number) (target : string) (l : list entry) :
  Forall (fun x => id x <> target) (imap (fun i x => refresh (now i) x) (others target l)).
Proof.
  pose proof (refreshed_ids now (others target l)) as Hids.
  pose proof (others_ids target l) as Ho. rewrite Forall_forall in Ho.
  apply Forall_forall. intros x Hx.
  assert (Hi : id x ∈ map id (others target l)).
  { rewrite <- Hids. apply list_elem_of_In, in_map, list_elem_of_In, Hx. }
  apply list_elem_of_In, in_map_iff in Hi as [y [<- Hy]]. by apply Ho, list_elem_of_In.
Qed.

Lemma reachable_unique (start st : State) :
  uniqueIds (readList start) -> reachableFrom start st -> uniqueIds (readList st).
Proof.
  intros Hstart. induction 1 as [|now1 now2 e st _ IH|now target st _ IH
                                 |now target text st _ IH|st _ IH].
  - done.
  - by apply add_unique.
  - by apply remove_unique.
  - by apply updateNote_unique.
  - split; [apply Forall_nil_2 | apply NoDup_nil_2].
Qed.

Lemma loaded_normal (JSON_parse : string -> option value) (now : nat -> number)
    (storage : Storage) :
  Forall normalEntry (loadStoredReadList JSON_parse now storage).
Proof.
  unfold loadStoredReadList.
  destruct (storage READ_LIST_STORAGE_KEY) as [| |raw]; try apply Forall_nil_2.
  destruct (nonEmpty raw); [|apply Forall_nil_2].
  destruct (JSON_parse raw) as [parsed|]; [|apply Forall_nil_2].
  destruct (normalizeReadListItems now parsed) as [l|] eqn:E; [|apply Forall_nil_2].
  by apply normalizeReadListItems_normal in E.
Qed.

(** C5, as the code has it.  No operation of the controller ([add],
    [remove], [set-note], [clear]) puts two entries with one id into a read
    list that has none, so that a page whose list starts without
    duplicates never holds any; the list loaded at the start has normal
    entries, and has no duplicates exactly when its ids are pairwise
    different, which the loading does not ensure.  And for every read list
    and entries [e], [e'] with the same usable id, [add(e)], [remove(id)],
    [add(e')] return, as do [add(e)], [add(e')], and leave exactly one
    entry with that id: it carries the fields of [e'] (as normalised) and
    stands last, after the surviving entries. *)
Theorem readList_last_write_wins
    (now1 now2 now3 now4 now5 : nat -> number) (st : State)
    (e e' : value) (n n' : entry) :
  normalizeReadListItem (now1 0) e = Some (Some n) ->
  normalizeReadListItem (now4 0) e' = Some (Some n') ->
  id n' = id n ->
  (forall now now' x target text s,
     uniqueIds (readList s) ->
     uniqueIds (readList (stateOf (addToReadList now now' x s))) /\
     uniqueIds (readList (stateOf (removeFromReadList now target s))) /\
     uniqueIds (readList (stateOf (updateReadListNote now target text s))) /\
     uniqueIds (readList (clearReadList s))) /\
  (forall start s, uniqueIds (readList start) -> reachableFrom start s ->
     uniqueIds (readList s)) /\
  (forall JSON_parse now storage,
     Forall normalEntry (loadStoredReadList JSON_parse now storage) /\
     (uniqueIds (loadStoredReadList JSON_parse now storage) <->
      NoDup (map id (loadStoredReadList JSON_parse now storage))) /\
     (unreadable storage READ_LIST_STORAGE_KEY ->
      uniqueIds (loadStoredReadList JSON_parse now storage))) /\
  (exists added before after,
     addToReadList now1 now2 e st = Returned added /\
     removeFromReadList now3 (id n) added = Returned before /\
     addToReadList now4 now5 e' before = Returned after /\
     countId (id n) (readList after) = 1 /\
     exists rest last,
       readList after = (rest ++ [last])%list /\ sameEntry n' last /\
       Forall (fun x => id x <> id n) rest /\
       Forall2 sameEntry (readList before) rest) /\
  (exists before after,
     addToReadList now1 now2 e st = Returned before /\
     addToReadList now4 now5 e' before = Returned after /\
     countId (id n) (readList after) = 1 /\
     exists rest last,
       readList after = (rest ++ [last])%list /\ sameEntry n' last /\
       Forall (fun x => id x <> id n) rest /\
       Forall2 sameEntry (others (id n) (readList before)) rest).
Proof.
  intros He He' Hid.
  assert (Hcount : forall (rest : list entry) (last : entry),
    sameEntry n' last ->
    Forall (fun x => id x <> id n) rest -> countId (id n) (rest ++ [last])%list = 1).
  { intros rest last (Hl & _) Hrest.
    rewrite countId_app, (countId_none _ _ Hrest). unfold countId. simpl.
    rewrite Hl, Hid. unfold sameId. by rewrite String.eqb_refl. }
  destruct (add_returns now1 now2 e n st He) as (l1 & Hl1 & Hadd).
  apply normalizeReadListItems_normal in Hl1.
  split; [|split; [|split; [|split]]].
  - intros now now' x target text s Hs. split; [by apply add_unique|].
    split; [by apply remove_unique|]. split; [by apply updateNote_unique|].
    split; [apply Forall_nil_2 | apply NoDup_nil_2].
  - apply reachable_unique.
  - intros JSON_parse now storage.
    pose proof (loaded_normal JSON_parse now storage) as Hn.
    split; [exact Hn|]. split; [split; [by intros [_ ?] | by split]|].
    unfold loadStoredReadList.
    intros [->|[->| ->]]; (split; [apply Forall_nil_2 | apply NoDup_nil_2]).
  - set (added := {| readList := l1; readListEditingId := EmptyString |}) in *.
    assert (Hrem : exists before,
      removeFromReadList now3 (id n) added = Returned before /\
      readList before = imap (fun i x => refresh (now3 i) x) (others (id n) l1)).
    { eexists. split; [apply (remove_normal now3 (id n) added Hl1) | reflexivity]. }
    destruct Hrem as (before & Hrem & Hbl).
    assert (Hb : Forall normalEntry (readList before))
      by (rewrite Hbl; apply refreshed_normal; by apply others_normal).
    destruct (add_appends now4 now5 e' n' before Hb He')
      as (rest & last & Hr & Hs & Hf & Ho).
    eexists added, before, _. split; [exact Hadd|]. split; [exact Hrem|].
    split; [exact Hr|].
    rewrite Hid in Hf, Ho. split; [by apply Hcount|].
    exists rest, last. split; [done|]. split; [done|]. split; [done|].
    rewrite others_all in Ho; [done|]. rewrite Hbl. apply refreshed_others.
  - destruct (add_appends now4 now5 e' n'
                {| readList := l1; readListEditingId := EmptyString |} Hl1 He')
      as (rest & last & Hr & Hs & Hf & Ho).
    eexists _, _. split; [exact Hadd|]. split; [exact Hr|].
    rewrite Hid in Hf, Ho. split; [by apply Hcount|]. by exists rest, last.
Qed.

End Scenario.

(** The scenario of the specification: the paper [2401.0001] is added twice,
    with the notes [first] and [second], to a list that holds another paper. *)
Lemma readList_last_write_wins_twice :
  let now : nat -> IntNumbers.number := fun _ => Some 1700000000000%Z in
  let st : State (number := IntNumbers.number) :=
    {| readList := [{| id := "2312.0009"; title := "An older paper";
                       absUrl := EmptyString; pdfUrl := EmptyString;
                       authors := EmptyString; source := "cs.CV";
                       note := EmptyString; addedAt := Some 1690000000000%Z |}];
       readListEditingId := EmptyString |} in
  let e := JsObj [("id", JsStr "2401.0001"); ("note", JsStr "first")] in
  let e' := JsObj [("id", JsStr "2401.0001"); ("note", JsStr "second")] in
  exists before after,
    addToReadList now now e st = Returned before /\
    addToReadList now now e' before = Returned after /\
    countId "2401.0001" (readList after) = 1 /\
    exists rest last,
      readList after = (rest ++ [last])%list /\ note last = "second" /\
      Forall (fun x => id x <> "2401.0001") rest.
Proof.
  intros now st e e'.
  pose (n := {| id := "2401.0001"; title := "2401.0001"; absUrl := EmptyString;
                pdfUrl := EmptyString; authors := EmptyString; source := EmptyString;
                note := "first"; addedAt := Some 1700000000000%Z |}
             : ReadListEntry IntNumbers.number).
  pose (n' := {| id := "2401.0001"; title := "2401.0001"; absUrl := EmptyString;
                 pdfUrl := EmptyString; authors := EmptyString; source := EmptyString;
                 note := "second"; addedAt := Some 1700000000000%Z |}
              : ReadListEntry IntNumbers.number).
  assert (He : normalizeReadListItem (now 0) e = Some (Some n)) by (vm_compute; reflexivity).
  assert (He' : normalizeReadListItem (now 0) e' = Some (Some n'))
    by (vm_compute; reflexivity).
  destruct (readList_last_write_wins now now now now now st e e' n n' He He' eq_refl)
    as (_ & _ & _ & _ & before & after & H1 & H2 & Hc & rest & last & Hr & Hs & Hf & _).
  exists before, after. split; [exact H1|]. split; [exact H2|]. split; [exact Hc|].
  exists rest, last. split; [exact Hr|].
  split; [|exact Hf]. destruct Hs as (_ & _ & _ & _ & _ & _ & Hn & _). exact Hn.
Defined.

(** C5 as stated fails at the start of the page: the read list is what
    [loadStoredReadList] makes of the stored list, which may name one paper
    twice, and both entries are kept; they are still there after another
    paper is added.  ([parse] is [JSON.parse] on the one text used, an array
    of two records with the same id.) *)
Lemma readList_stored_duplicates :
  let now : nat -> IntNumbers.number := fun _ => Some 1700000000000%Z in
  let parse : string -> option (JsValue IntNumbers.number) := fun raw =>
    if String.eqb raw "stored"
    then Some (JsArr [JsObj [("id", JsStr "2401.0001"); ("note", JsStr "first")];
                      JsObj [("id", JsStr "2401.0001"); ("note", JsStr "second")]])
    else None in
  let storage : Storage := fun key =>
    if String.eqb key READ_LIST_STORAGE_KEY then Stored "stored" else Missing in
  let start : State (number := IntNumbers.number) :=
    {| readList := loadStoredReadList parse now storage;
       readListEditingId := EmptyString |} in
  map id (readList start) = ["2401.0001"; "2401.0001"] /\
  countId "2401.0001" (readList start) = 2 /\
  map id (readList (stateOf (addToReadList now now (JsObj [("id", JsStr "2402.0002")])
                               start))) =
    ["2401.0001"; "2401.0001"; "2402.0002"].
Proof. vm_compute. repeat split. Qed.

End ReadListScenario.

(* ===================================================================== *)
(** ** The two filters *)
(* ===================================================================== *)

Module DerivationFacts.
Import Str StrFacts Derivation.

Lemma nonEmpty_iff (s : string) : nonEmpty s = true <-> s <> EmptyString.
Proof. unfold nonEmpty. destruct s; simpl; split; congruence. Qed.

(** The lower-cased entries that are not empty. *)
Lemma needles_spec (l : list string) (x : string) :
  In x (List.filter nonEmpty (map toLowerCase l)) <->
  exists k, In k l /\ toLowerCase k = x /\ toLowerCase k <> EmptyString.
Proof.
  rewrite filter_In, in_map_iff, nonEmpty_iff. split.
  - intros [[k [<- Hk]] Hne]. by exists k.
  - intros [k (Hk & <- & Hne)]. split; [by exists k | done].
Qed.

Lemma filter_sublist {A : Type} (p : A -> bool) (l : list A) :
  sublist (List.filter p l) l.
Proof.
  induction l as [|x l IH]; [constructor|]. simpl.
  destruct (p x); by constructor.
Qed.

Lemma arrayIncludes_spec (items : list string) (x : string) :
  arrayIncludes items x = true <-> In x items.
Proof.
  unfold arrayIncludes. rewrite existsb_exists. split.
  - intros [y [Hy E]]. apply String.eqb_eq in E. by subst.
  - intros Hx. exists x. split; [done | apply String.eqb_refl].
Qed.

(** The predicate of the favourite-author filter. *)
Definition hasFavoriteAuthor (F : list string) (a : Article) : Prop :=
  exists author fav,
    In author (authors a) /\ In fav F /\ toLowerCase fav <> EmptyString /\
    exists pre post, toLowerCase author = pre +:+ toLowerCase fav +:+ post.

(** C1, as the code has it.  [filterByFavoriteAuthors(A, F)] is empty when
    [F] is empty or absent, is a sublist of [A], and returns an article of
    [A] if and only if the lower-cased name of one of its authors contains,
    as a substring, the lower-cased form of an entry of [F] that is not the
    empty string. *)
Theorem filterByFavoriteAuthors_spec (A : list Article) (F : list string) :
  filterByFavoriteAuthors A (Some []) = [] /\
  filterByFavoriteAuthors A None = [] /\
  sublist (filterByFavoriteAuthors A (Some F)) A /\
  (forall a, In a (filterByFavoriteAuthors A (Some F)) <-> In a A /\ hasFavoriteAuthor F a).
Proof.
  split; [reflexivity|]. split; [reflexivity|].
  unfold filterByFavoriteAuthors. simpl default.
  pose proof (needles_spec F) as Hn.
  destruct (List.filter nonEmpty (map toLowerCase F)) as [|f0 favs] eqn:E.
  - split; [apply sublist_nil_l|]. intros a. split; [done|].
    intros [_ (author & fav & _ & Hfav & Hne & _)].
    apply (Hn (toLowerCase fav)). by exists fav.
  - split; [apply filter_sublist|]. intros a. rewrite filter_In.
    apply and_iff_compat_l. cbv zeta. rewrite existsb_exists. split.
    + intros [fav [Hfav Hex]]. apply existsb_exists in Hex as [lowered [Hl Hinc]].
      apply in_map_iff in Hl as [author [<- Hauthor]].
      apply Hn in Hfav as [k (Hk & <- & Hne)].
      apply includes_spec in Hinc. by exists author, k.
    + intros (author & fav & Hauthor & Hfav & Hne & Hsub).
      exists (toLowerCase fav). split; [apply Hn; by exists fav|].
      apply existsb_exists. exists (toLowerCase author).
      split; [by apply in_map | by apply includes_spec].
Qed.

(** C1 as stated fails on a favourite list that holds the empty string: the
    empty string is contained in every name, and the filter returns
    nothing. *)
Lemma filterByFavoriteAuthors_empty_entry :
  let a := {| arxiv_id := "2401.0001"; title := "Shape from shading";
              authors := ["Jitendra Malik"]; abstract := EmptyString;
              keywords := None; section_type := None; primary_subject := None |} in
  let F := [EmptyString] in
  (exists author fav, In author (authors a) /\ In fav F /\
     includes (toLowerCase author) (toLowerCase fav) = true) /\
  filterByFavoriteAuthors [a] (Some F) = [].
Proof.
  split; [|reflexivity].
  exists "Jitendra Malik", EmptyString. repeat split; by left.
Qed.

End DerivationFacts.

Module KeywordFacts.
Import Str StrFacts Derivation DerivationFacts.

(** The text the fallback searches: title, one space, abstract,
    lower-cased. *)
Definition fallbackText (a : Article) : string :=
  toLowerCase (title a +:+ " " +:+ abstract a).

(** An article carries explicit tags when [keywords] is a non-empty array. *)
Definition explicitTags (a : Article) : list string :=
  match keywords a with
  | Some tags => tags
  | None => []
  end.

(** The predicate of the keyword filter. *)
Definition matchesKeyword (K : list string) (a : Article) : Prop :=
  exists k, In k K /\ toLowerCase k <> EmptyString /\
    match explicitTags a with
    | _ :: _ => In (toLowerCase k) (map toLowerCase (explicitTags a))
    | [] => exists pre post, fallbackText a = pre +:+ toLowerCase k +:+ post
    end.

(** C2, as the code has it.  [filterByKeywords(A, K)] is empty when [K] is
    empty or absent.  An article of [A] with a non-empty list of keyword
    tags is returned if and only if the lower-cased form of an entry of [K],
    not the empty string, is a member of its lower-cased tags; an article
    without tags, if and only if such a form is a substring of the
    lower-cased text made of its title, one space and its abstract. *)
Theorem filterByKeywords_spec (A : list Article) (K : list string) :
  filterByKeywords A (Some []) = [] /\
  filterByKeywords A None = [] /\
  sublist (filterByKeywords A (Some K)) A /\
  (forall a, In a (filterByKeywords A (Some K)) <-> In a A /\ matchesKeyword K a).
Proof.
  split; [reflexivity|]. split; [reflexivity|].
  unfold filterByKeywords. simpl default.
  pose proof (needles_spec K) as Hn.
  destruct (List.filter nonEmpty (map toLowerCase K)) as [|k0 needles] eqn:E.
  - split; [apply sublist_nil_l|]. intros a. split; [done|].
    intros [_ (k & Hk & Hne & _)]. apply (Hn (toLowerCase k)). by exists k.
  - split; [apply filter_sublist|]. intros a. rewrite filter_In.
    apply and_iff_compat_l. cbv zeta. unfold matchesKeyword, explicitTags, fallbackText.
    destruct (keywords a) as [[|t tags]|]; simpl map; cbv iota;
      rewrite existsb_exists; split.
    + intros [needle [Hneedle Hinc]]. apply Hn in Hneedle as [k (Hk & <- & Hne)].
      apply includes_spec in Hinc. by exists k.
    + intros (k & Hk & Hne & Hsub). exists (toLowerCase k).
      split; [apply Hn; by exists k | by apply includes_spec].
    + intros [needle [Hneedle Hinc]]. apply Hn in Hneedle as [k (Hk & <- & Hne)].
      apply arrayIncludes_spec in Hinc. by exists k.
    + intros (k & Hk & Hne & Hin). exists (toLowerCase k).
      split; [apply Hn; by exists k | by apply arrayIncludes_spec].
    + intros [needle [Hneedle Hinc]]. apply Hn in Hneedle as [k (Hk & <- & Hne)].
      apply includes_spec in Hinc. by exists k.
    + intros (k & Hk & Hne & Hsub). exists (toLowerCase k).
      split; [apply Hn; by exists k | by apply includes_spec].
Qed.

(** C2 as stated fails in two ways.  The fallback text has a space between
    title and abstract, so a keyword that straddles the two in their plain
    concatenation is not found; and an empty entry of the keyword list,
    which is a member of a tag list holding the empty string, matches
    nothing. *)
Lemma filterByKeywords_separator_and_empty_entry :
  let a := {| arxiv_id := "2401.0002"; title := "Latent Diffu"; authors := [];
              abstract := "sion models"; keywords := None;
              section_type := None; primary_subject := None |} in
  let b := {| arxiv_id := "2401.0003"; title := "Untitled"; authors := [];
              abstract := EmptyString; keywords := Some [EmptyString];
              section_type := None; primary_subject := None |} in
  (keywords a = None /\
   includes (toLowerCase (title a +:+ abstract a)) (toLowerCase "diffusion") = true /\
   filterByKeywords [a] (Some ["diffusion"]) = []) /\
  (keywords b = Some [EmptyString] /\
   In (toLowerCase EmptyString) (map toLowerCase [EmptyString]) /\
   filterByKeywords [b] (Some [EmptyString]) = []).
Proof.
  repeat split; try reflexivity. by left.
Qed.

End KeywordFacts.

(* ===================================================================== *)
(** ** Grouping *)
(* ===================================================================== *)

Module JsMapFacts.
Section Facts.
Context {V : Type}.
Implicit Types (m : JsMap.t V) (k : string) (v : V).

Lemma get_app_hit k v m1 m2 :
  JsMap.get k m1 = None -> JsMap.get k (m1 ++ (k, v) :: m2)%list = Some v.
Proof.
  induction m1 as [|[k' v'] m1 IH]; simpl.
  - by rewrite String.eqb_refl.
  - destruct (String.eqb k' k); [discriminate | exact IH].
Qed.

Lemma set_app_hit k v old m1 m2 :
  JsMap.get k m1 = None ->
  JsMap.set k v (m1 ++ (k, old) :: m2)%list = (m1 ++ (k, v) :: m2)%list.
Proof.
  induction m1 as [|[k' v'] m1 IH]; simpl.
  - by rewrite String.eqb_refl.
  - destruct (String.eqb k' k); [discriminate|]. intros Hm. by rewrite IH.
Qed.

Lemma set_absent k v m :
  JsMap.get k m = None -> JsMap.set k v m = (m ++ [(k, v)])%list.
Proof.
  induction m as [|[k' v'] m IH]; simpl; [done|].
  destruct (String.eqb k' k); [discriminate|]. intros Hm. by rewrite IH.
Qed.

Lemma get_split k v m :
  JsMap.get k m = Some v ->
  exists m1 m2, m = (m1 ++ (k, v) :: m2)%list /\ JsMap.get k m1 = None.
Proof.
  induction m as [|[k' v'] m IH]; simpl; [done|].
  destruct (String.eqb_spec k' k) as [->|Hne].
  - intros [= ->]. by exists [], m.
  - intros Hm. destruct (IH Hm) as (m1 & m2 & -> & Hn).
    exists ((k', v') :: m1), m2. split; [done|]. simpl.
    apply String.eqb_neq in Hne. by rewrite Hne.
Qed.

(** What the script does with a key: create its entry if it has none, then
    replace the entry by a function of it. *)
Definition upsert k (init : V) (f : V -> V) m : JsMap.t V :=
  let m1 := if JsMap.has k m then m else JsMap.set k init m in
  JsMap.set k (f (default init (JsMap.get k m1))) m1.

Lemma upsert_spec k init f m :
  (JsMap.get k m = None /\ upsert k init f m = (m ++ [(k, f init)])%list) \/
  (exists m1 old m2, m = (m1 ++ (k, old) :: m2)%list /\ JsMap.get k m1 = None /\
     upsert k init f m = (m1 ++ (k, f old) :: m2)%list).
Proof.
  unfold upsert, JsMap.has. destruct (JsMap.get k m) as [old|] eqn:E.
  - right. destruct (get_split _ _ _ E) as (m1 & m2 & -> & Hn).
    exists m1, old, m2. split; [done|]. split; [done|].
    cbv zeta. rewrite (get_app_hit _ _ _ _ Hn). simpl. by apply set_app_hit.
  - left. split; [done|]. cbv zeta. rewrite (set_absent _ _ _ E).
    rewrite (get_app_hit _ _ _ _ E). simpl. by apply set_app_hit.
Qed.

Lemma upsert_Forall (P : string * V -> Prop) k init f m :
  Forall P m -> P (k, f init) -> (forall old, P (k, old) -> P (k, f old)) ->
  Forall P (upsert k init f m).
Proof.
  intros Hm Hi Hf.
  destruct (upsert_spec k init f m) as [[_ ->]|(m1 & old & m2 & -> & _ & ->)].
  - apply Forall_app. split; [done|]. by constructor.
  - apply Forall_app in Hm as [H1 H2]. apply Forall_cons in H2 as [Ho H2].
    apply Forall_app. split; [done|]. constructor; [by apply Hf | done].
Qed.

Lemma upsert_concat {X : Type} (g : V -> list X) (extra : list X) k init f m :
  g init = [] -> (forall old, g (f old) ≡ₚ (g old ++ extra)%list) ->
  concat (map (fun kv => g kv.2) (upsert k init f m)) ≡ₚ
  (concat (map (fun kv => g kv.2) m) ++ extra)%list.
Proof.
  intros Hi Hf.
  destruct (upsert_spec k init f m) as [[_ ->]|(m1 & old & m2 & -> & _ & ->)].
  - rewrite map_app, concat_app. apply Permutation_app_head. simpl.
    rewrite app_nil_r, (Hf init), Hi. done.
  - rewrite !map_app, !concat_app. simpl. rewrite <- !app_assoc.
    apply Permutation_app_head. rewrite (Hf old), <- app_assoc.
    apply Permutation_app_head, Permutation_app_comm.
Qed.

End Facts.
End JsMapFacts.

Module GroupingFacts.
Import Derivation Grouping JsMapFacts.

(** The articles of a section's buckets, and of all buckets. *)
Definition bucketItems (subjectMap : JsMap.t (list Article)) : list Article :=
  concat (map (fun kb => kb.2) subjectMap).

Definition allItems (sections : Buckets) : list Article :=
  concat (map (fun kv => bucketItems kv.2) sections).

(** Every article sits in the bucket of its own section and subject. *)
Definition keyed (sections : Buckets) : Prop :=
  Forall (fun kv : string * JsMap.t (list Article) =>
    Forall (fun kb : string * list Article =>
      Forall (fun a => sectionKeyOf a = kv.1 /\ subjectKeyOf a = kb.1) kb.2) kv.2)
    sections.

Lemma addArticle_upsert (sections : Buckets) (a : Article) :
  addArticle sections a =
  upsert (sectionKeyOf a) []
    (upsert (subjectKeyOf a) [] (fun bucket => (bucket ++ [a])%list)) sections.
Proof. reflexivity. Qed.

Lemma addArticle_items (sections : Buckets) (a : Article) :
  allItems (addArticle sections a) ≡ₚ (allItems sections ++ [a])%list.
Proof.
  rewrite addArticle_upsert. unfold allItems.
  apply (upsert_concat bucketItems [a]); [reflexivity|].
  intros old. unfold bucketItems.
  apply (upsert_concat (fun b : list Article => b) [a]); [reflexivity|done].
Qed.

Lemma addArticle_keyed (sections : Buckets) (a : Article) :
  keyed sections -> keyed (addArticle sections a).
Proof.
  intros Hk. rewrite addArticle_upsert. unfold keyed.
  assert (Hin : forall old : JsMap.t (list Article),
    Forall (fun kb : string * list Article =>
      Forall (fun x => sectionKeyOf x = sectionKeyOf a /\ subjectKeyOf x = kb.1) kb.2) old ->
    Forall (fun kb : string * list Article =>
      Forall (fun x => sectionKeyOf x = sectionKeyOf a /\ subjectKeyOf x = kb.1) kb.2)
      (upsert (subjectKeyOf a) [] (fun bucket => (bucket ++ [a])%list) old)).
  { intros old Ho. apply upsert_Forall; [done| |].
    - by repeat constructor.
    - intros b Hb. apply Forall_app. split; [done|]. by repeat constructor. }
  apply upsert_Forall; [done| |].
  - simpl. apply Hin. constructor.
  - intros old Ho. simpl in *. by apply Hin.
Qed.

Lemma fold_items (A : list Article) (sections : Buckets) :
  allItems (fold_left addArticle A sections) ≡ₚ (allItems sections ++ A)%list.
Proof.
  revert sections. induction A as [|a A IH]; intros sections; simpl.
  - by rewrite app_nil_r.
  - rewrite IH, addArticle_items, <- app_assoc. done.
Qed.

Lemma fold_keyed (A : list Article) (sections : Buckets) :
  keyed sections -> keyed (fold_left addArticle A sections).
Proof.
  revert sections. induction A as [|a A IH]; intros sections Hk; simpl; [done|].
  by apply IH, addArticle_keyed.
Qed.

(** *** Sorting *)

Lemma insertSorted_perm {X : Type} (compare : X -> X -> Z) (x : X) (l : list X) :
  insertSorted compare x l ≡ₚ x :: l.
Proof.
  induction l as [|y l IH]; simpl; [done|].
  destruct (compare x y <=? 0)%Z; [done|]. rewrite IH. apply Permutation_swap.
Qed.

Lemma sort_perm {X : Type} (compare : X -> X -> Z) (l : list X) :
  sort compare l ≡ₚ l.
Proof.
  induction l as [|x l IH]; simpl; [done|].
  rewrite insertSorted_perm. by constructor.
Qed.

Lemma concat_map_pointwise {X Y : Type} (f g : X -> list Y) (l : list X) :
  (forall x, f x ≡ₚ g x) -> concat (map f l) ≡ₚ concat (map g l).
Proof.
  intros Hfg. induction l as [|z l IH]; simpl; [done|]. by rewrite (Hfg z), IH.
Qed.

Lemma concat_map_reorder {X Y : Type} (f : X -> list Y) (l l' : list X) :
  l ≡ₚ l' -> concat (map f l) ≡ₚ concat (map f l').
Proof.
  induction 1 as [|x l l' _ IH|x y l|l l' l'' _ IH1 _ IH2]; simpl.
  - done.
  - by rewrite IH.
  - rewrite !app_assoc. apply Permutation_app_tail, Permutation_app_comm.
  - by rewrite IH1.
Qed.

Lemma concat_map_perm {X Y : Type} (f g : X -> list Y) (l l' : list X) :
  l ≡ₚ l' -> (forall x, f x ≡ₚ g x) -> concat (map f l) ≡ₚ concat (map g l').
Proof.
  intros Hl Hfg. rewrite (concat_map_reorder f l l' Hl).
  by apply concat_map_pointwise.
Qed.

Lemma sum_lengths (subjects : list SubjectGroup) (start : nat) :
  fold_left (fun sum entry => sum + length (items entry)) subjects start =
  start + list_sum (map (fun s => length (items s)) subjects).
Proof.
  revert start. induction subjects as [|s l IH]; intros start; simpl; [lia|].
  rewrite IH. lia.
Qed.

Lemma length_concat_sum {X Y : Type} (f : X -> list Y) (l : list X) :
  length (concat (map f l)) = list_sum (map (fun x => length (f x)) l).
Proof.
  induction l as [|x l IH]; simpl; [done|]. by rewrite length_app, IH.
Qed.

End GroupingFacts.

Module GroupingClaims.
Import Derivation Grouping JsMapFacts GroupingFacts.

Section Claims.
Variable localeCompare : string -> string -> Z.

(** The articles of a section of the result. *)
Definition sectionItems (g : SectionGroup) : list Article :=
  concat (map items (subjects g)).

Lemma subjects_items (sectionId : string) (subjectMap : JsMap.t (list Article)) :
  concat (map items
    (map (fun '(subjectName, bucket) =>
            {| subjectId := sectionId +:+ "-" +:+ slugify subjectName "subject";
               subjectLabel := subjectName;
               items := bucket |})
         (sort (byKey localeCompare) subjectMap))) ≡ₚ bucketItems subjectMap.
Proof.
  rewrite map_map. unfold bucketItems.
  apply concat_map_perm; [apply sort_perm|]. by intros [name bucket].
Qed.

(** C3.  In the result of [buildSectionGrouping], the count of each section
    is the sum of the sizes of its subject groups, the counts of all sections
    add up to the number of articles, the groups hold the articles of the
    input, each once, and every article sits under its own section and
    subject, [Other] standing for a missing or empty one. *)
Theorem buildSectionGrouping_counts (A : list Article) :
  let G := buildSectionGrouping localeCompare A in
  Forall (fun g => count g = list_sum (map (fun s => length (items s)) (subjects g))) G /\
  list_sum (map count G) = length A /\
  A ≡ₚ concat (map sectionItems G) /\
  (forall g s a, In g G -> In s (subjects g) -> In a (items s) ->
     orElse (section_type a) "Other" = sectionLabel g /\
     orElse (primary_subject a) "Other" = subjectLabel s).
Proof.
  cbv zeta. unfold buildSectionGrouping.
  set (sections := fold_left addArticle A []).
  set (mk := fun '(sectionName, subjectMap) => _).
  assert (Hcount : Forall (fun g => count g =
             list_sum (map (fun s => length (items s)) (subjects g)))
            (map mk (sort (byKey localeCompare) sections))).
  { apply Forall_forall. intros g Hg%list_elem_of_In.
    apply in_map_iff in Hg as [[name sm] [<- _]]. simpl. apply sum_lengths. }
  assert (Hperm : A ≡ₚ concat (map sectionItems (map mk (sort (byKey localeCompare) sections)))).
  { rewrite map_map. symmetry.
    transitivity (allItems sections); [|apply (fold_items A [])].
    unfold allItems. apply concat_map_perm; [apply sort_perm|].
    intros [name sm]. apply subjects_items. }
  split; [exact Hcount|]. split; [|split; [exact Hperm|]].
  - rewrite (Permutation_length Hperm), length_concat_sum.
    f_equal. apply map_ext_Forall. eapply Forall_impl; [exact Hcount|].
    intros g Hg. simpl in Hg. rewrite Hg. unfold sectionItems.
    by rewrite length_concat_sum.
  - intros g s a Hg Hs Ha.
    apply in_map_iff in Hg as [[name sm] [<- Hkv]].
    apply (Permutation_in _ (sort_perm _ _)) in Hkv.
    simpl in Hs. apply in_map_iff in Hs as [[sname bucket] [<- Hkb]].
    apply (Permutation_in _ (sort_perm _ _)) in Hkb. simpl in Ha |- *.
    pose proof (fold_keyed A [] (Forall_nil_2 _)) as Hk. fold sections in Hk.
    unfold keyed in Hk. rewrite Forall_forall in Hk.
    specialize (Hk _ (proj2 (list_elem_of_In _ _) Hkv)). simpl in Hk.
    rewrite Forall_forall in Hk.
    specialize (Hk _ (proj2 (list_elem_of_In _ _) Hkb)). simpl in Hk.
    rewrite Forall_forall in Hk. by apply Hk, list_elem_of_In.
Qed.

End Claims.
End GroupingClaims.

(* ===================================================================== *)
(** ** Persistence adapter *)
(* ===================================================================== *)

Module PersistenceFacts.
Import Str StrFacts Normalize NormalizeFacts JsFacts NormalizeClaims Persistence.

Section Facts.
Context `{JsNumbers number}.

Local Abbreviation value := (JsValue number).

Variable JSON_parse : string -> option value.

Lemma normalizeDisplayMode_mode (v : value) : In (normalizeDisplayMode v) displayModes.
Proof.
  assert (Hfull : In "full" displayModes) by (right; right; by left).
  destruct v; try exact Hfull. unfold normalizeDisplayMode.
  destruct (hasOwnProperty DISPLAY_MODE_CLASSES (toLowerCase (trim s))) eqn:E;
    [by apply hasOwnProperty_modes | exact Hfull].
Qed.

Lemma mode_nonEmpty (m : string) : In m displayModes -> nonEmpty m = true.
Proof. intros [<-|[<-|[<-|[]]]]; reflexivity. Qed.






End Facts.


End PersistenceFacts.

(* ===================================================================== *)
(** ** Expansion of article cards *)
(* ===================================================================== *)

Module ViewStateFacts.
Import Derivation ViewState.

Lemma nonEmpty_spec (s : string) : nonEmpty s = true <-> s <> EmptyString.
Proof. unfold nonEmpty. destruct s; simpl; split; congruence. Qed.

(** The empty id is never expanded. *)
Lemma reachable_ids (expanded : Expanded) :
  reachable expanded -> EmptyString ∉ expanded.
Proof.
  induction 1 as [|expanded _ _|attribute expanded _ IH|articles expanded _ IH].
  - apply not_elem_of_empty.
  - apply not_elem_of_empty.
  - unfold togglePaperExpansion.
    destruct (nonEmpty (default EmptyString attribute)) eqn:E; simpl; [|done].
    apply nonEmpty_spec in E.
    destruct (bool_decide (default EmptyString attribute ∈ expanded)).
    + intros Hin%elem_of_difference. by destruct Hin.
    + intros [Hin|Hin%elem_of_singleton]%elem_of_union; [done | by apply E].
  - unfold pruneExpandedArticles. intros Hin. apply elem_of_filter in Hin as [_ Hin].
    by apply IH.
Qed.

(** C9.  For every display mode and every expansion set the page can hold,
    the expanded state computed for an article, when its card is rendered
    and when the cards are updated, is true if and only if the mode is
    [full] or the id of the article is in the set: under [full] every
    article is expanded whatever the set, and under another mode exactly the
    ids of the set are. *)
Theorem expanded_state (displayMode : string) (expanded : Expanded) (article : Article) :
  reachable expanded ->
  (ariaExpanded displayMode expanded article = true <->
     displayMode = "full" \/ articleId article ∈ expanded) /\
  (updatedAriaExpanded displayMode expanded (Some (articleId article)) = true <->
     displayMode = "full" \/ articleId article ∈ expanded) /\
  (displayMode = "full" ->
     ariaExpanded displayMode expanded article = true /\
     updatedAriaExpanded displayMode expanded (Some (articleId article)) = true) /\
  (displayMode <> "full" ->
     (ariaExpanded displayMode expanded article = true <-> articleId article ∈ expanded) /\
     (updatedAriaExpanded displayMode expanded (Some (articleId article)) = true <->
        articleId article ∈ expanded)).
Proof.
  intros Hr. pose proof (reachable_ids _ Hr) as Hempty.
  assert (H1 : ariaExpanded displayMode expanded article = true <->
               displayMode = "full" \/ articleId article ∈ expanded).
  { unfold ariaExpanded. cbv zeta.
    by rewrite orb_true_iff, String.eqb_eq, bool_decide_eq_true. }
  assert (H2 : updatedAriaExpanded displayMode expanded (Some (articleId article)) = true <->
               displayMode = "full" \/ articleId article ∈ expanded).
  { unfold updatedAriaExpanded. cbv zeta. simpl default.
    rewrite orb_true_iff, andb_true_iff, String.eqb_eq, bool_decide_eq_true, nonEmpty_spec.
    split; [intros [Hm|[_ Hin]]; auto|]. intros [Hm|Hin]; [by left|]. right.
    split; [|done]. intros E. rewrite E in Hin. done. }
  split; [exact H1|]. split; [exact H2|]. split.
  - intros Hm. split; [apply H1 | apply H2]; by left.
  - intros Hm. rewrite H1, H2. split; (split; [intros [Hf|Hin]; done | by right]).
Qed.

(** One card toggled open, under the mode [title]. *)
Lemma expanded_state_toggled :
  let expanded := togglePaperExpansion (Some "2401.0001") ∅ in
  let article := {| arxiv_id := "2401.0001"; title := "A paper"; authors := [];
                    abstract := EmptyString; keywords := None;
                    section_type := None; primary_subject := None |} in
  reachable expanded /\
  (ariaExpanded "title" expanded article = true <->
     "title" = "full" \/ articleId article ∈ expanded).
Proof.
  intros expanded article.
  assert (Hr : reachable expanded) by apply reach_toggle, reach_start.
  split; [exact Hr|].
  exact (proj1 (expanded_state "title" expanded article Hr)).
Defined.

End ViewStateFacts.

(* ===================================================================== *)
(** ** The definitions on concrete inputs *)
(* ===================================================================== *)

Module Examples.
Import Str Normalize Grouping Escape.
Import Derivation (Article, filterByFavoriteAuthors, filterByKeywords).

Local Abbreviation value := (JsValue IntNumbers.number).

Example trim_spaces : trim "  Fei-Fei Li  " = "Fei-Fei Li".
Proof. reflexivity. Qed.

Example split_commas :
  split isListSeparator "a, b,,c" = ["a"; " b"; EmptyString; "c"].
Proof. reflexivity. Qed.

Example slugify_label : slugify "  Computer Vision & Graphics " "section" = "computer-vision-graphics".
Proof. reflexivity. Qed.

Example slugify_symbols : slugify "***" "subject" = "subject".
Proof. reflexivity. Qed.

Example escapeHtml_markup :
  escapeHtml (JsStr "<a href='x'>R&D</a>" : value) =
  Some "&lt;a href=&#39;x&#39;&gt;R&amp;D&lt;/a&gt;".
Proof. reflexivity. Qed.

Example escapeHtml_number : escapeHtml (JsNum (Some 42%Z) : value) = Some "42".
Proof. reflexivity. Qed.

Example normalizeDisplayMode_padded :
  normalizeDisplayMode (JsStr "  Title " : value) = "title".
Proof. reflexivity. Qed.

Example normalizePreferences_mixed :
  normalizePreferences
    (JsObj [("favorite_authors", JsStr "Malik, Li
Malik,  ,");
            ("keywords", JsArr [JsStr " diffusion "; JsNum (Some 3%Z); JsNull;
                                JsStr EmptyString; JsStr "diffusion"])] : value) =
  Some {| favorite_authors := ["Malik"; "Li"];
          keywords := ["diffusion"; "3"; "null"] |}.
Proof. reflexivity. Qed.

Definition paper (i : string) (t : string) (who : list string) (sec sub : option string)
    : Article :=
  Derivation.Build_Article i t who "We study things." None sec sub.

Definition p1 : Article :=
  paper "2401.0001" "Diffusion Models for Video" ["Ada Lovelace"] (Some "New") (Some "cs.CV").
Definition p2 : Article :=
  paper "2401.0002" "Shape from Shading" ["Jitendra Malik"; "Alan Turing"] (Some "Cross") None.
Definition p3 : Article :=
  paper "2401.0003" "Parsing" ["Grace Hopper"] (Some "New") (Some "cs.CL").
Definition p4 : Article :=
  paper "2401.0004" "Tracking" ["Emmy Noether"] (Some "New") (Some "cs.CV").

(** The scenarios of the specification. *)
Example favorite_malik :
  filterByFavoriteAuthors [p1; p2; p3] (Some ["malik"]) = [p2].
Proof. reflexivity. Qed.

Example keyword_diffusion :
  filterByKeywords [p1; p2; p3] (Some ["diffusion"]) = [p1].
Proof. reflexivity. Qed.

Example keyword_exact_tag :
  let tagged :=
    Derivation.Build_Article "2401.0005" "Diffusion" [] EmptyString
      (Some ["Diffusion Models"]) None None in
  filterByKeywords [tagged] (Some ["diffusion"]) = [] /\
  filterByKeywords [tagged] (Some ["diffusion models"]) = [tagged].
Proof. split; reflexivity. Qed.

(** A comparison of strings by code units, to run the grouping. *)
Definition byCodeUnits (a b : string) : Z :=
  match String.compare a b with
  | Lt => (-1)%Z
  | Eq => 0%Z
  | Gt => 1%Z
  end.

Example grouping_of_four :
  map (fun g => (sectionId g, sectionLabel g, count g,
                 map (fun s => (subjectId s, subjectLabel s, map Derivation.arxiv_id (items s)))
                     (subjects g)))
      (buildSectionGrouping byCodeUnits [p1; p2; p3; p4]) =
  [("category-cross", "Cross", 1,
     [("category-cross-other", "Other", ["2401.0002"])]);
   ("category-new", "New", 3,
     [("category-new-cs-cl", "cs.CL", ["2401.0003"]);
      ("category-new-cs-cv", "cs.CV", ["2401.0001"; "2401.0004"])])].
Proof. reflexivity. Qed.

End Examples.

(* ===================================================================== *)
(** ** escapeHtml: what the markup keeps of the text *)
(* ===================================================================== *)

Module EscapeText.
Import Str StrFacts Escape EscapeFacts.

(** The characters [escapeHtml] rewrites. *)
Definition isEscaped (c : ascii) : bool :=
  Ascii.eqb c "&" || Ascii.eqb c "<" || Ascii.eqb c ">" || Ascii.eqb c dquote
  || Ascii.eqb c "'".

Fixpoint plainText (s : string) : bool :=
  match s with
  | EmptyString => true
  | String c s' => negb (isEscaped c) && plainText s'
  end.

Lemma escapeUnit_cases (c : ascii) :
  (c = "&"%char /\ escapeUnit c = "&amp;") \/
  (c = "<"%char /\ escapeUnit c = "&lt;") \/
  (c = ">"%char /\ escapeUnit c = "&gt;") \/
  (c = dquote /\ escapeUnit c = "&quot;") \/
  (c = "'"%char /\ escapeUnit c = "&#39;") \/
  (isEscaped c = false /\ escapeUnit c = String c EmptyString).
Proof.
  unfold escapeUnit, isEscaped.
  destruct (Ascii.eqb_spec c "&") as [->|H1]; [by left|].
  destruct (Ascii.eqb_spec c "<") as [->|H2]; [right; by left|].
  destruct (Ascii.eqb_spec c ">") as [->|H3]; [right; right; by left|].
  destruct (Ascii.eqb_spec c dquote) as [->|H4]; [right; right; right; by left|].
  destruct (Ascii.eqb_spec c "'") as [->|H5]; [right; right; right; right; by left|].
  by repeat right.
Qed.

Lemma escapeAll_app (s t : string) :
  escapeAll (s +:+ t) = escapeAll s +:+ escapeAll t.
Proof.
  induction s as [|c s IH]; [reflexivity|].
  rewrite sapp_cons. simpl. by rewrite IH, sapp_assoc.
Qed.

Lemma escapeAll_plain (s : string) : plainText s = true -> escapeAll s = s.
Proof.
  induction s as [|c s IH]; [reflexivity|]. simpl.
  intros [Hc Hs]%andb_true_iff. apply negb_true_iff in Hc.
  destruct (escapeUnit_cases c) as [[-> _]|[[-> _]|[[-> _]|[[-> _]|[[-> _]|[_ ->]]]]]];
    try discriminate Hc.
  rewrite sapp_cons, sapp_nil_l. by rewrite IH.
Qed.

Lemma escapeAll_cons_inj (a b : ascii) (s t : string) :
  escapeUnit a +:+ s = escapeUnit b +:+ t -> a = b /\ s = t.
Proof.
  assert (Hamp : forall c, isEscaped c = false -> c <> "&"%char).
  { intros c Hc ->. discriminate Hc. }
  destruct (escapeUnit_cases a) as [[-> ->]|[[-> ->]|[[-> ->]|[[-> ->]|[[-> ->]|[Ha ->]]]]]];
  destruct (escapeUnit_cases b) as [[-> ->]|[[-> ->]|[[-> ->]|[[-> ->]|[[-> ->]|[Hb ->]]]]]];
    rewrite ?sapp_cons, ?sapp_nil_l; intros E;
    try discriminate E;
    try (injection E as E; split; [reflexivity | exact E]);
    try (injection E as E _; exfalso; by eapply Hamp; eauto).
  injection E as -> ->. by split.
Qed.

Section Text.
Context `{JsNumbers number}.

Lemma escapeHtml_string (s : string) :
  escapeHtml (number := number) (JsStr s) = Some (escapeAll s).
Proof.
  rewrite escapeHtml_text. unfold Js.or. by destruct s.
Qed.

(** X1.  [escapeHtml] loses nothing of a text: two strings with the same
    markup are the same string. *)
Theorem escapeHtml_injective (s t : string) :
  escapeHtml (number := number) (JsStr s) = escapeHtml (number := number) (JsStr t) <->
  s = t.
Proof.
  split; [|by intros ->].
  rewrite !escapeHtml_string. intros [= E]. revert t E.
  induction s as [|a s IH]; intros [|b t] E; simpl in E.
  - reflexivity.
  - exfalso. destruct (escapeUnit_cases b) as
      [[_ Hb]|[[_ Hb]|[[_ Hb]|[[_ Hb]|[[_ Hb]|[_ Hb]]]]]];
      rewrite Hb in E; discriminate E.
  - exfalso. destruct (escapeUnit_cases a) as
      [[_ Ha]|[[_ Ha]|[[_ Ha]|[[_ Ha]|[[_ Ha]|[_ Ha]]]]]];
      rewrite Ha in E; discriminate E.
  - apply escapeAll_cons_inj in E as [-> E]. f_equal. by apply IH.
Qed.

(** X2.  [escapeHtml] works piece by piece: on strings it returns, the
    markup of a concatenation is the concatenation of the markups, and a
    text with none of the five characters is its own markup. *)
Theorem escapeHtml_pieces (s t : string) :
  (exists a b,
     escapeHtml (number := number) (JsStr s) = Some a /\
     escapeHtml (number := number) (JsStr t) = Some b /\
     escapeHtml (number := number) (JsStr (s +:+ t)) = Some (a +:+ b)) /\
  (plainText s = true -> escapeHtml (number := number) (JsStr s) = Some s) /\
  (escapeHtml (number := number) (JsStr s) = Some s -> plainText s = true).
Proof.
  rewrite !escapeHtml_string. split.
  { exists (escapeAll s), (escapeAll t). by rewrite escapeAll_app. }
  split; [intros Hs; f_equal; by apply escapeAll_plain|].
  intros [= E]. revert E.
  induction s as [|c s IH]; [done|]. simpl. intros E.
  destruct (escapeUnit_cases c) as [[-> Hc]|[[-> Hc]|[[-> Hc]|[[-> Hc]|[[-> Hc]|[Hc Hu]]]]]].
  - exfalso. clear IH. rewrite Hc, !sapp_cons, sapp_nil_l in E. injection E as E.
    assert (Hlen : String.length (escapeAll s) >= String.length s).
    { clear E. induction s as [|d s IHs]; simpl; [lia|].
      destruct (escapeUnit_cases d) as
        [[_ ->]|[[_ ->]|[[_ ->]|[[_ ->]|[[_ ->]|[_ ->]]]]]];
        rewrite ?sapp_cons, ?sapp_nil_l; simpl; lia. }
    rewrite <- E in Hlen at 2. simpl in Hlen. lia.
  - exfalso. rewrite Hc, sapp_cons in E. discriminate E.
  - exfalso. rewrite Hc, sapp_cons in E. discriminate E.
  - exfalso. rewrite Hc, sapp_cons in E. discriminate E.
  - exfalso. rewrite Hc, sapp_cons in E. discriminate E.
  - rewrite Hu, sapp_cons, sapp_nil_l in E. injection E as E.
    rewrite Hc. simpl. by apply IH.
Qed.

End Text.
End EscapeText.

(* ===================================================================== *)
(** ** slugify: the shape of the anchors *)
(* ===================================================================== *)

Module SlugFacts.
Import Str StrFacts Grouping NormalizeFacts.

(** What may follow a slug unit in a slug: units, and single hyphens each
    followed by a unit. *)
Fixpoint slugTail (s : string) : bool :=
  match s with
  | EmptyString => true
  | String c s' =>
      if isSlugUnit c then slugTail s'
      else isHyphen c
           && match s' with
              | EmptyString => false
              | String d _ => isSlugUnit d
              end
           && slugTail s'
  end.

(** A slug: runs of the units [a-z0-9] separated by single hyphens. *)
Definition isSlug (s : string) : bool :=
  match s with
  | EmptyString => false
  | String c s' => isSlugUnit c && slugTail s'
  end.

(** Units and hyphens only, no hyphen next to a hyphen; [afterHyphen] tells
    that a hyphen stands just before [s]. *)
Fixpoint sparse (afterHyphen : bool) (s : string) : bool :=
  match s with
  | EmptyString => true
  | String c s' =>
      if isSlugUnit c then sparse false s'
      else isHyphen c && negb afterHyphen && sparse true s'
  end.

Lemma unit_facts (c : ascii) :
  isSlugUnit c = true -> isHyphen c = false /\ is_white c = false /\ lower_unit c = c.
Proof.
  destruct c as [[] [] [] [] [] [] [] []]; vm_compute; intros E;
    first [discriminate E | repeat split].
Qed.

Lemma hyphen_facts (c : ascii) :
  isHyphen c = true -> c = "-"%char /\ is_white c = false /\ lower_unit c = c.
Proof.
  intros E. apply Ascii.eqb_eq in E as ->. by vm_compute.
Qed.

Lemma hyphenate_sparse (b : bool) (x : string) : sparse b (hyphenate b x) = true.
Proof.
  revert b. induction x as [|c x IH]; intros b; [reflexivity|]. simpl.
  destruct (isSlugUnit c) eqn:Ec.
  - simpl. by rewrite Ec.
  - destruct b; [apply IH|]. simpl. by rewrite IH.
Qed.

Lemma sparse_weaken (b : bool) (s : string) : sparse b s = true -> sparse false s = true.
Proof.
  destruct s as [|c s]; [done|]. simpl. destruct (isSlugUnit c); [done|].
  intros [[Hh _]%andb_true_iff Hs]%andb_true_iff. by rewrite Hh, Hs.
Qed.

Lemma stripStart_sparse (b : bool) (s : string) :
  sparse b s = true -> sparse true (stripStart s) = true.
Proof.
  revert b. induction s as [|c s IH]; intros b; [done|]. simpl.
  destruct (isSlugUnit c) eqn:Ec.
  - destruct (unit_facts c Ec) as (-> & _). simpl. by rewrite Ec.
  - intros [[Hh _]%andb_true_iff Hs]%andb_true_iff. rewrite Hh. by apply (IH true).
Qed.

Lemma stripEnd_head (s : string) (d : ascii) (r : string) :
  stripEnd s = String d r -> exists s', s = String d s'.
Proof.
  destruct s as [|c s]; [done|]. simpl.
  destruct (isHyphen c && is_empty (stripEnd s)); [done|].
  intros [= -> _]. by eexists.
Qed.

Lemma stripEnd_tail (s : string) : sparse false s = true -> slugTail (stripEnd s) = true.
Proof.
  induction s as [|c s IH]; [done|]. simpl.
  destruct (isSlugUnit c) eqn:Ec.
  - intros Hs. destruct (unit_facts c Ec) as (-> & _). simpl. rewrite Ec. by apply IH.
  - intros [[Hh _]%andb_true_iff Hs]%andb_true_iff. rewrite Hh. simpl.
    destruct (stripEnd s) as [|d r] eqn:Er; [reflexivity|].
    assert (Htail : slugTail (String d r) = true).
    { apply IH. by eapply sparse_weaken. }
    assert (Ed : isSlugUnit d = true).
    { destruct (stripEnd_head _ _ _ Er) as [s' ->]. simpl in Hs.
      destruct (isSlugUnit d); [done|]. by rewrite andb_false_r in Hs. }
    cbn [is_empty].
    change (slugTail (String c (String d r)))
      with (if isSlugUnit c then slugTail (String d r)
            else isHyphen c && isSlugUnit d && slugTail (String d r)).
    by rewrite Ec, Hh, Ed, Htail.
Qed.

(** The slug that [slugify] computes before it looks at the fallback. *)
Definition slugCore (text : string) : string :=
  stripEnd (stripStart (hyphenate false (toLowerCase (trim text)))).

Lemma slugCore_shape (text : string) :
  slugCore text = EmptyString \/ isSlug (slugCore text) = true.
Proof.
  unfold slugCore.
  pose proof (stripStart_sparse _ _ (hyphenate_sparse false (toLowerCase (trim text)))) as Hs.
  destruct (stripStart _) as [|c s]; [by left|]. right.
  simpl in Hs. destruct (isSlugUnit c) eqn:Ec; [|by rewrite andb_false_r in Hs].
  destruct (unit_facts c Ec) as (Hh & _).
  simpl. rewrite Hh. simpl. rewrite Ec. by apply stripEnd_tail.
Qed.

Lemma slugify_core (text fallback : string) :
  slugify text fallback =
  if is_empty (slugCore text) then fallback else slugCore text.
Proof. reflexivity. Qed.

(** *** A slug read as a string *)

Lemma slugTail_units (s : string) (c : ascii) :
  slugTail s = true -> occurs c s = true -> isSlugUnit c = true \/ c = "-"%char.
Proof.
  induction s as [|a s IH]; [done|]. simpl.
  intros Hs [Ha|Hc]%orb_true_iff.
  - apply Ascii.eqb_eq in Ha as ->. destruct (isSlugUnit c) eqn:Ec; [by left|].
    apply andb_true_iff in Hs as [[Hh _]%andb_true_iff _].
    right. by apply hyphen_facts in Hh as [-> _].
  - apply IH; [|done]. destruct (isSlugUnit a); [done|].
    by apply andb_true_iff in Hs as [_ Hs].
Qed.

Lemma startsWith_cons (a b : ascii) (p s : string) :
  startsWith (String a p) (String b s) = if Ascii.eqb a b then startsWith p s else false.
Proof. reflexivity. Qed.

Lemma slugTail_no_pair (s : string) :
  slugTail s = true -> includes s "--" = false.
Proof.
  induction s as [|a s IH]; [done|]. intros Hs.
  assert (Hrest : slugTail s = true).
  { simpl in Hs. destruct (isSlugUnit a); [done|]. by apply andb_true_iff in Hs as [_ Hs]. }
  change (includes (String a s) "--")
    with (startsWith "--" (String a s) || includes s "--").
  rewrite (IH Hrest), orb_false_r, startsWith_cons.
  destruct (Ascii.eqb_spec "-"%char a) as [<-|Hne]; [|done].
  destruct s as [|d s]; [done|]. rewrite startsWith_cons.
  destruct (Ascii.eqb_spec "-"%char d) as [<-|Hd']; [|done].
  simpl in Hs. discriminate Hs.
Qed.

Lemma slugTail_rest (a : ascii) (s : string) :
  slugTail (String a s) = true -> slugTail s = true.
Proof.
  simpl. destruct (isSlugUnit a); [done|]. by intros [_ Hs]%andb_true_iff.
Qed.

Lemma slugTail_no_end (s : string) :
  slugTail s = true -> forall pre, s <> pre +:+ "-".
Proof.
  induction s as [|a s IH]; intros Hs [|b pre] E.
  - discriminate E.
  - discriminate E.
  - rewrite sapp_nil_l in E. injection E as -> ->. discriminate Hs.
  - rewrite sapp_cons in E. injection E as _ E.
    by apply (IH (slugTail_rest _ _ Hs) pre).
Qed.

End SlugFacts.

Module SlugClaims.
Import Str StrFacts Grouping NormalizeFacts SlugFacts.

Lemma slugTail_head (a : ascii) (s : string) :
  slugTail (String a s) = true -> is_white a = false /\ lower_unit a = a.
Proof.
  simpl. destruct (isSlugUnit a) eqn:Ea.
  - intros _. by destruct (unit_facts a Ea) as (_ & ? & ?).
  - intros [[Hh _]%andb_true_iff _]%andb_true_iff.
    by destruct (hyphen_facts a Hh) as (_ & ? & ?).
Qed.

Lemma trimEnd_slug (s : string) : slugTail s = true -> trimEnd s = s.
Proof.
  induction s as [|a s IH]; [done|]. intros Hs.
  destruct (slugTail_head _ _ Hs) as [Hw _]. simpl. rewrite Hw. simpl.
  by rewrite (IH (slugTail_rest _ _ Hs)).
Qed.

Lemma toLowerCase_slug (s : string) : slugTail s = true -> toLowerCase s = s.
Proof.
  induction s as [|a s IH]; [done|]. intros Hs.
  destruct (slugTail_head _ _ Hs) as [_ Hl]. simpl.
  by rewrite Hl, (IH (slugTail_rest _ _ Hs)).
Qed.

Lemma hyphenate_after_hyphen (d : ascii) (s : string) :
  isSlugUnit d = true -> hyphenate true (String d s) = hyphenate false (String d s).
Proof. intros Hd. simpl. by rewrite Hd. Qed.

Lemma hyphenate_slug (s : string) : slugTail s = true -> hyphenate false s = s.
Proof.
  induction s as [|a s IH]; [done|]. intros Hs.
  pose proof (IH (slugTail_rest _ _ Hs)) as Hrest.
  simpl in Hs |- *. destruct (isSlugUnit a) eqn:Ea; [by rewrite Hrest|].
  apply andb_true_iff in Hs as [[Hh Hd]%andb_true_iff _].
  apply hyphen_facts in Hh as [-> _].
  destruct s as [|d s]; [discriminate Hd|].
  by rewrite (hyphenate_after_hyphen d s Hd), Hrest.
Qed.

Lemma stripEnd_slug (s : string) : slugTail s = true -> stripEnd s = s.
Proof.
  induction s as [|a s IH]; [done|]. intros Hs.
  pose proof (IH (slugTail_rest _ _ Hs)) as Hrest.
  simpl in Hs |- *. rewrite Hrest. destruct (isSlugUnit a) eqn:Ea.
  - by destruct (unit_facts a Ea) as (-> & _).
  - apply andb_true_iff in Hs as [[_ Hd]%andb_true_iff _].
    destruct s as [|d s]; [discriminate Hd|]. simpl. by rewrite andb_false_r.
Qed.

Lemma isSlug_tail (s : string) : isSlug s = true -> slugTail s = true /\ s <> EmptyString.
Proof.
  destruct s as [|c s]; [done|]. simpl. intros [Hc Hs]%andb_true_iff. by rewrite Hc.
Qed.

(** A slug is its own slug. *)
Lemma slugify_slug (s fallback : string) : isSlug s = true -> slugify s fallback = s.
Proof.
  intros Hs. destruct (isSlug_tail s Hs) as [Ht Hne].
  assert (Hcore : slugCore s = s).
  { unfold slugCore, trim.
    destruct s as [|c s]; [done|]. simpl in Hs. apply andb_true_iff in Hs as [Hc _].
    destruct (unit_facts c Hc) as (Hh & Hw & _).
    rewrite (trimStart_fixed (String c s)) by (simpl; by rewrite Hw).
    rewrite (trimEnd_slug _ Ht), (toLowerCase_slug _ Ht), (hyphenate_slug _ Ht).
    simpl stripStart. rewrite Hh. by apply stripEnd_slug. }
  rewrite slugify_core, Hcore. by destruct s.
Qed.

(** X3.  [slugify] returns the fallback or a well-formed slug: a non-empty
    string of the units [a-z0-9] and hyphens that neither starts nor ends
    with a hyphen and has no two hyphens in a row.  With a fallback that is
    a slug, as [section] and [subject] are, the result is always a slug. *)
Theorem slugify_shape (text fallback : string) :
  let r := slugify text fallback in
  (r = fallback \/
   (r <> EmptyString /\
    (forall c, occurs c r = true -> isSlugUnit c = true \/ c = "-"%char) /\
    startsWith "-" r = false /\
    (forall pre, r <> pre +:+ "-") /\
    includes r "--" = false)) /\
  (isSlug fallback = true -> isSlug r = true) /\
  isSlug "section" = true /\ isSlug "subject" = true.
Proof.
  cbv zeta. rewrite slugify_core.
  destruct (slugCore_shape text) as [->|Hs]; [by auto|].
  destruct (isSlug_tail _ Hs) as [Ht Hne].
  assert (He : is_empty (slugCore text) = false) by by apply is_empty_false.
  rewrite He. split; [right|by auto].
  split; [done|]. split; [intros c; by apply slugTail_units|].
  split; [|split; [by apply slugTail_no_end | by apply slugTail_no_pair]].
  destruct (slugCore text) as [|c s]; [done|]. simpl in Hs.
  apply andb_true_iff in Hs as [Hc _]. rewrite startsWith_cons.
  destruct (Ascii.eqb_spec "-"%char c) as [<-|Hne']; [discriminate Hc | done].
Qed.

(** X4.  [slugify] is idempotent: the slug of a slug is that slug, so an
    anchor derived from an anchor does not change (the fallback being a slug
    itself). *)
Theorem slugify_idempotent (text fallback other : string) :
  isSlug fallback = true ->
  slugify (slugify text fallback) other = slugify text fallback.
Proof.
  intros Hf. apply slugify_slug. rewrite slugify_core.
  destruct (slugCore_shape text) as [->|Hs]; [done|].
  destruct (isSlug_tail _ Hs) as [_ Hne].
  apply is_empty_false in Hne. by rewrite Hne.
Qed.

Lemma slugify_idempotent_section :
  slugify (slugify "  Computer Vision & Graphics " "section") "subject" =
  slugify "  Computer Vision & Graphics " "section".
Proof. apply (slugify_idempotent _ "section" "subject"). reflexivity. Defined.

End SlugClaims.

(* ===================================================================== *)
(** ** Preferences: the lists kept, and the edit form
       (script.js, 142-155, 999-1006, 1048-1067) *)
(* ===================================================================== *)


Module PreferencesFacts.
Import Str StrFacts Normalize NormalizeFacts PreferencesForm.

Lemma filter_filter_comm {A : Type} (p q : A -> bool) (l : list A) :
  List.filter p (List.filter q l) = List.filter q (List.filter p l).
Proof.
  induction l as [|x l IH]; [done|]. simpl.
  destruct (p x) eqn:Ep, (q x) eqn:Eq; simpl; rewrite ?Ep, ?Eq, IH; done.
Qed.

Lemma filter_absorb (p : string -> bool) (x : string) (l : list string) :
  p x = false ->
  List.filter p (List.filter (fun y => negb (String.eqb y x)) l) = List.filter p l.
Proof.
  intros Hx. induction l as [|y l IH]; [done|]. simpl.
  destruct (String.eqb_spec y x) as [->|Hne]; simpl.
  - by rewrite Hx.
  - by rewrite IH.
Qed.

Lemma firstSeen_filter (p : string -> bool) (l : list string) :
  firstSeen (List.filter p l) = List.filter p (firstSeen l).
Proof.
  induction l as [|y l IH]; [done|]. simpl. destruct (p y) eqn:Ey; simpl.
  - by rewrite ?Ey, IH, filter_filter_comm.
  - by rewrite ?Ey, IH, filter_absorb.
Qed.

Definition unseen (seen : list string) (y : string) : bool :=
  negb (bool_decide (y ∈ seen)).

Lemma unseen_spec (seen : list string) (y : string) :
  unseen seen y = true <-> y ∉ seen.
Proof. unfold unseen. rewrite negb_true_iff, bool_decide_eq_false. done. Qed.

Lemma unseen_snoc (seen : list string) (x : string) (l : list string) :
  List.filter (unseen (seen ++ [x])%list) l =
  List.filter (fun y => negb (String.eqb y x)) (List.filter (unseen seen) l).
Proof.
  induction l as [|y l IH]; [done|]. simpl.
  destruct (unseen (seen ++ [x])%list y) eqn:E1; destruct (unseen seen y) eqn:E2; simpl.
  - apply unseen_spec in E1.
    destruct (String.eqb_spec y x) as [->|Hne]; simpl; [|by rewrite IH].
    exfalso. apply E1, elem_of_app. right. by apply list_elem_of_singleton.
  - apply unseen_spec in E1. apply not_true_iff_false in E2.
    exfalso. apply E2, unseen_spec. intros Hin. apply E1, elem_of_app. by left.
  - apply unseen_spec in E2. apply not_true_iff_false in E1.
    destruct (String.eqb_spec y x) as [->|Hne]; simpl; [exact IH|].
    exfalso. apply E1, unseen_spec.
    intros [Hin|Hin%list_elem_of_singleton]%elem_of_app; done.
  - exact IH.
Qed.

Lemma setAddAll_firstSeen (seen l : list string) :
  setAddAll seen l = (seen ++ firstSeen (List.filter (unseen seen) l))%list.
Proof.
  revert seen. induction l as [|x l IH]; intros seen; simpl.
  - by rewrite app_nil_r.
  - unfold unseen at 1. destruct (bool_decide (x ∈ seen)); simpl; rewrite IH; [done|].
    by rewrite <- app_assoc, unseen_snoc, firstSeen_filter.
Qed.

(** [Array.from(new Set(l))] keeps the first occurrence of each string. *)
Lemma arrayFromSet_firstSeen (l : list string) : arrayFromSet l = firstSeen l.
Proof.
  unfold arrayFromSet. rewrite setAddAll_firstSeen. simpl. f_equal.
  induction l as [|x l IH]; [done|]. simpl. by rewrite IH.
Qed.

(** *** Splitting what was joined *)

Lemma split_plain (s : string) : plainEntry s = true -> split isListSeparator s = [s].
Proof.
  induction s as [|c s IH]; [done|]. simpl.
  intros [[Hc _]%andb_true_iff Hs]%andb_true_iff. apply negb_true_iff in Hc.
  by rewrite Hc, (IH Hs).
Qed.

Lemma split_plain_then (s t : string) :
  plainEntry s = true ->
  split isListSeparator (s +:+ lineFeed +:+ t) = s :: split isListSeparator t.
Proof.
  induction s as [|c s IH]; [done|]. rewrite sapp_cons. simpl.
  intros [[Hc _]%andb_true_iff Hs]%andb_true_iff. apply negb_true_iff in Hc.
  by rewrite Hc, (IH Hs).
Qed.

Lemma split_join (l : list string) :
  Forall (fun s => plainEntry s = true) l -> l <> [] ->
  split isListSeparator (join lineFeed l) = l.
Proof.
  induction 1 as [|x l Hx Hl IH]; [done|]. intros _.
  destruct l as [|y l]; [by apply split_plain|].
  change (join lineFeed (x :: y :: l)) with (x +:+ lineFeed +:+ join lineFeed (y :: l)).
  rewrite (split_plain_then _ _ Hx). f_equal. by apply IH.
Qed.

End PreferencesFacts.

Module PreferencesClaims.
Import Str StrFacts Normalize NormalizeFacts NormalizeClaims PreferencesForm PreferencesFacts.

Section Claims.
Context `{JsNumbers number}.

Lemma normalizeList_candidates (v : JsValue number) :
  normalizeList v =
  (fun texts => firstSeen (List.filter nonEmpty (map trim texts))) <$> candidates v.
Proof.
  destruct v; try reflexivity; unfold normalizeList, candidates.
  - simpl. by rewrite arrayFromSet_firstSeen.
  - destruct (mapM Js.toString items) as [texts|]; [|reflexivity].
    simpl. by rewrite arrayFromSet_firstSeen.
Qed.

(** X5.  Each list of the preferences [normalizePreferences] returns holds
    the trimmed, non-empty candidates of the field (the printed elements of
    an array, the pieces of a string cut at commas and line feeds, nothing
    for any other value), each once, in the order of first appearance. *)
Theorem normalizePreferences_lists (raw : JsValue number) (p : Preferences) :
  normalizePreferences raw = Some p ->
  (exists names words,
     candidates (Js.getProp raw "favorite_authors") = Some names /\
     candidates (Js.getProp raw "keywords") = Some words /\
     favorite_authors p = firstSeen (List.filter nonEmpty (map trim names)) /\
     keywords p = firstSeen (List.filter nonEmpty (map trim words))) /\
  NoDup (favorite_authors p) /\ NoDup (keywords p) /\
  Forall (fun s => trim s = s /\ s <> EmptyString) (favorite_authors p ++ keywords p).
Proof.
  intros Hp.
  destruct (normalizePreferences_clean raw p Hp) as [[Hn1 Hf1] [Hn2 Hf2]].
  destruct (normalizePreferences_fields raw p Hp) as [Hfa Hkw].
  rewrite normalizeList_candidates in Hfa, Hkw.
  apply fmap_Some in Hfa as (names & Hnames & Hfa).
  apply fmap_Some in Hkw as (words & Hwords & Hkw).
  split; [by exists names, words|].
  split; [done|]. split; [done|].
  apply Forall_app. split; (eapply Forall_impl; [eassumption|]);
    intros s [Ht Hne]; split; try done; by apply ReadListNormalize.nonEmpty_true.
Qed.

(** X6.  Opening the edit form and saving it unchanged keeps the
    preferences: when the entries are trimmed, non-empty and pairwise
    different and hold no comma, line feed or carriage return, the texts
    written into the form normalise to the same two lists. *)
Theorem form_round_trip (p : Preferences) :
  cleanList (favorite_authors p) -> cleanList (keywords p) ->
  Forall (fun s => plainEntry s = true) (favorite_authors p ++ keywords p) ->
  submittedPreferences (number := number) (updatePreferenceInputs p) = Some p.
Proof.
  intros Hf Hk [Hpf Hpk]%Forall_app.
  assert (Hlist : forall l, cleanList l -> Forall (fun s => plainEntry s = true) l ->
            normalizeList (number := number) (JsStr (join lineFeed l)) = Some l).
  { intros l Hl Hpl. destruct l as [|x l]; [reflexivity|].
    change (normalizeList (JsStr (join lineFeed (x :: l))))
      with (Some (arrayFromSet (List.filter nonEmpty
              (map trim (split isListSeparator (join lineFeed (x :: l))))))).
    rewrite split_join by done. f_equal. by apply cleanList_fixed. }
  destruct p as [fa kw]. unfold submittedPreferences, updatePreferenceInputs.
  cbn [favorite_authors keywords fst snd] in *. unfold normalizePreferences.
  change (Js.getProp (JsObj ?l) "favorite_authors")
    with (JsStr (number := number) (join lineFeed fa)).
  change (Js.getProp (JsObj ?l) "keywords")
    with (JsStr (number := number) (join lineFeed kw)).
  by rewrite !Hlist.
Qed.

End Claims.

Lemma normalizePreferences_lists_mixed :
  let raw : JsValue IntNumbers.number :=
    JsObj [("favorite_authors", JsStr "Malik, Li, Malik");
           ("keywords", JsArr [JsStr " diffusion "; JsStr "diffusion"])] in
  (exists names words,
     candidates (Js.getProp raw "favorite_authors") = Some names /\
     candidates (Js.getProp raw "keywords") = Some words /\
     ["Malik"; "Li"] = firstSeen (List.filter nonEmpty (map trim names)) /\
     ["diffusion"] = firstSeen (List.filter nonEmpty (map trim words))) /\
  NoDup ["Malik"; "Li"].
Proof.
  intros raw.
  assert (Hp : normalizePreferences raw =
               Some {| favorite_authors := ["Malik"; "Li"]; keywords := ["diffusion"] |})
    by (vm_compute; reflexivity).
  destruct (normalizePreferences_lists raw _ Hp) as (H1 & H2 & _).
  by split.
Defined.

Lemma form_round_trip_two_lists :
  submittedPreferences (number := IntNumbers.number)
    (updatePreferenceInputs
       {| favorite_authors := ["Jitendra Malik"; "Fei-Fei Li"]; keywords := ["diffusion"] |}) =
  Some {| favorite_authors := ["Jitendra Malik"; "Fei-Fei Li"]; keywords := ["diffusion"] |}.
Proof.
  apply form_round_trip.
  - split; [apply (bool_decide_unpack _); by vm_compute | by repeat constructor].
  - split; [apply (bool_decide_unpack _); by vm_compute | by repeat constructor].
  - by repeat constructor.
Defined.

End PreferencesClaims.

(* ===================================================================== *)
(** ** Read list: membership, notes and the buttons
       (script.js, 920-962) *)
(* ===================================================================== *)


Module ReadListMore.
Import Str StrFacts Normalize NormalizeFacts ReadListNormalize ReadList ReadListFacts.
Import ReadListInvariant ReadListButtons.

Section More.
Context `{JsNumbers number}.

Local Abbreviation value := (JsValue number).
Local Abbreviation entry := (ReadListEntry number).
Local Abbreviation State := (ReadList.State (number := number)).

Lemma isInReadList_ids (x : string) (st : State) :
  isInReadList x st = true <-> In x (map id (readList st)).
Proof.
  unfold isInReadList. rewrite existsb_exists, in_map_iff. split.
  - intros [e [He Hx]]. apply String.eqb_eq in Hx. by exists e.
  - intros [e [Hx He]]. exists e. split; [done|]. by apply String.eqb_eq.
Qed.

Lemma isInReadList_same_ids (x : string) (st st' : State) :
  map id (readList st') = map id (readList st) ->
  isInReadList x st' = isInReadList x st.
Proof.
  intros E. apply eq_true_iff_eq. by rewrite !isInReadList_ids, E.
Qed.

Lemma others_map_ids (target : string) (l : list entry) :
  map id (others target l) =
  List.filter (fun x => negb (String.eqb x target)) (map id l).
Proof.
  induction l as [|e l IH]; [done|]. simpl. unfold sameId.
  destruct (String.eqb (id e) target); simpl; by rewrite IH.
Qed.

Lemma setReadList_ids (now : nat -> number) (next : list entry) (st : State) :
  Forall normalEntry next ->
  map id (readList (stateOf (setReadList now next st))) = map id next.
Proof.
  intros Hn. rewrite (setReadList_normal _ _ _ Hn). simpl. apply refreshed_ids.
Qed.

Lemma refresh_settled (t : number) (e : entry) :
  isFalsyNumber (addedAt e) = false -> refresh t e = e.
Proof. intros E. destruct e. unfold refresh. simpl in *. by rewrite E. Qed.

Lemma refreshed_settled (now : nat -> number) (l : list entry) :
  Forall (fun e => isFalsyNumber (addedAt e) = false) l ->
  imap (fun i e => refresh (now i) e) l = l.
Proof.
  intros Hl. revert now. induction Hl as [|e l He _ IH]; intros now; [done|].
  rewrite imap_cons, (refresh_settled _ _ He). f_equal. apply (IH (fun i => now (S i))).
Qed.

Lemma renormalize_settled (now : nat -> number) (l : list entry) :
  settled l -> normalizeReadListItems now (JsArr (map entryValue l)) = Some l.
Proof. intros [Hn Ha]. by rewrite (renormalize_list _ _ Hn), refreshed_settled. Qed.

Lemma setReadList_settled (now : nat -> number) (next : list entry) (st : State) :
  settled next ->
  setReadList now next st =
  Returned {| readList := next; readListEditingId := readListEditingId st |}.
Proof.
  intros [Hn Ha]. rewrite (setReadList_normal _ _ _ Hn). by rewrite refreshed_settled.
Qed.

Lemma normalizeReadListItem_addedAt (t : number) (item : value) (e : entry) :
  isFalsyNumber t = false -> normalizeReadListItem t item = Some (Some e) ->
  isFalsyNumber (addedAt e) = false.
Proof.
  intros Ht He.
  apply normalizeReadListItem_kept in He as (_ & tt & added & Hrest).
  destruct Hrest as (_ & _ & _ & _ & _ & _ & _ & _ & _ & _ & ->).
  by destruct (isFalsyNumber added) eqn:E.
Qed.

Lemma normalizeReadListItems_settled (now : nat -> number) (v : value) (l : list entry) :
  (forall i, isFalsyNumber (now i) = false) ->
  normalizeReadListItems now v = Some l -> settled l.
Proof.
  intros Hnow Hl. split; [by apply normalizeReadListItems_normal in Hl|].
  destruct v; try (injection Hl as <-; apply Forall_nil_2).
  apply Forall_forall. intros e He.
  apply (normalizeReadListItems_elem _ _ _ _ Hl) in He as (i & item & _ & He).
  by apply (normalizeReadListItem_addedAt (now i) item).
Qed.

Lemma Forall2_map_left {A B C : Type} (P : B -> C -> Prop) (f : A -> B)
    (l : list A) (k : list C) :
  Forall2 P (map f l) k -> Forall2 (fun x y => P (f x) y) l k.
Proof.
  revert k. induction l as [|x l IH]; intros k Hk; inversion Hk; subst; constructor; auto.
Qed.

Lemma others_settled (target : string) (l : list entry) :
  settled l -> settled (others target l).
Proof.
  intros [Hn Ha]. split; [by apply others_normal|].
  rewrite !Forall_forall in *. intros x Hx%list_elem_of_In.
  apply filter_In in Hx as [Hx _]. by apply Ha, list_elem_of_In.
Qed.

Lemma remove_settled (now : nat -> number) (target : string) (st : State) :
  settled (readList st) ->
  removeFromReadList now target st =
  Returned {| readList := others target (readList st);
              readListEditingId :=
                if sameId (readListEditingId st) target then EmptyString
                else readListEditingId st |}.
Proof.
  intros Hs. unfold removeFromReadList. cbv zeta.
  rewrite setReadList_settled; [done | by apply others_settled].
Qed.

Lemma added_ids (now1 now2 : nat -> number) (e : value) (n : entry) (st : State) :
  Forall normalEntry (readList st) -> normalizeReadListItem (now1 0) e = Some (Some n) ->
  map id (readList (stateOf (addToReadList now1 now2 e st))) =
  (map id (others (id n) (readList st)) ++ [id n])%list.
Proof.
  intros Hl He. rewrite (add_normal _ _ _ _ _ Hl He). simpl.
  by rewrite refreshed_ids, map_app.
Qed.

Lemma removed_ids_eq (now : nat -> number) (target : string) (st : State) :
  Forall normalEntry (readList st) ->
  map id (readList (stateOf (removeFromReadList now target st))) =
  map id (others target (readList st)).
Proof. intros Hl. apply setReadList_ids. by apply others_normal. Qed.

Lemma in_others_ids (x target : string) (l : list entry) :
  In x (map id (others target l)) <-> In x (map id l) /\ x <> target.
Proof.
  rewrite others_map_ids, filter_In, negb_true_iff, String.eqb_neq. done.
Qed.

Lemma remove_membership (now : nat -> number) (target x : string) (st : State) :
  Forall normalEntry (readList st) ->
  isInReadList x (stateOf (removeFromReadList now target st)) =
  if String.eqb x target then false else isInReadList x st.
Proof.
  intros Hl. apply eq_true_iff_eq.
  rewrite isInReadList_ids, (removed_ids_eq _ _ _ Hl), in_others_ids.
  destruct (String.eqb_spec x target) as [->|Hne].
  - split; [by intros [_ ?] | done].
  - rewrite isInReadList_ids. split; [by intros [? _] | done].
Qed.

Lemma add_membership (now1 now2 : nat -> number) (e : value) (n : entry) (x : string)
    (st : State) :
  Forall normalEntry (readList st) -> normalizeReadListItem (now1 0) e = Some (Some n) ->
  isInReadList x (stateOf (addToReadList now1 now2 e st)) =
  if String.eqb x (id n) then true else isInReadList x st.
Proof.
  intros Hl He. apply eq_true_iff_eq.
  rewrite isInReadList_ids, (added_ids _ _ _ _ _ Hl He), in_app_iff, in_others_ids.
  destruct (String.eqb_spec x (id n)) as [->|Hne].
  - split; [done|]. intros _. right. by left.
  - rewrite isInReadList_ids. split.
    + intros [[? _]|[?|[]]]; [done | congruence].
    + intros Hin. by left.
Qed.

End More.
End ReadListMore.

Module ReadListMoreClaims.
Import Str StrFacts Normalize NormalizeFacts ReadListNormalize ReadList ReadListFacts.
Import ReadListInvariant ReadListButtons ReadListMore.

Section Claims.
Context `{JsNumbers number}.

Local Abbreviation value := (JsValue number).
Local Abbreviation entry := (ReadListEntry number).
Local Abbreviation State := (ReadList.State (number := number)).

(** X7.  A list [normalizeReadListItems] returned is left as it is by a
    second normalisation, whatever the clock then shows, provided the clock
    of the first one was not zero. *)
Theorem normalizeReadListItems_fixed (now now' : nat -> number) (v : value)
    (l : list entry) :
  (forall i, isFalsyNumber (now i) = false) ->
  normalizeReadListItems now v = Some l ->
  normalizeReadListItems now' (JsArr (map entryValue l)) = Some l.
Proof.
  intros Hnow Hl. apply renormalize_settled.
  by apply (normalizeReadListItems_settled now v).
Qed.

(** X8.  [addToReadList] of an entry with a usable id returns, and then
    that id is in the read list, the membership of every other id is as
    before and no entry is in note-edit mode; an entry without a usable id
    leaves the state as it was, and so does an entry on which the
    normalisation throws. *)
Theorem added_is_listed (now1 now2 : nat -> number) (e : value) (st : State) :
  Forall normalEntry (readList st) ->
  match normalizeReadListItem (now1 0) e with
  | Some (Some n) =>
      exists after,
        addToReadList now1 now2 e st = Returned after /\
        isInReadList (id n) after = true /\
        (forall x, x <> id n -> isInReadList x after = isInReadList x st) /\
        readListEditingId after = EmptyString
  | Some None => addToReadList now1 now2 e st = Returned st
  | None => addToReadList now1 now2 e st = Threw st
  end.
Proof.
  intros Hl. destruct (normalizeReadListItem (now1 0) e) as [[n|]|] eqn:He;
    [|by apply add_rejected|by apply add_thrown].
  pose proof (add_membership now1 now2 e n (id n) st Hl He) as Hin.
  pose proof (fun x => add_membership now1 now2 e n x st Hl He) as Hother.
  rewrite (add_normal _ _ _ _ _ Hl He) in Hin, Hother |- *.
  eexists. split; [reflexivity|]. cbn [stateOf] in Hin, Hother. split; [|split].
  - by rewrite Hin, String.eqb_refl.
  - intros x Hx. rewrite Hother. apply String.eqb_neq in Hx. by rewrite Hx.
  - reflexivity.
Qed.

(** X9.  [removeFromReadList] returns; after it the id removed is not in
    the read list, and the membership of every other id is as before. *)
Theorem removed_is_unlisted (now : nat -> number) (target : string) (st : State) :
  Forall normalEntry (readList st) ->
  exists after,
    removeFromReadList now target st = Returned after /\
    isInReadList target after = false /\
    (forall x, x <> target -> isInReadList x after = isInReadList x st).
Proof.
  intros Hl.
  pose proof (fun x => remove_membership now target x st Hl) as Hin.
  rewrite (remove_normal _ _ _ Hl) in Hin |- *.
  eexists. split; [reflexivity|]. cbn [stateOf] in Hin. split.
  - by rewrite Hin, String.eqb_refl.
  - intros x Hx. rewrite Hin. apply String.eqb_neq in Hx. by rewrite Hx.
Qed.

(** X10.  [updateReadListNote] changes nothing when the id is not in the
    list.  When it is, the call throws, leaving the state as it was, if
    [String(note || '')] throws; otherwise it returns, no entry stays in
    note-edit mode, and the entries keep their places and fields, except
    that each entry with that id gets the note [String(note || '')], which
    for a string is that string (and an [addedAt] of [0] or [NaN] is read
    from the clock again). *)
Theorem note_updated (now : nat -> number) (target : string) (text : value) (st : State) :
  Forall normalEntry (readList st) ->
  (isInReadList target st = false -> updateReadListNote now target text st = Returned st) /\
  (isInReadList target st = true ->
     match Js.toString (Js.or text (JsStr EmptyString)) with
     | None => updateReadListNote now target text st = Threw st
     | Some printed =>
         exists after,
           updateReadListNote now target text st = Returned after /\
           readListEditingId after = EmptyString /\
           Forall2
             (fun old new =>
                id new = id old /\ title new = title old /\ absUrl new = absUrl old /\
                pdfUrl new = pdfUrl old /\ authors new = authors old /\
                source new = source old /\
                note new = (if String.eqb (id old) target then printed else note old) /\
                (isFalsyNumber (addedAt old) = false -> addedAt new = addedAt old))
             (readList st) (readList after)
     end) /\
  (forall s, text = JsStr s -> Js.toString (Js.or text (JsStr EmptyString)) = Some s).
Proof.
  intros Hl. split; [|split].
  - intros Hin. unfold updateReadListNote, isInReadList in *. by rewrite Hin.
  - intros Hin. unfold updateReadListNote. unfold isInReadList in Hin. rewrite Hin.
    cbn [negb]. destruct (Js.toString (Js.or text (JsStr EmptyString))) as [printed|];
      [|reflexivity].
    set (next := map _ (readList st)).
    assert (Hnext : Forall normalEntry next) by by apply withNote_normal.
    rewrite (setReadList_normal _ _ _ Hnext). eexists. split; [reflexivity|].
    split; [reflexivity|]. cbn [readList].
    pose proof (refreshed_same now next) as Hsame. subst next.
    apply Forall2_map_left in Hsame. eapply Forall2_impl; [exact Hsame|].
    intros old new. unfold sameId, sameEntry.
    destruct (String.eqb (id old) target); cbn [negb withNote id title absUrl pdfUrl
      authors source note addedAt]; intros (H1 & H2 & H3 & H4 & H5 & H6 & H7 & H8);
      by repeat split.
  - intros s ->. unfold Js.or. by destruct s.
Qed.

(** X11.  On a list of normal entries with truthy [addedAt] the operations
    return and are exact: [removeFromReadList] keeps just the entries with
    another id, in their order, and changes nothing when the id is not in
    the list; [addToReadList] appends the normalised entry to the entries
    with another id; removing the id just added gives back those entries;
    and the lists so obtained are of the same kind. *)
Theorem settled_operations (now now1 now2 : nat -> number) (target : string)
    (e : value) (n : entry) (st : State) :
  settled (readList st) ->
  normalizeReadListItem (now1 0) e = Some (Some n) ->
  isFalsyNumber (now1 0) = false ->
  exists removed added undone,
    removeFromReadList now target st = Returned removed /\
    addToReadList now1 now2 e st = Returned added /\
    removeFromReadList now (id n) added = Returned undone /\
    readList removed = others target (readList st) /\
    (isInReadList target st = false -> readList removed = readList st) /\
    readList added = (others (id n) (readList st) ++ [n])%list /\
    readList undone = others (id n) (readList st) /\
    settled (readList removed) /\
    settled (readList added).
Proof.
  intros Hs He Hnow.
  assert (Hn : settled [n]).
  { split; constructor; try done.
    - by apply normalizeReadListItem_normal in He.
    - by apply (normalizeReadListItem_addedAt (now1 0) e). }
  assert (Hnext : settled (others (id n) (readList st) ++ [n])%list).
  { destruct (others_settled (id n) _ Hs) as [H1 H2]. destruct Hn as [H3 H4].
    split; apply Forall_app; by split. }
  assert (Hundo : others (id n) (others (id n) (readList st) ++ [n])%list =
                  others (id n) (readList st)).
  { unfold others at 1. rewrite List.filter_app. simpl. unfold sameId at 2.
    rewrite String.eqb_refl. simpl. rewrite app_nil_r.
    apply ReadListScenario.others_all, others_ids. }
  set (added := {| readList := (others (id n) (readList st) ++ [n])%list;
                   readListEditingId := EmptyString |}).
  eexists _, added, _.
  split; [apply (remove_settled now target st Hs)|].
  split; [rewrite (add_accepted _ _ _ _ _ He); by apply setReadList_settled|].
  split; [apply (remove_settled now (id n) added Hnext)|].
  cbn [readList]. split; [reflexivity|]. split.
  { intros Hin. apply ReadListScenario.others_all.
    apply Forall_forall. intros x Hx%list_elem_of_In Hid.
    apply not_true_iff_false in Hin. apply Hin, isInReadList_ids, in_map_iff.
    by exists x. }
  split; [reflexivity|]. split; [exact Hundo|].
  split; [by apply others_settled | exact Hnext].
Qed.

End Claims.
End ReadListMoreClaims.

Module ReadListStateClaims.
Import Str StrFacts Normalize NormalizeFacts ReadListNormalize ReadList ReadListFacts.
Import ReadListInvariant ReadListButtons ReadListMore.

Section Claims.
Context `{JsNumbers number}.

Local Abbreviation value := (JsValue number).
Local Abbreviation entry := (ReadListEntry number).
Local Abbreviation State := (ReadList.State (number := number)).

Lemma normal_ids (l : list entry) :
  Forall normalEntry l -> ~ In EmptyString (map id l).
Proof.
  intros Hl Hin. apply in_map_iff in Hin as [e [He Hin]].
  rewrite Forall_forall in Hl.
  destruct (Hl e (proj2 (list_elem_of_In _ _) Hin)) as (_ & Hne & _). done.
Qed.

(** X12.  The entry in note-edit mode is always one of the list: if
    [readListEditingId] is empty or names an entry of the list, it still
    does after an add, a removal, a change of note and a clearing, whether
    the call returns or throws. *)
Theorem editing_stays_listed (now1 now2 : nat -> number) (e text : value)
    (target : string) (st : State) :
  Forall normalEntry (readList st) -> editingListed st ->
  editingListed (stateOf (addToReadList now1 now2 e st)) /\
  editingListed (stateOf (removeFromReadList now1 target st)) /\
  editingListed (stateOf (updateReadListNote now1 target text st)) /\
  editingListed (clearReadList st).
Proof.
  intros Hl Hed. repeat apply conj.
  - destruct (normalizeReadListItem (now1 0) e) as [[n|]|] eqn:He.
    + left. by rewrite (add_normal _ _ _ _ _ Hl He).
    + by rewrite add_rejected.
    + by rewrite add_thrown.
  - unfold editingListed.
    pose proof (remove_membership now1 target (readListEditingId st) st Hl) as Hin.
    rewrite (remove_normal _ _ _ Hl) in Hin |- *. cbn [stateOf] in *.
    unfold isInReadList in *. cbn [readList readListEditingId] in *. unfold sameId in *.
    destruct (String.eqb (readListEditingId st) target) eqn:E; [by left|].
    destruct Hed as [Hed|Hed]; [by left|]. right. by rewrite Hin.
  - unfold updateReadListNote. cbv zeta.
    destruct (negb (existsb _ (readList st))); [done|].
    destruct (Js.toString (Js.or text (JsStr EmptyString))) as [printed|]; [|done].
    left. rewrite setReadList_normal; [done | by apply withNote_normal].
  - by left.
Qed.

(** X13.  The two ways the page tells whether an article is in the read
    list agree: [updateReadListButtons] marks a button active exactly when
    [isInReadList] holds of its article id. *)
Theorem buttons_show_membership (attribute : option string) (st : State) :
  Forall normalEntry (readList st) ->
  buttonActive attribute st = isInReadList (default EmptyString attribute) st.
Proof.
  intros Hl. unfold buttonActive. cbv zeta. apply eq_true_iff_eq.
  rewrite andb_true_iff, bool_decide_eq_true, elem_of_list_to_set, list_elem_of_In.
  rewrite isInReadList_ids, nonEmpty_true. split; [by intros [_ ?]|].
  intros Hin. split; [|done]. intros E. rewrite E in Hin. by apply (normal_ids _ Hl).
Qed.

End Claims.
End ReadListStateClaims.

(** A read list with one paper, and a record to add to it. *)

Module ReadListWitnesses.
Import Normalize ReadList ReadListButtons ReadListInvariant ReadListMoreClaims.
Import ReadListStateClaims ReadListSample.

Lemma state_normal : Forall normalEntry (readList state).
Proof. repeat constructor; done. Qed.

Lemma state_settled : settled (readList state).
Proof. split; [apply state_normal | by repeat constructor]. Qed.

Lemma record_normalized : normalizeReadListItem (clock 0) record = Some (Some normalized).
Proof. vm_compute. reflexivity. Qed.

Lemma record_list : normalizeReadListItems clock (JsArr [record]) = Some [normalized].
Proof. vm_compute. reflexivity. Qed.

Lemma normalizeReadListItems_fixed_sample :
  normalizeReadListItems clock (JsArr (map entryValue [normalized])) = Some [normalized].
Proof.
  apply (normalizeReadListItems_fixed clock clock (JsArr [record])); [reflexivity|].
  exact record_list.
Defined.

Lemma added_is_listed_sample :
  match normalizeReadListItem (clock 0) record with
  | Some (Some n) =>
      exists after,
        addToReadList clock clock record state = Returned after /\
        isInReadList (id n) after = true /\
        (forall x, x <> id n -> isInReadList x after = isInReadList x state) /\
        readListEditingId after = EmptyString
  | Some None => addToReadList clock clock record state = Returned state
  | None => addToReadList clock clock record state = Threw state
  end.
Proof. exact (added_is_listed clock clock record state state_normal). Defined.

Lemma removed_is_unlisted_sample :
  exists after,
    removeFromReadList clock "2312.0009" state = Returned after /\
    isInReadList "2312.0009" after = false /\
    (forall x, x <> "2312.0009" -> isInReadList x after = isInReadList x state).
Proof. exact (removed_is_unlisted clock "2312.0009" state state_normal). Defined.

Lemma note_updated_sample :
  exists after,
    updateReadListNote clock "2312.0009" (JsStr "read by Friday") state = Returned after /\
    readListEditingId after = EmptyString /\
    Forall2
      (fun old new =>
         id new = id old /\ title new = title old /\ absUrl new = absUrl old /\
         pdfUrl new = pdfUrl old /\ authors new = authors old /\
         source new = source old /\
         note new = (if String.eqb (id old) "2312.0009" then "read by Friday"
                     else note old) /\
         (IntNumbers.isFalsy (addedAt old) = false -> addedAt new = addedAt old))
      (readList state) (readList after).
Proof.
  exact (proj1 (proj2 (note_updated clock "2312.0009" (JsStr "read by Friday") state
                         state_normal)) eq_refl).
Defined.

Lemma settled_operations_sample :
  exists removed added undone,
    removeFromReadList clock "2312.0009" state = Returned removed /\
    addToReadList clock clock record state = Returned added /\
    removeFromReadList clock (id normalized) added = Returned undone /\
    readList removed = others "2312.0009" (readList state) /\
    (isInReadList "2312.0009" state = false -> readList removed = readList state) /\
    readList added = (others (id normalized) (readList state) ++ [normalized])%list /\
    readList undone = others (id normalized) (readList state) /\
    settled (readList removed) /\
    settled (readList added).
Proof.
  exact (settled_operations clock clock clock "2312.0009" record normalized state
           state_settled record_normalized eq_refl).
Defined.

Lemma editing_stays_listed_sample :
  editingListed (stateOf (removeFromReadList clock "2312.0009" state)).
Proof.
  refine (proj1 (proj2 (editing_stays_listed clock clock record (JsStr "x") "2312.0009"
                          state state_normal _))).
  right. reflexivity.
Defined.

Lemma buttons_show_membership_sample :
  buttonActive (Some "2312.0009") state = isInReadList "2312.0009" state.
Proof. exact (buttons_show_membership (Some "2312.0009") state state_normal). Defined.

End ReadListWitnesses.

(* ===================================================================== *)
(** ** Expansion of article cards: toggling and pruning
       (script.js, 624-633 and 988-997) *)
(* ===================================================================== *)

Module ExpansionClaims.
Import Derivation ViewState ViewStateFacts.

(** X14.  Toggling a card twice gives back the expansion set.  One toggle
    of a card with an id flips the membership of that id and of no other;
    a card without an id changes nothing. *)
Theorem toggle_twice (attribute : option string) (expanded : Expanded) :
  togglePaperExpansion attribute (togglePaperExpansion attribute expanded) = expanded /\
  (forall paperId, attribute = Some paperId -> paperId <> EmptyString ->
     (paperId ∈ togglePaperExpansion attribute expanded <-> paperId ∉ expanded) /\
     (forall other, other <> paperId ->
        (other ∈ togglePaperExpansion attribute expanded <-> other ∈ expanded))) /\
  (default EmptyString attribute = EmptyString ->
     togglePaperExpansion attribute expanded = expanded).
Proof.
  unfold togglePaperExpansion. cbv zeta.
  destruct (nonEmpty (default EmptyString attribute)) eqn:E; simpl.
  - split; [|split].
    + destruct (bool_decide_reflect (default EmptyString attribute ∈ expanded)) as [Hin|Hnin].
      * rewrite bool_decide_eq_false_2
          by (intros [_ Hn]%elem_of_difference; apply Hn; by apply elem_of_singleton).
        apply set_eq. intros x. rewrite elem_of_union, elem_of_difference, elem_of_singleton.
        split; [intros [[? _]| ->]; done|]. intros Hx.
        destruct (decide (x = default EmptyString attribute)); [by right | by left].
      * rewrite bool_decide_eq_true_2
          by (apply elem_of_union; right; by apply elem_of_singleton).
        apply set_eq. intros x. rewrite elem_of_difference, elem_of_union, elem_of_singleton.
        split; [intros [[?| ->] Hne]; done|]. intros Hx. split; [by left|].
        intros ->. done.
    + intros paperId -> Hne. simpl.
      destruct (bool_decide_reflect (paperId ∈ expanded)) as [Hin|Hnin]; split.
      * rewrite elem_of_difference, elem_of_singleton. split; [by intros [_ ?] | done].
      * intros other Ho. rewrite elem_of_difference, elem_of_singleton.
        split; [by intros [? _] | done].
      * rewrite elem_of_union, elem_of_singleton. split; [done | by right].
      * intros other Ho. rewrite elem_of_union, elem_of_singleton.
        split; [by intros [?|?] | by left].
    + intros E'. rewrite E' in E. discriminate E.
  - rewrite ?E. simpl. split; [done|]. split; [|done].
    intros paperId -> Hne. simpl in E. apply nonEmpty_spec in Hne. congruence.
Qed.

(** X15.  Pruning keeps exactly the expanded ids that are the non-empty id
    of an article of the collection; it only removes ids, pruning again
    changes nothing more, and an empty collection leaves nothing
    expanded. *)
Theorem prune_keeps_articles (articles : list Article) (expanded : Expanded) :
  (forall x, x ∈ pruneExpandedArticles articles expanded <->
     x ∈ expanded /\ x <> EmptyString /\ exists a, In a articles /\ articleId a = x) /\
  pruneExpandedArticles articles expanded ⊆ expanded /\
  pruneExpandedArticles articles (pruneExpandedArticles articles expanded) =
    pruneExpandedArticles articles expanded /\
  pruneExpandedArticles [] expanded = ∅.
Proof.
  assert (Hin : forall l x, x ∈ pruneExpandedArticles l expanded <->
     x ∈ expanded /\ x <> EmptyString /\ exists a, In a l /\ articleId a = x).
  { intros l x. unfold pruneExpandedArticles. cbv zeta.
    rewrite elem_of_filter, elem_of_list_to_set, list_elem_of_In, filter_In.
    rewrite in_map_iff, nonEmpty_spec. split.
    - intros [[[a [Ha Hin]] Hne] Hx]. split; [done|]. split; [done|]. by exists a.
    - intros (Hx & Hne & a & Hin & Ha). split; [|done]. split; [|done]. by exists a. }
  split; [apply Hin|]. split; [|split].
  - intros x Hx. by apply Hin in Hx as [Hx _].
  - apply set_eq. intros x. unfold pruneExpandedArticles at 1. cbv zeta.
    rewrite elem_of_filter. split; [by intros [_ ?]|]. intros Hx. split; [|done].
    apply Hin in Hx as (_ & Hne & a & Ha & <-).
    rewrite elem_of_list_to_set, list_elem_of_In, filter_In, in_map_iff, nonEmpty_spec.
    split; [by exists a | done].
  - apply set_eq. intros x. rewrite Hin. split.
    + by intros (_ & _ & a & [] & _).
    + intros Hx. by apply elem_of_empty in Hx.
Qed.

End ExpansionClaims.

(* ===================================================================== *)
(** ** The filters: the earlier keyword filter
       (src/unnamed/part_000, 486-493; part_001, 725-732) *)
(* ===================================================================== *)


Module FilterFacts.
Import Str StrFacts Derivation.

(** The entries a filter matches with: lower-cased, the empty ones left
    out. *)
Definition wanted (l : list string) : list string :=
  List.filter nonEmpty (map toLowerCase l).

Definition favoriteMatch (favorites : list string) (a : Article) : bool :=
  existsb (fun fav => existsb (fun author => includes author fav)
                              (map toLowerCase (authors a))) favorites.

Definition keywordMatch (needles : list string) (a : Article) : bool :=
  let tags := match keywords a with Some tags => map toLowerCase tags | None => [] end in
  match tags with
  | _ :: _ => existsb (fun needle => arrayIncludes tags needle) needles
  | [] => existsb (fun needle =>
            includes (toLowerCase (title a +:+ " " +:+ abstract a)) needle) needles
  end.

Definition textMatch (needles : list string) (a : Article) : bool :=
  existsb (fun needle =>
    includes (toLowerCase (title a +:+ " " +:+ abstract a)) needle) needles.

Lemma filter_never {A : Type} (p : A -> bool) (l : list A) :
  (forall x, p x = false) -> List.filter p l = [].
Proof.
  intros Hp. induction l as [|x l IH]; [done|]. simpl. by rewrite Hp.
Qed.

Lemma filterByFavoriteAuthors_filter (A : list Article) (F : list string) :
  filterByFavoriteAuthors A (Some F) = List.filter (favoriteMatch (wanted F)) A.
Proof.
  unfold filterByFavoriteAuthors, wanted. simpl default.
  destruct (List.filter nonEmpty (map toLowerCase F)); [|reflexivity].
  symmetry. by apply filter_never.
Qed.

Lemma filterByKeywords_filter (A : list Article) (K : list string) :
  filterByKeywords A (Some K) = List.filter (keywordMatch (wanted K)) A.
Proof.
  unfold filterByKeywords, wanted. simpl default.
  destruct (List.filter nonEmpty (map toLowerCase K)) as [|k needles].
  - symmetry. apply filter_never. intros a. unfold keywordMatch.
    destruct (keywords a) as [[|t tags]|]; reflexivity.
  - apply filter_ext. intros a. unfold keywordMatch. cbv zeta.
    destruct (keywords a) as [[|t tags]|]; reflexivity.
Qed.

Lemma earlier_filter (A : list Article) (K : list string) :
  EarlierVariant.filterByKeywords A (Some K) = List.filter (textMatch (wanted K)) A.
Proof.
  unfold EarlierVariant.filterByKeywords, wanted. simpl default.
  destruct (List.filter nonEmpty (map toLowerCase K)); [|reflexivity].
  symmetry. by apply filter_never.
Qed.

Lemma wanted_app (l k : list string) : wanted (l ++ k) = (wanted l ++ wanted k)%list.
Proof. unfold wanted. by rewrite map_app, List.filter_app. Qed.

Lemma favoriteMatch_app (l k : list string) (a : Article) :
  favoriteMatch (l ++ k) a = favoriteMatch l a || favoriteMatch k a.
Proof. unfold favoriteMatch. apply existsb_app. Qed.

Lemma keywordMatch_app (l k : list string) (a : Article) :
  keywordMatch (l ++ k) a = keywordMatch l a || keywordMatch k a.
Proof.
  unfold keywordMatch.
  destruct (keywords a) as [[|t tags]|]; apply existsb_app.
Qed.

Lemma lower_unit_idem (c : ascii) : lower_unit (lower_unit c) = lower_unit c.
Proof. destruct c as [[] [] [] [] [] [] [] []]; reflexivity. Qed.

Lemma toLowerCase_idem (s : string) : toLowerCase (toLowerCase s) = toLowerCase s.
Proof.
  induction s as [|c s IH]; [done|]. simpl. by rewrite lower_unit_idem, IH.
Qed.

Lemma wanted_lower (l : list string) : wanted (map toLowerCase l) = wanted l.
Proof.
  unfold wanted. rewrite map_map. f_equal. apply map_ext. intros s. apply toLowerCase_idem.
Qed.

End FilterFacts.

Module FilterClaims.
Import Str StrFacts Derivation DerivationFacts KeywordFacts FilterFacts.

Lemma filter_or {A : Type} (p q : A -> bool) (l : list A) (x : A) :
  In x (List.filter (fun y => p y || q y) l) <->
  In x (List.filter p l) \/ In x (List.filter q l).
Proof. rewrite !filter_In, orb_true_iff. tauto. Qed.

Lemma filter_length_le {A : Type} (p : A -> bool) (l : list A) :
  length (List.filter p l) <= length l.
Proof. induction l as [|x l IH]; simpl; [lia|]. destruct (p x); simpl; lia. Qed.

(** X16.  Both filters work article by article and entry by entry: the
    result on two collections put together is the two results put together;
    an article is returned for two lists of entries put together exactly
    when it is returned for one of them; and no result is longer than the
    collection. *)
Theorem filters_compose (A B : list Article) (L L' : list string) :
  filterByFavoriteAuthors (A ++ B) (Some L) =
    (filterByFavoriteAuthors A (Some L) ++ filterByFavoriteAuthors B (Some L))%list /\
  filterByKeywords (A ++ B) (Some L) =
    (filterByKeywords A (Some L) ++ filterByKeywords B (Some L))%list /\
  (forall a, In a (filterByFavoriteAuthors A (Some (L ++ L')%list)) <->
     In a (filterByFavoriteAuthors A (Some L)) \/ In a (filterByFavoriteAuthors A (Some L'))) /\
  (forall a, In a (filterByKeywords A (Some (L ++ L')%list)) <->
     In a (filterByKeywords A (Some L)) \/ In a (filterByKeywords A (Some L'))) /\
  length (filterByFavoriteAuthors A (Some L)) <= length A /\
  length (filterByKeywords A (Some L)) <= length A.
Proof.
  rewrite !filterByFavoriteAuthors_filter, !filterByKeywords_filter, !wanted_app.
  repeat apply conj.
  - apply List.filter_app.
  - apply List.filter_app.
  - intros a. rewrite <- filter_or. rewrite !filter_In.
    by rewrite favoriteMatch_app.
  - intros a. rewrite <- filter_or. rewrite !filter_In.
    by rewrite keywordMatch_app.
  - apply filter_length_le.
  - apply filter_length_le.
Qed.

(** X17.  The filters do not look at the case of the entries: two lists
    with the same lower-cased entries give the same results. *)
Theorem filters_ignore_case (A : list Article) (L L' : list string) :
  map toLowerCase L = map toLowerCase L' ->
  filterByFavoriteAuthors A (Some L) = filterByFavoriteAuthors A (Some L') /\
  filterByKeywords A (Some L) = filterByKeywords A (Some L').
Proof.
  intros E. rewrite !filterByFavoriteAuthors_filter, !filterByKeywords_filter.
  unfold wanted. by rewrite E.
Qed.

Lemma filters_ignore_case_malik :
  filterByFavoriteAuthors [Examples.p1; Examples.p2] (Some ["MALIK"; "Ada LOVELACE"]) =
  filterByFavoriteAuthors [Examples.p1; Examples.p2] (Some ["malik"; "ada lovelace"]) /\
  filterByKeywords [Examples.p1; Examples.p2] (Some ["MALIK"; "Ada LOVELACE"]) =
  filterByKeywords [Examples.p1; Examples.p2] (Some ["malik"; "ada lovelace"]).
Proof. apply filters_ignore_case. reflexivity. Defined.

(** X18.  On a collection in which no article carries keyword tags, the
    keyword filter returns what the keyword filter of the earlier variants
    of the script returns. *)
Theorem filterByKeywords_as_before (A : list Article) (K : option (list string)) :
  Forall (fun a => explicitTags a = []) A ->
  filterByKeywords A K = EarlierVariant.filterByKeywords A K.
Proof.
  intros HA. destruct K as [K|]; [|reflexivity].
  rewrite filterByKeywords_filter, earlier_filter.
  induction HA as [|a A Ha _ IH]; [done|]. simpl. rewrite IH.
  assert (E : keywordMatch (wanted K) a = textMatch (wanted K) a).
  { unfold keywordMatch, textMatch, explicitTags in *.
    destruct (keywords a) as [[|t tags]|]; [done | discriminate Ha | done]. }
  by rewrite E.
Qed.

Lemma filterByKeywords_as_before_untagged :
  filterByKeywords [Examples.p1; Examples.p2] (Some ["diffusion"]) =
  EarlierVariant.filterByKeywords [Examples.p1; Examples.p2] (Some ["diffusion"]).
Proof. apply filterByKeywords_as_before. by repeat constructor. Defined.

End FilterClaims.

(* ===================================================================== *)
(** ** Grouping: the shape of the result *)
(* ===================================================================== *)

Module GroupedFacts.
Import Derivation Grouping JsMapFacts GroupingFacts.

(** The articles filed under a key. *)
Definition keyIs {X : Type} (key : X -> string) (k : string) (x : X) : bool :=
  String.eqb (key x) k.

Lemma get_None_keys {V : Type} (k : string) (m : JsMap.t V) :
  JsMap.get k m = None <-> ~ In k (map fst m).
Proof.
  induction m as [|[k' v] m IH]; simpl; [tauto|].
  destruct (String.eqb_spec k' k) as [->|Hne].
  - split; [discriminate | tauto].
  - rewrite IH. tauto.
Qed.

Lemma upsert_keys {V : Type} (k : string) (init : V) (g : V -> V) (m : JsMap.t V) :
  map fst (upsert k init g m) =
  if JsMap.has k m then map fst m else (map fst m ++ [k])%list.
Proof.
  unfold JsMap.has.
  destruct (upsert_spec k init g m) as [[Hn ->]|(m1 & old & m2 & -> & Hn & ->)].
  - by rewrite Hn, map_app.
  - rewrite (get_app_hit _ _ _ _ Hn). by rewrite !map_app.
Qed.

Lemma upsert_entries {V : Type} (k : string) (init : V) (g : V -> V) (m : JsMap.t V) :
  NoDup (map fst m) ->
  forall kv, In kv (upsert k init g m) ->
    (kv.1 <> k /\ In kv m) \/
    (kv = (k, g init) /\ JsMap.get k m = None) \/
    (exists old, kv = (k, g old) /\ In (k, old) m).
Proof.
  intros Hnd kv Hin.
  destruct (upsert_spec k init g m) as [[Hn E]|(m1 & old & m2 & -> & Hn & E)];
    rewrite E in Hin; clear E.
  - apply in_app_or in Hin as [Hin|[<-|[]]]; [left | right; left; done].
    split; [|done]. intros <-. apply get_None_keys in Hn. apply Hn.
    apply in_map_iff. by exists kv.
  - assert (Hother : forall kv', In kv' m1 \/ In kv' m2 -> kv'.1 <> k).
    { intros kv' Hkv' <-. rewrite map_app in Hnd. simpl in Hnd.
      apply NoDup_app in Hnd as (_ & Hleft & Hright).
      apply NoDup_cons in Hright as [Hright _].
      destruct Hkv' as [H1|H2].
      - apply (Hleft kv'.1); [|by left].
        apply list_elem_of_In, in_map_iff. by exists kv'.
      - apply Hright, list_elem_of_In, in_map_iff. by exists kv'. }
    apply in_app_or in Hin as [Hin|[<-|Hin]].
    + left. split; [apply Hother; by left|]. apply in_or_app. by left.
    + right. right. exists old. split; [done|]. apply in_or_app. right. by left.
    + left. split; [apply Hother; by right|]. apply in_or_app. right. by right.
Qed.

Lemma filter_snoc_hit {X : Type} (p : X -> bool) (l : list X) (a : X) :
  p a = true -> List.filter p (l ++ [a]) = (List.filter p l ++ [a])%list.
Proof. intros Hp. rewrite List.filter_app. simpl. by rewrite Hp. Qed.

Lemma filter_snoc_miss {X : Type} (p : X -> bool) (l : list X) (a : X) :
  p a = false -> List.filter p (l ++ [a]) = List.filter p l.
Proof. intros Hp. rewrite List.filter_app. simpl. by rewrite Hp, app_nil_r. Qed.

Lemma filter_none {X : Type} (p : X -> bool) (l : list X) :
  (forall x, In x l -> p x = false) -> List.filter p l = [].
Proof.
  induction l as [|x l IH]; simpl; [done|]. intros Hl.
  rewrite (Hl x (or_introl eq_refl)). apply IH. intros y Hy. apply Hl. by right.
Qed.

Lemma filter_filter_and {X : Type} (p q : X -> bool) (l : list X) :
  List.filter q (List.filter p l) = List.filter (fun x => p x && q x) l.
Proof.
  induction l as [|x l IH]; simpl; [done|].
  destruct (p x); simpl; [|done]. destruct (q x); by rewrite IH.
Qed.

Section Grouped.
Context {X V : Type}.
Variable key : X -> string.
(** [P l v]: the entry [v] of a key holds the elements [l] filed under it. *)
Variable P : list X -> V -> Prop.
Variable init : V.
Variable f : X -> V -> V.
Hypothesis P_init : P [] init.
Hypothesis P_step : forall l v a, P l v -> P (l ++ [a])%list (f a v).

(** A map filled from [A]: its keys are distinct, they are the keys of the
    elements of [A], and each entry holds the elements of its key, in the
    order of [A]. *)
Definition Grouped (A : list X) (m : JsMap.t V) : Prop :=
  NoDup (map fst m) /\
  (forall a, In a A -> In (key a) (map fst m)) /\
  Forall (fun kv : string * V =>
            List.filter (keyIs key kv.1) A <> [] /\
            P (List.filter (keyIs key kv.1) A) kv.2) m.

Lemma Grouped_nil : Grouped [] [].
Proof. split; [constructor|]. split; [by intros a []|constructor]. Qed.

Lemma Grouped_step (A : list X) (m : JsMap.t V) (a : X) :
  Grouped A m -> Grouped (A ++ [a])%list (upsert (key a) init (f a) m).
Proof.
  intros (Hnd & Hcover & Hall). split; [|split].
  - rewrite upsert_keys. unfold JsMap.has.
    destruct (JsMap.get (key a) m) eqn:E; [done|].
    apply get_None_keys in E.
    apply NoDup_app. split; [done|]. split; [|apply NoDup_singleton].
    intros k Hk Hk'. apply list_elem_of_In in Hk, Hk'.
    destruct Hk' as [<-|[]]. by apply E.
  - intros a' Ha'. rewrite upsert_keys. unfold JsMap.has.
    apply in_app_or in Ha' as [Ha'|[<-|[]]].
    + destruct (JsMap.get (key a) m); [by apply Hcover|].
      apply in_or_app. left. by apply Hcover.
    + destruct (JsMap.get (key a) m) eqn:E.
      * destruct (in_dec String.string_dec (key a) (map fst m)) as [Hin|Hout]; [done|].
        apply get_None_keys in Hout. congruence.
      * apply in_or_app. right. by left.
  - apply Forall_forall. intros kv Hkv%list_elem_of_In.
    rewrite Forall_forall in Hall.
    destruct (upsert_entries _ _ _ _ Hnd kv Hkv)
      as [[Hne Hin]|[[-> Hn]|(old & -> & Hin)]].
    + assert (Hmiss : keyIs key kv.1 a = false).
      { unfold keyIs. apply String.eqb_neq. congruence. }
      rewrite (filter_snoc_miss _ _ _ Hmiss). by apply Hall, list_elem_of_In.
    + assert (Hhit : keyIs key (key a) a = true) by apply String.eqb_refl.
      simpl. rewrite (filter_snoc_hit _ _ _ Hhit).
      assert (Hempty : List.filter (keyIs key (key a)) A = []).
      { apply filter_none. intros x Hx. unfold keyIs. apply String.eqb_neq.
        intros Hk. apply get_None_keys in Hn. apply Hn. rewrite <- Hk. by apply Hcover. }
      rewrite Hempty. split; [done|]. by apply (P_step [] init a).
    + assert (Hhit : keyIs key (key a) a = true) by apply String.eqb_refl.
      simpl. rewrite (filter_snoc_hit _ _ _ Hhit).
      destruct (Hall _ (proj2 (list_elem_of_In _ _) Hin)) as [_ Hold]. simpl in Hold.
      split; [|by apply P_step].
      intros Habs. by apply app_eq_nil in Habs as [_ ?].
Qed.

Lemma Grouped_fold (A0 A : list X) (m : JsMap.t V) :
  Grouped A0 m ->
  Grouped (A0 ++ A)%list (fold_left (fun m a => upsert (key a) init (f a) m) A m).
Proof.
  revert A0 m. induction A as [|a A IH]; intros A0 m Hm; simpl.
  - by rewrite app_nil_r.
  - replace (A0 ++ a :: A)%list with ((A0 ++ [a]) ++ A)%list
      by (by rewrite <- app_assoc).
    by apply IH, Grouped_step.
Qed.

End Grouped.

(** The buckets of a section, and the sections. *)
Definition GroupedSubjects : list Article -> JsMap.t (list Article) -> Prop :=
  Grouped subjectKeyOf (fun l bucket => bucket = l).

Definition GroupedSections : list Article -> Buckets -> Prop :=
  Grouped sectionKeyOf GroupedSubjects.

Lemma subjects_step (l : list Article) (v : JsMap.t (list Article)) (a : Article) :
  GroupedSubjects l v ->
  GroupedSubjects (l ++ [a])%list
    (upsert (subjectKeyOf a) [] (fun bucket => (bucket ++ [a])%list) v).
Proof.
  apply (Grouped_step subjectKeyOf (fun l bucket => bucket = l) []
           (fun a bucket => (bucket ++ [a])%list)); [done|].
  by intros l' v' a' ->.
Qed.

Lemma fold_grouped (A : list Article) :
  GroupedSections A (fold_left addArticle A []).
Proof.
  pose proof (Grouped_fold sectionKeyOf GroupedSubjects []
    (fun a v => upsert (subjectKeyOf a) [] (fun bucket => (bucket ++ [a])%list) v)
    (Grouped_nil _ _) subjects_step [] A [] (Grouped_nil _ _)) as H.
  exact H.
Qed.

(** *** Sorting *)

Lemma insertSorted_Sorted {X : Type} (compare : X -> X -> Z) (x : X) (l : list X) :
  (forall a b, (compare a b <= 0)%Z \/ (compare b a <= 0)%Z) ->
  Sorted (fun a b => (compare a b <= 0)%Z) l ->
  Sorted (fun a b => (compare a b <= 0)%Z) (insertSorted compare x l).
Proof.
  intros Htotal. induction l as [|y l IH]; intros Hs; simpl.
  - by repeat constructor.
  - destruct (Z.leb_spec (compare x y) 0) as [Hle|Hgt].
    + constructor; [done|]. by constructor.
    + apply Sorted_inv in Hs as [Hs Hhd]. constructor; [by apply IH|].
      assert (Hyx : (compare y x <= 0)%Z) by (destruct (Htotal x y); [lia|done]).
      destruct l as [|z l]; simpl; [by constructor|].
      destruct (compare x z <=? 0)%Z; constructor; [done|].
      by apply HdRel_inv in Hhd.
Qed.

Lemma sort_Sorted {X : Type} (compare : X -> X -> Z) (l : list X) :
  (forall a b, (compare a b <= 0)%Z \/ (compare b a <= 0)%Z) ->
  Sorted (fun a b => (compare a b <= 0)%Z) (sort compare l).
Proof.
  intros Htotal. induction l as [|x l IH]; simpl; [constructor|].
  by apply insertSorted_Sorted.
Qed.

Lemma Sorted_keys {V : Type} (R : string -> string -> Prop) (l : list (string * V)) :
  Sorted (fun a b => R a.1 b.1) l -> Sorted R (map fst l).
Proof.
  induction 1 as [|kv l _ IH Hhd]; simpl; constructor; [done|].
  destruct Hhd; simpl; by constructor.
Qed.

End GroupedFacts.

Module GroupedClaims.
Import Derivation Grouping JsMapFacts GroupingFacts GroupedFacts.

Section Claims.
Variable localeCompare : string -> string -> Z.

Lemma section_labels (mk : string * JsMap.t (list Article) -> SectionGroup)
    (l : list (string * JsMap.t (list Article))) :
  (forall kv, sectionLabel (mk kv) = kv.1) -> map sectionLabel (map mk l) = map fst l.
Proof. intros Hmk. rewrite map_map. apply map_ext. exact Hmk. Qed.

Lemma subject_labels (mk : string * list Article -> SubjectGroup)
    (l : list (string * list Article)) :
  (forall kb, subjectLabel (mk kb) = kb.1) -> map subjectLabel (map mk l) = map fst l.
Proof. intros Hmk. rewrite map_map. apply map_ext. exact Hmk. Qed.

(** X19.  The result of [buildSectionGrouping] has one section for each
    section name and, in a section, one subject group for each subject name:
    no label occurs twice, no section and no group is empty, and a group
    holds exactly the articles of its section and subject, in the order of
    the input. *)
Theorem buildSectionGrouping_groups (A : list Article) :
  let G := buildSectionGrouping localeCompare A in
  NoDup (map sectionLabel G) /\
  Forall (fun g =>
    subjects g <> [] /\
    NoDup (map subjectLabel (subjects g)) /\
    Forall (fun s =>
      items s <> [] /\
      items s =
        List.filter (fun a => String.eqb (sectionKeyOf a) (sectionLabel g) &&
                              String.eqb (subjectKeyOf a) (subjectLabel s)) A)
      (subjects g)) G.
Proof.
  cbv zeta. unfold buildSectionGrouping.
  set (sections := fold_left addArticle A []).
  set (mk := fun '(sectionName, subjectMap) => _).
  destruct (fold_grouped A) as (Hnd & _ & Hall). fold sections in Hnd, Hall.
  split.
  - rewrite (section_labels mk) by (by intros [name sm]).
    assert (Hp : map fst (sort (byKey localeCompare) sections) ≡ₚ map fst sections)
      by apply Permutation_map, sort_perm.
    by rewrite Hp.
  - apply Forall_forall. intros g Hg%list_elem_of_In.
    apply in_map_iff in Hg as [[name sm] [<- Hkv]].
    apply (Permutation_in _ (sort_perm _ _)) in Hkv.
    rewrite Forall_forall in Hall.
    destruct (Hall _ (proj2 (list_elem_of_In _ _) Hkv)) as [Hsome Hsm].
    simpl in Hsome, Hsm. destruct Hsm as (Hnd' & Hcover & Hbuckets). simpl.
    set (mks := fun '(subjectName, items) => _).
    split; [|split].
    + destruct (List.filter (keyIs sectionKeyOf name) A) as [|a rest] eqn:E; [done|].
      specialize (Hcover a (or_introl eq_refl)).
      intros Habs. apply map_eq_nil in Habs.
      assert (Hlen : length (sort (byKey localeCompare) sm) = length sm)
        by apply Permutation_length, sort_perm.
      rewrite Habs in Hlen. destruct sm; [by destruct Hcover | discriminate Hlen].
    + rewrite (subject_labels mks) by (by intros [sname bucket]).
      assert (Hp : map fst (sort (byKey localeCompare) sm) ≡ₚ map fst sm)
        by apply Permutation_map, sort_perm.
      by rewrite Hp.
    + apply Forall_forall. intros s Hs%list_elem_of_In.
      apply in_map_iff in Hs as [[sname bucket] [<- Hkb]].
      apply (Permutation_in _ (sort_perm _ _)) in Hkb.
      rewrite Forall_forall in Hbuckets.
      destruct (Hbuckets _ (proj2 (list_elem_of_In _ _) Hkb)) as [Hne Hb].
      simpl in Hne, Hb |- *. rewrite filter_filter_and in Hne, Hb.
      split; [by rewrite Hb | exact Hb].
Qed.

Hypothesis localeCompare_total :
  forall a b, (localeCompare a b <= 0)%Z \/ (localeCompare b a <= 0)%Z.

(** X20.  When [localeCompare] compares every two strings one way or the
    other, the sections of the result come in its order, and so do the
    subject groups of each section. *)
Theorem buildSectionGrouping_sorted (A : list Article) :
  let G := buildSectionGrouping localeCompare A in
  Sorted (fun a b => (localeCompare a b <= 0)%Z) (map sectionLabel G) /\
  Forall (fun g =>
    Sorted (fun a b => (localeCompare a b <= 0)%Z) (map subjectLabel (subjects g))) G.
Proof.
  cbv zeta. unfold buildSectionGrouping.
  set (sections := fold_left addArticle A []).
  set (mk := fun '(sectionName, subjectMap) => _).
  split.
  - rewrite (section_labels mk) by (by intros [name sm]).
    apply Sorted_keys. apply (sort_Sorted (byKey localeCompare)).
    intros a b. apply localeCompare_total.
  - apply Forall_forall. intros g Hg%list_elem_of_In.
    apply in_map_iff in Hg as [[name sm] [<- _]]. simpl.
    set (mks := fun '(subjectName, items) => _).
    rewrite (subject_labels mks) by (by intros [sname bucket]).
    apply Sorted_keys. apply (sort_Sorted (byKey localeCompare)).
    intros a b. apply localeCompare_total.
Qed.

End Claims.

Import GroupingSample.

Lemma byCodeUnits_total (a b : string) :
  (byCodeUnits a b <= 0)%Z \/ (byCodeUnits b a <= 0)%Z.
Proof.
  unfold byCodeUnits. rewrite (String.compare_antisym a b).
  destruct (String.compare b a); simpl; lia.
Qed.

Lemma buildSectionGrouping_sorted_by_code_units :
  let G := buildSectionGrouping byCodeUnits
             [Examples.p1; Examples.p2; Examples.p3; Examples.p4] in
  Sorted (fun a b => (byCodeUnits a b <= 0)%Z) (map sectionLabel G) /\
  Forall (fun g =>
    Sorted (fun a b => (byCodeUnits a b <= 0)%Z) (map subjectLabel (subjects g))) G.
Proof. apply (buildSectionGrouping_sorted byCodeUnits byCodeUnits_total). Defined.

End GroupedClaims.

(* ===================================================================== *)
(** ** Saving to the storage (script.js, 1097-1145) and the handlers that
       save (212-220, 241-251) *)
(* ===================================================================== *)


Module SavingFacts.
Import Str StrFacts Normalize NormalizeFacts NormalizeClaims Persistence PersistenceFacts.
Import ViewState Saving.

Lemma setItem_same (key text : string) (storage : Storage) :
  setItem true key text storage key = Stored text.
Proof. unfold setItem. by rewrite String.eqb_refl. Qed.

Lemma setItem_other (accepted : bool) (key text other : string) (storage : Storage) :
  other <> key -> setItem accepted key text storage other = storage other.
Proof.
  intros Hne. unfold setItem. destruct accepted; [|done].
  apply String.eqb_neq in Hne. by rewrite Hne.
Qed.

Section Facts.
Context `{JsNumbers number}.

Lemma normalizeDisplayMode_fixed (m : string) :
  In m displayModes -> normalizeDisplayMode (number := number) (JsStr m) = m.
Proof. intros [<-|[<-|[<-|[]]]]; reflexivity. Qed.

Lemma hasSource_keys (payload : Payload (number := number)) (key : string) :
  Forall (fun kv => Js.truthy kv.2 = true) (sources payload) ->
  In key (map fst (sources payload)) -> hasSource payload key = true.
Proof.
  unfold hasSource. intros Hall Hin.
  induction (sources payload) as [|[k v] rest IH]; [by destruct Hin|].
  apply Forall_cons in Hall as [Hv Hrest]. simpl in Hv |- *.
  destruct (String.eqb_spec k key) as [->|Hne]; [done|].
  destruct Hin as [E|Hin]; [done|]. by apply IH.
Qed.

End Facts.
End SavingFacts.

Module SavingClaims.
Import Str StrFacts Normalize NormalizeFacts NormalizeClaims Persistence PersistenceFacts.
Import ReadList ReadListFacts ReadListButtons ReadListMore ViewState Saving SavingFacts.

Section Claims.
Context `{JsNumbers number}.

Local Abbreviation value := (JsValue number).
Local Abbreviation entry := (ReadListEntry number).

Variable JSON_parse : string -> option value.
Variable JSON_stringify : value -> string.

(** X21.  A display mode saved is the display mode loaded: after
    [saveDisplayMode(mode)] on a store that takes the entry, both
    [loadStoredDisplayMode()] and the mode the page starts with are
    [normalizeDisplayMode(mode)], which is one of the three modes and is
    left as it is by a second normalisation.  Whether the store takes the
    entry or not, the stored source, read list and preferences load as
    before. *)
Theorem saved_display_mode (accepted : bool) (mode : value) (storage : Storage)
    (now : nat -> number) (initial : Preferences) :
  loadStoredDisplayMode (number := number) (saveDisplayMode true mode storage) =
    normalizeDisplayMode mode /\
  initialDisplayMode (number := number) (saveDisplayMode true mode storage) =
    normalizeDisplayMode mode /\
  In (normalizeDisplayMode mode) displayModes /\
  normalizeDisplayMode (number := number) (JsStr (normalizeDisplayMode mode)) =
    normalizeDisplayMode mode /\
  loadStoredSource (saveDisplayMode accepted mode storage) = loadStoredSource storage /\
  loadStoredReadList JSON_parse now (saveDisplayMode accepted mode storage) =
    loadStoredReadList JSON_parse now storage /\
  loadStoredPreferences JSON_parse initial (saveDisplayMode accepted mode storage) =
    loadStoredPreferences JSON_parse initial storage.
Proof.
  pose proof (normalizeDisplayMode_mode mode) as Hmode.
  pose proof (mode_nonEmpty _ Hmode) as Hne.
  pose proof (normalizeDisplayMode_fixed (number := number) _ Hmode) as Hfix.
  assert (Hload : loadStoredDisplayMode (number := number) (saveDisplayMode true mode storage) =
                  normalizeDisplayMode mode).
  { unfold loadStoredDisplayMode, saveDisplayMode. by rewrite setItem_same, Hne, Hfix. }
  repeat apply conj; try done.
  - unfold initialDisplayMode. by rewrite Hload, Hne.
  - unfold loadStoredSource, saveDisplayMode. by rewrite setItem_other.
  - unfold loadStoredReadList, saveDisplayMode. by rewrite setItem_other.
  - unfold loadStoredPreferences, saveDisplayMode. by rewrite setItem_other.
Qed.

(** X22.  [setDisplayMode(mode)] leaves [state.displayMode] at
    [normalizeDisplayMode(mode)]; on a store that takes the entries, a page
    whose mode is the one it would start with keeps that property. *)
Theorem setDisplayMode_reloads (mode : value) (current : string) (storage : Storage) :
  initialDisplayMode (number := number) storage = current ->
  (forall accepted,
     (setDisplayMode accepted mode current storage).1 = normalizeDisplayMode mode) /\
  initialDisplayMode (number := number) (setDisplayMode true mode current storage).2 =
    (setDisplayMode true mode current storage).1.
Proof.
  intros Hinit. unfold setDisplayMode. cbv zeta. split.
  - intros accepted.
    by destruct (String.eqb_spec (normalizeDisplayMode mode) current) as [->|_].
  - destruct (String.eqb_spec (normalizeDisplayMode mode) current) as [E|_]; [done|].
    cbn [fst snd].
    pose proof (saved_mode := normalizeDisplayMode_mode mode).
    pose proof (mode_nonEmpty _ saved_mode) as Hne.
    pose proof (normalizeDisplayMode_fixed (number := number) _ saved_mode) as Hfix.
    unfold initialDisplayMode, loadStoredDisplayMode, saveDisplayMode.
    by rewrite setItem_same, Hfix, Hne, Hfix, Hne.
Qed.

(** X23.  The click on a source button keeps two properties of the state:
    the current source is a property of [sources], and (on a store that
    takes the entries) it is the source the page would start with.  When the
    click changes the source, the new source is the one of the button and no
    article is left expanded; the state after the click does not depend on
    whether the store takes the entry. *)
Theorem source_reloads (payload : Payload (number := number)) (nextSource : string)
    (current : string * Expanded) (storage : Storage) :
  hasSource payload current.1 = true ->
  initialSource payload storage = Some current.1 ->
  let after := selectSource true payload nextSource current storage in
  hasSource payload after.1.1 = true /\
  initialSource payload after.2 = Some after.1.1 /\
  (after.1.1 <> current.1 -> after.1.1 = nextSource /\ after.1.2 = ∅) /\
  (forall accepted,
     (selectSource accepted payload nextSource current storage).1 = after.1).
Proof.
  intros Hcur Hinit. cbv zeta. unfold selectSource.
  destruct (nonEmpty nextSource) eqn:Hne; simpl; [|done].
  destruct (String.eqb_spec nextSource current.1) as [E|Hchange]; simpl; [done|].
  destruct (hasSource payload nextSource) eqn:Hhas; simpl; [|done].
  repeat apply conj; try done.
  unfold initialSource in *. destruct (map fst (sources payload)); [done|].
  unfold loadStoredSource, saveSource. by rewrite String.eqb_refl, Hhas.
Qed.

(** X24.  The start-up finds no source exactly when the payload has none,
    and when every source of the payload is truthy the source it finds is
    a property of [sources], whatever the store holds. *)
Theorem initialSource_valid (payload : Payload (number := number)) (storage : Storage) :
  Forall (fun kv => Js.truthy kv.2 = true) (sources payload) ->
  (initialSource payload storage = None <-> sources payload = []) /\
  (forall s, initialSource payload storage = Some s -> hasSource payload s = true).
Proof.
  intros Hall. split.
  - unfold initialSource. destruct (sources payload) as [|[k v] rest]; simpl; [done|].
    split; discriminate.
  - intros s. unfold initialSource.
    destruct (map fst (sources payload)) as [|first rest] eqn:E; [done|].
    intros [= <-].
    destruct (hasSource payload (loadStoredSource storage)) eqn:H1; [done|].
    destruct (nonEmpty (default_source payload)); simpl.
    + destruct (hasSource payload (default_source payload)) eqn:H2; [done|].
      apply hasSource_keys; [done|]. rewrite E. by left.
    + apply hasSource_keys; [done|]. rewrite E. by left.
Qed.

(** X25.  What is saved is what is loaded, for the two slices stored as
    JSON, on a store that takes the entry and for values that
    [JSON.stringify] and [JSON.parse] carry over: normalised preferences
    saved by [savePreferences] are loaded by [loadStoredPreferences], and
    a read list of normal entries with truthy [addedAt] saved by
    [saveReadList] is loaded by [loadStoredReadList], whatever the clocks
    and the declared defaults. *)
Theorem saved_slices_reload (prefs initial : Preferences) (list : list entry)
    (now now' : nat -> number) (storage : Storage) :
  cleanList (favorite_authors prefs) -> cleanList (keywords prefs) ->
  settled list ->
  (forall v, v = prefsValue prefs \/ v = JsArr (map entryValue list) ->
     JSON_stringify v <> EmptyString /\ JSON_parse (JSON_stringify v) = Some v) ->
  loadStoredPreferences JSON_parse initial
    (savePreferences JSON_stringify true prefs storage) = Some prefs /\
  loadStoredReadList JSON_parse now'
    (saveReadList JSON_stringify now true list storage) = list.
Proof.
  intros Hf Hk [Hn Ha] Hjson. split.
  - destruct (Hjson _ (or_introl eq_refl)) as [Hne Hparse].
    apply ReadListNormalize.nonEmpty_true in Hne.
    unfold loadStoredPreferences, savePreferences.
    rewrite setItem_same, Hne, Hparse. by rewrite normalizePreferences_stored.
  - destruct (Hjson _ (or_intror eq_refl)) as [Hne Hparse].
    apply ReadListNormalize.nonEmpty_true in Hne.
    unfold loadStoredReadList, saveReadList.
    rewrite (renormalize_list _ _ Hn), (refreshed_settled _ _ Ha).
    rewrite setItem_same, Hne, Hparse.
    by rewrite (renormalize_list _ _ Hn), (refreshed_settled _ _ Ha).
Qed.

End Claims.
End SavingClaims.


Module SavingWitnesses.
Import Str Normalize NormalizeFacts Persistence ReadList ReadListButtons ViewState Saving.
Import SavingSample.

Lemma setDisplayMode_reloads_title :
  (forall accepted,
     (setDisplayMode (number := IntNumbers.number) accepted (JsStr " Title ") "authors"
        emptyStore).1 = "title") /\
  initialDisplayMode (number := IntNumbers.number)
    (setDisplayMode (number := IntNumbers.number) true (JsStr " Title ") "authors"
       emptyStore).2 = "title".
Proof.
  exact (SavingClaims.setDisplayMode_reloads (number := IntNumbers.number)
           (JsStr " Title ") "authors" emptyStore eq_refl).
Defined.

Lemma source_reloads_switch :
  let after := selectSource true payload "cs.CL" page emptyStore in
  hasSource payload after.1.1 = true /\
  initialSource payload after.2 = Some after.1.1 /\
  (after.1.1 <> page.1 -> after.1.1 = "cs.CL" /\ after.1.2 = ∅) /\
  (forall accepted, (selectSource accepted payload "cs.CL" page emptyStore).1 = after.1).
Proof.
  exact (SavingClaims.source_reloads payload "cs.CL" page emptyStore eq_refl eq_refl).
Defined.

Lemma payload_sources :
  Forall (fun kv : string * JsValue IntNumbers.number => Js.truthy kv.2 = true)
    (sources payload).
Proof. by repeat constructor. Qed.

Lemma initialSource_valid_two_sources :
  (initialSource payload emptyStore = None <-> sources payload = []) /\
  (forall s, initialSource payload emptyStore = Some s -> hasSource payload s = true).
Proof. exact (SavingClaims.initialSource_valid payload emptyStore payload_sources). Defined.

Lemma prefs_clean : cleanList (favorite_authors prefs) /\ cleanList (keywords prefs).
Proof.
  split; (split; [apply (bool_decide_unpack _); by vm_compute | by repeat constructor]).
Qed.

Lemma listed_settled : settled [ReadListSample.listed].
Proof.
  split; repeat constructor; try done; by vm_compute.
Qed.

Lemma saved_slices_reload_sample :
  loadStoredPreferences parse prefs (savePreferences stringify true prefs emptyStore) =
    Some prefs /\
  loadStoredReadList parse ReadListSample.clock
    (saveReadList stringify ReadListSample.clock true [ReadListSample.listed] emptyStore) =
    [ReadListSample.listed].
Proof.
  apply (SavingClaims.saved_slices_reload parse stringify prefs prefs
           [ReadListSample.listed] ReadListSample.clock ReadListSample.clock emptyStore
           (proj1 prefs_clean) (proj2 prefs_clean) listed_settled).
  intros v [-> | ->]; split; try discriminate; reflexivity.
Defined.

End SavingWitnesses.

(* ===================================================================== *)
(** ** The clicks on the read-list controls (script.js, 635-692) *)
(* ===================================================================== *)


Module ReadListClickClaims.
Import Str StrFacts Normalize NormalizeFacts ReadListNormalize ReadList ReadListFacts.
Import ReadListInvariant ReadListButtons ReadListMore ReadListClicks.

Section Claims.
Context `{JsNumbers number}.

Local Abbreviation value := (JsValue number).
Local Abbreviation entry := (ReadListEntry number).
Local Abbreviation State := (ReadList.State (number := number)).

Lemma toggledEntry_id (articleId title url pdfUrl authors : string) (sourceLabel : value) :
  fieldText (Js.getProp (toggledEntry articleId title url pdfUrl authors sourceLabel) "id") =
  Some (trim articleId).
Proof. apply fieldText_string. Qed.

(** The normalisation of the entry of a toggle throws only on the label of
    the source. *)
Lemma toggledEntry_outcome (t : number) (articleId title url pdfUrl authors : string)
    (sourceLabel : value) :
  trim articleId = articleId -> articleId <> EmptyString ->
  match normalizeReadListItem t
          (toggledEntry articleId title url pdfUrl authors sourceLabel) with
  | Some (Some n) => id n = articleId /\ JsFacts.hidesToString sourceLabel = false
  | Some None => False
  | None => JsFacts.hidesToString sourceLabel = true
  end.
Proof.
  intros Htrim Hne.
  set (e := toggledEntry articleId title url pdfUrl authors sourceLabel).
  destruct (normalizeReadListItem t e) as [[n|]|] eqn:E.
  - pose proof E as Hkept.
    apply normalizeReadListItem_kept in Hkept
      as (_ & tt & added & Hi & _ & _ & _ & _ & _ & _ & Hso & _).
    subst e. rewrite toggledEntry_id, Htrim in Hi. split; [congruence|].
    destruct (JsFacts.hidesToString sourceLabel) eqn:Eh; [|done].
    apply fieldText_throws in Eh.
    change (Js.getProp (toggledEntry articleId title url pdfUrl authors sourceLabel) "source")
      with sourceLabel in Hso. congruence.
  - apply normalizeReadListItem_dropped in E as [E _]. subst e.
    rewrite toggledEntry_id, Htrim in E. congruence.
  - apply normalizeReadListItem_throws in E. subst e.
    destruct E as [E|[E|[_ [E|[E|[E|[E|E]]]]]]]; try discriminate E; try exact E.
    revert E. unfold toggledEntry.
    change (Js.getProp (JsObj ?l) "absUrl") with (JsStr (number := number) url).
    unfold Js.or. by destruct (Js.truthy (JsStr url)).
Qed.

(** X26.  A click on the read-list toggle of an article flips the
    membership of that article and of no other: when the id on the button
    is not empty and has no space around it, the click returns and the
    article is in the read list after it exactly when it was not before, and
    every other id is in the list exactly when it was.  The one exception
    is an article that is not in the list, on a page where [String] throws
    on the label of the source: the click then throws and leaves the state
    as it was. *)
Theorem toggle_flips_membership (now1 now2 : nat -> number)
    (articleId title url pdfUrl authors : string) (sourceLabel : value) (st : State) :
  Forall normalEntry (readList st) ->
  trim articleId = articleId -> articleId <> EmptyString ->
  let click := ToggleClick articleId title url pdfUrl authors sourceLabel in
  (isInReadList articleId st = false -> JsFacts.hidesToString sourceLabel = true ->
     handleReadListClick now1 now2 click st = Threw st) /\
  (isInReadList articleId st = true \/ JsFacts.hidesToString sourceLabel = false ->
     exists after,
       handleReadListClick now1 now2 click st = Returned after /\
       isInReadList articleId after = negb (isInReadList articleId st) /\
       (forall x, x <> articleId -> isInReadList x after = isInReadList x st)).
Proof.
  intros Hl Htrim Hne click. unfold click, handleReadListClick.
  rewrite (proj2 (nonEmpty_true articleId) Hne). cbn [negb].
  pose proof (toggledEntry_outcome (now1 0) articleId title url pdfUrl authors
                sourceLabel Htrim Hne) as Hout.
  destruct (isInReadList articleId st) eqn:Hin.
  - split; [done|]. intros _.
    pose proof (fun x => remove_membership now2 articleId x st Hl) as Hmem.
    rewrite (remove_normal _ _ _ Hl) in Hmem |- *. cbn [stateOf] in Hmem.
    eexists. split; [reflexivity|]. split.
    + by rewrite Hmem, String.eqb_refl.
    + intros x Hx. rewrite Hmem. apply String.eqb_neq in Hx. by rewrite Hx.
  - destruct (normalizeReadListItem (now1 0) _) as [[n|]|] eqn:He; [|done|].
    + destruct Hout as [Hid Hlabel]. split; [congruence|]. intros _.
      pose proof (fun x => add_membership now1 now2 _ n x st Hl He) as Hmem.
      rewrite (add_normal _ _ _ _ _ Hl He) in Hmem |- *. cbn [stateOf] in Hmem.
      rewrite Hid in Hmem |- *. eexists. split; [reflexivity|]. split.
      * by rewrite Hmem, String.eqb_refl.
      * intros x Hx. rewrite Hmem. apply String.eqb_neq in Hx. by rewrite Hx.
    + split; [intros _ _; by apply add_thrown|]. intros [?|?]; congruence.
Qed.

(** X27.  Whatever is clicked, and whether the handler returns or throws,
    the read list keeps its invariant: its entries are normal and no id
    occurs twice; a click on an edit or cancel control, or outside the
    controls, leaves the list as it is. *)
Theorem clicks_keep_unique_ids (now1 now2 : nat -> number) (click : Click) (st : State) :
  uniqueIds (readList st) ->
  uniqueIds (readList (stateOf (handleReadListClick now1 now2 click st))) /\
  match click with
  | EditClick _ | CancelClick | OtherClick =>
      readList (stateOf (handleReadListClick now1 now2 click st)) = readList st
  | _ => True
  end.
Proof.
  intros Hu. split; [|by destruct click].
  destruct click as [articleId title url pdfUrl authors sourceLabel|targetId|targetId|
                     |targetId note|]; simpl; try done.
  - destruct (nonEmpty articleId); simpl; [|done].
    destruct (isInReadList articleId st); [by apply remove_unique | by apply add_unique].
  - destruct (nonEmpty targetId); [by apply remove_unique | done].
  - destruct (nonEmpty targetId); simpl; [by apply updateNote_unique | done].
Qed.

End Claims.
End ReadListClickClaims.

Module ReadListClickWitnesses.
Import Normalize ReadList ReadListClicks ReadListSample.

Lemma state_unique : uniqueIds (readList state).
Proof.
  split; [exact ReadListWitnesses.state_normal|].
  apply (bool_decide_unpack _). by vm_compute.
Qed.

Lemma toggle_flips_membership_sample :
  exists after,
    handleReadListClick clock clock
      (ToggleClick "2401.0001" "A new paper" EmptyString EmptyString "Grace Hopper"
         (JsStr "cs.CL")) state = Returned after /\
    isInReadList "2401.0001" after = negb (isInReadList "2401.0001" state) /\
    (forall x, x <> "2401.0001" -> isInReadList x after = isInReadList x state).
Proof.
  assert (Hne : "2401.0001" <> EmptyString) by discriminate.
  exact (proj2 (ReadListClickClaims.toggle_flips_membership clock clock "2401.0001"
                  "A new paper" EmptyString EmptyString "Grace Hopper" (JsStr "cs.CL")
                  state ReadListWitnesses.state_normal eq_refl Hne)
               (or_intror eq_refl)).
Defined.

Lemma clicks_keep_unique_ids_sample :
  uniqueIds (readList (stateOf (handleReadListClick clock clock
                                  (SaveClick "2312.0009" "read by Friday") state))) /\ True.
Proof.
  exact (ReadListClickClaims.clicks_keep_unique_ids clock clock
           (SaveClick "2312.0009" "read by Friday") state state_unique).
Defined.

End ReadListClickWitnesses.

(* ===================================================================== *)
(** ** The display-mode class of the page (script.js, 253-258) *)
(* ===================================================================== *)


Module DisplayClassClaims.
Import Str Normalize NormalizeClaims Persistence DisplayClass.

Lemma cleared_spec (classList : gset string) (x : string) :
  x ∈ fold_left (fun classes cls => classes ∖ {[cls]}) modeClasses classList <->
  x ∈ classList /\ ~ In x modeClasses.
Proof.
  unfold modeClasses. cbn [map DISPLAY_MODE_CLASSES snd fold_left In].
  rewrite !elem_of_difference, !elem_of_singleton. intuition congruence.
Qed.

(** X28.  When [applyDisplayModeClass] returns, the page has exactly one of
    the three display-mode classes, the class of the current mode (the class
    of [full] for a string that is no mode), and every other class as it
    was.  It returns for each of the three modes; the only strings on which
    it throws are names that [Object.prototype] defines, and the page is
    then left without any of the three classes. *)
Theorem applyDisplayModeClass_single (displayMode : string) (classList : gset string) :
  let target :=
    if hasOwnProperty DISPLAY_MODE_CLASSES displayMode
    then "display-mode-" +:+ displayMode else "display-mode-full" in
  match applyDisplayModeClass displayMode classList with
  | Applied classes =>
      In target modeClasses /\
      (forall x, x ∈ classes <-> x = target \/ (x ∈ classList /\ ~ In x modeClasses))
  | Raised classes =>
      In displayMode objectPrototypeKeys /\ ~ In displayMode displayModes /\
      (forall x, x ∈ classes <-> x ∈ classList /\ ~ In x modeClasses)
  end.
Proof.
  cbv zeta. unfold applyDisplayModeClass, hasOwnProperty.
  cbn [List.find existsb DISPLAY_MODE_CLASSES fst].
  destruct (String.eqb_spec "title" displayMode) as [<-|Ht].
  { split; [by left|]. intros x.
    rewrite elem_of_union, elem_of_singleton, cleared_spec. tauto. }
  destruct (String.eqb_spec "authors" displayMode) as [<-|Ha].
  { split; [right; by left|]. intros x.
    rewrite elem_of_union, elem_of_singleton, cleared_spec. tauto. }
  destruct (String.eqb_spec "full" displayMode) as [<-|Hf].
  { split; [right; right; by left|]. intros x.
    rewrite elem_of_union, elem_of_singleton, cleared_spec. tauto. }
  cbn [orb].
  destruct (existsb (String.eqb displayMode) objectPrototypeKeys) eqn:E.
  - split; [|split].
    + apply existsb_exists in E as [k [Hk Heq]]. apply String.eqb_eq in Heq. by subst k.
    + intros [?|[?|[?|[]]]]; congruence.
    + apply cleared_spec.
  - split; [right; right; by left|]. intros x.
    rewrite elem_of_union, elem_of_singleton, cleared_spec. tauto.
Qed.

End DisplayClassClaims.
